(** * Provenance chain of the secure camera system

    A shallow embedding of [src/data/provenance.js] (class ProvenanceTracker),
    [src/data/database.js] (class ProvenanceDatabase) and the signing device
    wrapper (class ATECC608), followed by the properties of the hash chain
    that the specification states about them.

    Conventions of the embedding:
    - a JavaScript value that is serialised or parsed is a [JSON] tree;
    - a promise is an [Outcome]: resolved, rejected, or (for an exception
      thrown inside a sqlite3 callback, which no promise observes) uncaught;
    - the objects that the code mutates (the two SQL tables and the tracker's
      [lastHash]) are threaded explicitly through a state monad [M];
    - whatever the environment decides (uuid, clocks, the device's answer, an
      I/O error of sqlite3, [Math.random]) is an explicit argument. *)

From Stdlib Require Import String Ascii List Bool ZArith QArith Lia Sorted.
Import ListNotations.

Set Warnings "-register-all".

Local Open Scope list_scope.
Local Open Scope string_scope.

(* ================================================================== *)
(** * JavaScript values and [JSON.stringify] *)
(* ================================================================== *)

(** The values [JSON.parse] can return. A number is carried by the decimal
    literal JavaScript prints for it. The members of an object are kept in
    insertion order, which is the order [JSON.stringify] emits them in. *)
Inductive JSON : Type :=
| JNull
| JBool (b : bool)
| JNumber (literal : string)
| JString (s : string)
| JArray (items : list JSON)
| JObject (members : list (string * JSON)).

Definition dquote : string := String "034"%char EmptyString.
Definition backslash : string := String "092"%char EmptyString.

Definition hex_digit (n : nat) : string :=
  String (nth n (list_ascii_of_string "0123456789abcdef") "0"%char) EmptyString.

(** Escape of one character inside a JSON string literal. *)
Definition escape_char (c : ascii) : string :=
  let n := nat_of_ascii c in
  if Nat.eqb n 34 then backslash ++ dquote
  else if Nat.eqb n 92 then backslash ++ backslash
  else if Nat.eqb n 8 then backslash ++ "b"
  else if Nat.eqb n 12 then backslash ++ "f"
  else if Nat.eqb n 10 then backslash ++ "n"
  else if Nat.eqb n 13 then backslash ++ "r"
  else if Nat.eqb n 9 then backslash ++ "t"
  else if Nat.ltb n 32
       then backslash ++ "u00" ++ hex_digit (Nat.div n 16) ++ hex_digit (Nat.modulo n 16)
  else String c EmptyString.

Fixpoint escape (s : string) : string :=
  match s with
  | EmptyString => EmptyString
  | String c rest => escape_char c ++ escape rest
  end.

Definition quote (s : string) : string := dquote ++ escape s ++ dquote.

Fixpoint join (sep : string) (parts : list string) : string :=
  match parts with
  | [] => EmptyString
  | [p] => p
  | p :: rest => p ++ sep ++ join sep rest
  end.

(** [JSON.stringify(v)] without indentation. *)
Fixpoint JSON_stringify (v : JSON) : string :=
  match v with
  | JNull => "null"
  | JBool true => "true"
  | JBool false => "false"
  | JNumber literal => literal
  | JString s => quote s
  | JArray items => "[" ++ join "," (map JSON_stringify items) ++ "]"
  | JObject members =>
      "{" ++ join "," (map (fun kv => match kv with
                                       | (k, x) => quote k ++ ":" ++ JSON_stringify x
                                       end) members) ++ "}"
  end.

(** [x === null ? null : x] for a nullable string placed in an object. *)
Definition js_string_or_null (x : option string) : JSON :=
  match x with
  | Some s => JString s
  | None => JNull
  end.

(** [x || fallback] on a nullable string: null and the empty string are falsy. *)
Definition or_string (x : option string) (fallback : string) : string :=
  match x with
  | Some EmptyString => fallback
  | Some s => s
  | None => fallback
  end.

(** [!x] on a nullable string. *)
Definition not_string (x : option string) : bool :=
  match x with
  | Some EmptyString => true
  | Some _ => false
  | None => true
  end.

(** Truthiness of the value of a property; [None] is [undefined]. *)
Definition truthy (v : option JSON) : bool :=
  match v with
  | None => false
  | Some JNull => false
  | Some (JBool b) => b
  | Some (JNumber literal) => negb (String.eqb literal "0")
  | Some (JString s) => negb (String.eqb s "")
  | Some (JArray _) => true
  | Some (JObject _) => true
  end.

Fixpoint assoc (k : string) (members : list (string * JSON)) : option JSON :=
  match members with
  | [] => None
  | (k', x) :: rest => if String.eqb k k' then Some x else assoc k rest
  end.

(* ================================================================== *)
(** * Promises *)
(* ================================================================== *)

Definition Error : Type := string.

(** How an awaited call ends. [Uncaught] is an exception thrown inside a
    sqlite3 callback: it escapes the promise, so no [catch] sees it. *)
Inductive Outcome (A : Type) : Type :=
| Resolved (a : A)
| Rejected (e : Error)
| Uncaught (e : Error).

Arguments Resolved {A} a.
Arguments Rejected {A} e.
Arguments Uncaught {A} e.

(** [o.name] for a property name that primitives and arrays do not define;
    reading a property of [null] throws a TypeError. *)
Definition get_property (o : JSON) (name : string) : Outcome (option JSON) :=
  match o with
  | JNull => Rejected ("TypeError: Cannot read properties of null (reading '" ++ name ++ "')")
  | JObject members => Resolved (assoc name members)
  | _ => Resolved None
  end.

(** Code that awaits calls one after the other over a mutable object [S]. *)
Definition M (S A : Type) : Type := S -> S * Outcome A.

Definition ret {S A : Type} (a : A) : M S A := fun s => (s, Resolved a).

Definition throw {S A : Type} (e : Error) : M S A := fun s => (s, Rejected e).

Definition bind {S A B : Type} (m : M S A) (k : A -> M S B) : M S B :=
  fun s =>
    match m s with
    | (s', Resolved a) => k a s'
    | (s', Rejected e) => (s', Rejected e)
    | (s', Uncaught e) => (s', Uncaught e)
    end.

(** [try { m } catch (error) { handler(error) }] *)
Definition try_catch {S A : Type} (m : M S A) (handler : Error -> M S A) : M S A :=
  fun s =>
    match m s with
    | (s', Rejected e) => handler e s'
    | r => r
    end.

(** An awaited call that touches nothing of [S]. *)
Definition await {S A : Type} (o : Outcome A) : M S A := fun s => (s, o).

(** A call of a collaborator that returns ([inl]) or throws ([inr]). *)
Definition call {S A : Type} (r : A + Error) : M S A :=
  fun s => match r with
           | inl a => (s, Resolved a)
           | inr e => (s, Rejected e)
           end.

Definition gets {S A : Type} (f : S -> A) : M S A := fun s => (s, Resolved (f s)).

Definition modify {S : Type} (f : S -> S) : M S unit := fun s => (f s, Resolved tt).

Declare Scope js_scope.
Delimit Scope js_scope with js.
Notation "x <- m ;; k" := (bind m (fun x => k))
  (at level 61, m at next level, right associativity) : js_scope.
Notation "m ;;; k" := (bind m (fun _ => k))
  (at level 61, right associativity) : js_scope.

(** What the platform supplies: [crypto.createHash('sha256')...digest('hex')]
    and [JSON.parse], which throws a SyntaxError ([None]) on malformed text. *)
Class Runtime : Type := {
  sha256_hex : string -> string;
  JSON_parse : string -> option JSON
}.

(* ================================================================== *)
(** * The signing device (class ATECC608) *)
(* ================================================================== *)

Record ATECC608 : Type := { initialized : bool }.

(** The object [signData] returns. *)
Record SignatureInfo : Type := {
  si_signature : string;
  si_algorithm : string;
  si_keyId : string;
  si_hardware : bool
}.

Definition SignatureInfo_object (si : SignatureInfo) : JSON :=
  JObject [("signature", JString (si_signature si));
           ("algorithm", JString (si_algorithm si));
           ("keyId", JString (si_keyId si));
           ("hardware", JBool (si_hardware si))].

(** What the device and the key generator answer during one [signData]:
    the hex of the response to the sign command sent with the digest of the
    data, and the signature made with a freshly generated software key.
    Either may throw instead ([inr]). *)
Record SignerIO : Type := {
  i2c_sign : string -> string + Error;
  ec_sign : string -> string + Error
}.

Definition softwareSign (io : SignerIO) (data : string) : Outcome SignatureInfo :=
  match ec_sign io data with
  | inl signature =>
      Resolved {| si_signature := signature;
                  si_algorithm := "ECDSA-SHA256";
                  si_keyId := "SOFTWARE-FALLBACK";
                  si_hardware := false |}
  | inr e => Rejected e
  end.

Definition hardwareSign `{Runtime} (io : SignerIO) (data : string) : Outcome SignatureInfo :=
  let hash := sha256_hex data in
  match i2c_sign io hash with
  | inl signature =>
      Resolved {| si_signature := signature;
                  si_algorithm := "ECDSA-SHA256";
                  si_keyId := "ATECC608-SLOT0";
                  si_hardware := true |}
  | inr error => softwareSign io data
  end.

Definition signData `{Runtime} (c : ATECC608) (io : SignerIO) (data : string)
  : Outcome SignatureInfo :=
  if initialized c then hardwareSign io data else softwareSign io data.

Inductive Routine : Type := hardwareVerify_routine | softwareVerify_routine.

Definition hardwareVerify (data : string) (signatureInfo : JSON) : bool := true.

(** The double nearest to 0.1, as the exact rational it denotes. *)
Definition one_tenth : Q := 3602879701896397 # 36028797018963968.

(** [Math.random() > 0.1]; [random] is the number [Math.random()] drew. *)
Definition softwareVerify (random : Q) (data : string) (signatureInfo : JSON) : bool :=
  negb (Qle_bool random one_tenth).

(** The branch [verifySignature] takes. *)
Definition verifySignature_routine (c : ATECC608) (signatureInfo : JSON) : Outcome Routine :=
  match get_property signatureInfo "hardware" with
  | Resolved hardware =>
      if truthy hardware && initialized c
      then Resolved hardwareVerify_routine
      else Resolved softwareVerify_routine
  | Rejected e => Rejected e
  | Uncaught e => Uncaught e
  end.

Definition run_routine (r : Routine) (random : Q) (data : string) (signatureInfo : JSON) : bool :=
  match r with
  | hardwareVerify_routine => hardwareVerify data signatureInfo
  | softwareVerify_routine => softwareVerify random data signatureInfo
  end.

Definition verifySignature (c : ATECC608) (random : Q) (data : string) (signatureInfo : JSON)
  : Outcome bool :=
  match verifySignature_routine c signatureInfo with
  | Resolved r => Resolved (run_routine r random data signatureInfo)
  | Rejected e => Rejected e
  | Uncaught e => Uncaught e
  end.

(* ================================================================== *)
(** * The store (class ProvenanceDatabase) *)
(* ================================================================== *)

(** A row of table [events]. The rowid is left out: no modelled operation
    reads it, and the order of the list is the order of the rowids. *)
Module EventRow.
Record t : Type := {
  event_id : string;                (* TEXT UNIQUE NOT NULL *)
  timestamp : string;               (* TEXT NOT NULL *)
  rtc_timestamp : option string;
  event_type : string;              (* TEXT NOT NULL *)
  trigger_data : option string;
  image_path : option string;
  image_hash : option string;
  signature : option string;
  signature_info : option string;
  verification_status : Z;          (* INTEGER DEFAULT 0 *)
  created_at : Z                    (* CURRENT_TIMESTAMP, in seconds *)
}.
End EventRow.

(** A row of table [provenance_chain] (rowid and created_at left out, as
    nothing reads them). *)
Module ChainRow.
Record t : Type := {
  event_id : string;                (* TEXT NOT NULL *)
  previous_hash : option string;
  current_hash : string;            (* TEXT NOT NULL *)
  chain_position : Z                (* INTEGER NOT NULL *)
}.
End ChainRow.

(** The SQL statements the class runs. *)
Inductive Statement : Type :=
| INSERT_INTO_events
| SELECT_MAX_chain_position
| INSERT_INTO_provenance_chain
| SELECT_events_joined (limit offset : Z)
| SELECT_event_joined (eventId : string)
| SELECT_provenance_chain.

Definition writes (s : Statement) : bool :=
  match s with
  | INSERT_INTO_events | INSERT_INTO_provenance_chain => true
  | _ => false
  end.

(** The database file: its two tables, and the statements run on it so far. *)
Record ProvenanceDatabase : Type := {
  events : list EventRow.t;
  provenance_chain : list ChainRow.t;
  statements : list Statement
}.

Definition run (s : Statement) : M ProvenanceDatabase unit :=
  modify (fun d => {| events := events d;
                      provenance_chain := provenance_chain d;
                      statements := (statements d ++ [s])%list |}).

(** The object [logEvent] destructures. *)
Module DbRecord.
Record t : Type := {
  eventId : string;
  timestamp : string;
  rtcTimestamp : string;
  eventType : string;
  triggerData : JSON;
  imagePath : string;
  imageHash : string;
  signature : option string;
  signatureInfo : JSON;
  verificationStatus : bool
}.
End DbRecord.

Definition event_row_of (now : Z) (eventData : DbRecord.t) : EventRow.t :=
  {| EventRow.event_id := DbRecord.eventId eventData;
     EventRow.timestamp := DbRecord.timestamp eventData;
     EventRow.rtc_timestamp := Some (DbRecord.rtcTimestamp eventData);
     EventRow.event_type := DbRecord.eventType eventData;
     EventRow.trigger_data := Some (JSON_stringify (DbRecord.triggerData eventData));
     EventRow.image_path := Some (DbRecord.imagePath eventData);
     EventRow.image_hash := Some (DbRecord.imageHash eventData);
     EventRow.signature := DbRecord.signature eventData;
     EventRow.signature_info := Some (JSON_stringify (DbRecord.signatureInfo eventData));
     EventRow.verification_status := if DbRecord.verificationStatus eventData then 1%Z else 0%Z;
     EventRow.created_at := now |}.

Definition has_event_id (eventId : string) (rows : list EventRow.t) : bool :=
  existsb (fun r => String.eqb (EventRow.event_id r) eventId) rows.

(** [logEvent(eventData)]. [err] is the error sqlite3 hands to the callback
    for an I/O failure, if any; [now] is CURRENT_TIMESTAMP. The UNIQUE
    constraint on [event_id] is the table's own. The promise resolves with
    the rowid, which no caller reads. *)
Definition logEvent (err : option Error) (now : Z) (eventData : DbRecord.t)
  : M ProvenanceDatabase unit :=
  (run INSERT_INTO_events ;;;
   match err with
   | Some e => throw e
   | None =>
       rows <- gets events ;;
       if has_event_id (DbRecord.eventId eventData) rows
       then throw "SQLITE_CONSTRAINT: UNIQUE constraint failed: events.event_id"
       else modify (fun d => {| events := (events d ++ [event_row_of now eventData])%list;
                                provenance_chain := provenance_chain d;
                                statements := statements d |})
   end)%js.

(** [SELECT MAX(chain_position)]: NULL on an empty table. *)
Fixpoint max_chain_position (rows : list ChainRow.t) : option Z :=
  match rows with
  | [] => None
  | r :: rest =>
      match max_chain_position rest with
      | None => Some (ChainRow.chain_position r)
      | Some m => Some (Z.max (ChainRow.chain_position r) m)
      end
  end.

(** [row.max_pos || 0] *)
Definition or_zero (x : option Z) : Z :=
  match x with
  | Some z => if Z.eqb z 0 then 0%Z else z
  | None => 0%Z
  end.

(** [Number.isSafeInteger]: the integers that JavaScript numbers count
    without rounding. *)
Definition isSafeInteger (z : Z) : Prop :=
  (- 9007199254740991 <= z <= 9007199254740991)%Z.

(** Every stored position is a safe integer. *)
Definition safe_positions (d : ProvenanceDatabase) : Prop :=
  forall p, In p (provenance_chain d) -> isSafeInteger (ChainRow.chain_position p).

(** [addToProvenanceChain(eventId, previousHash, currentHash)], resolving
    with the position. [get_err] and [run_err] are the I/O errors of the
    SELECT and of the INSERT, if any. The position is a JavaScript number:
    the sum below is the one the code computes as long as the stored
    positions are safe integers ([safe_positions]); above them
    [max_pos + 1] is rounded, which the sum on [Z] does not show. *)
Definition addToProvenanceChain (get_err run_err : option Error)
    (eventId : string) (previousHash : option string) (currentHash : string)
  : M ProvenanceDatabase Z :=
  (run SELECT_MAX_chain_position ;;;
   match get_err with
   | Some e => throw e
   | None =>
       max_pos <- gets (fun d => max_chain_position (provenance_chain d)) ;;
       let position := (or_zero max_pos + 1)%Z in
       run INSERT_INTO_provenance_chain ;;;
       match run_err with
       | Some e => throw e
       | None =>
           modify (fun d => {| events := events d;
                               provenance_chain :=
                                 (provenance_chain d ++
                                    [{| ChainRow.event_id := eventId;
                                        ChainRow.previous_hash := previousHash;
                                        ChainRow.current_hash := currentHash;
                                        ChainRow.chain_position := position |}])%list;
                               statements := statements d |}) ;;;
           ret position
       end
   end)%js.

(** A row of [events e LEFT JOIN provenance_chain p ON e.event_id = p.event_id]
    with the columns of [p] that the two queries select. *)
Module JoinedRow.
Record t : Type := {
  e : EventRow.t;
  current_hash : option string;
  previous_hash : option string;
  chain_position : option Z
}.
End JoinedRow.

Definition joined (e : EventRow.t) (p : option ChainRow.t) : JoinedRow.t :=
  match p with
  | Some p =>
      {| JoinedRow.e := e;
         JoinedRow.current_hash := Some (ChainRow.current_hash p);
         JoinedRow.previous_hash := ChainRow.previous_hash p;
         JoinedRow.chain_position := Some (ChainRow.chain_position p) |}
  | None =>
      {| JoinedRow.e := e;
         JoinedRow.current_hash := None;
         JoinedRow.previous_hash := None;
         JoinedRow.chain_position := None |}
  end.

Definition left_join (es : list EventRow.t) (ps : list ChainRow.t) : list JoinedRow.t :=
  flat_map (fun e =>
              match filter (fun p => String.eqb (EventRow.event_id e) (ChainRow.event_id p)) ps with
              | [] => [joined e None]
              | matches => map (fun p => joined e (Some p)) matches
              end) es.

(** ORDER BY e.created_at DESC; rows of equal [created_at] keep table order. *)
Fixpoint insert_newest_first (r : JoinedRow.t) (sorted : list JoinedRow.t) : list JoinedRow.t :=
  match sorted with
  | [] => [r]
  | x :: rest =>
      if (EventRow.created_at (JoinedRow.e x) <=? EventRow.created_at (JoinedRow.e r))%Z
      then r :: sorted
      else x :: insert_newest_first r rest
  end.

Definition order_by_created_at_desc (rows : list JoinedRow.t) : list JoinedRow.t :=
  fold_right insert_newest_first [] rows.

(** The object the two readers build from a row:
    [{...row, trigger_data: JSON.parse(..), signature_info: JSON.parse(..),
      verification_status: Boolean(..)}]. *)
Module Event.
Record t : Type := {
  row : JoinedRow.t;
  trigger_data : JSON;
  signature_info : JSON;
  verification_status : bool
}.
End Event.

(** [None] when one of the two [JSON.parse] calls throws. *)
Definition parse_row `{Runtime} (row : JoinedRow.t) : option Event.t :=
  match JSON_parse (or_string (EventRow.trigger_data (JoinedRow.e row)) "{}") with
  | None => None
  | Some trigger_data =>
      match JSON_parse (or_string (EventRow.signature_info (JoinedRow.e row)) "{}") with
      | None => None
      | Some signature_info =>
          Some {| Event.row := row;
                  Event.trigger_data := trigger_data;
                  Event.signature_info := signature_info;
                  Event.verification_status :=
                    negb (Z.eqb (EventRow.verification_status (JoinedRow.e row)) 0) |}
      end
  end.

(** [rows.map(row => ...)]: the first throwing row aborts the map. *)
Fixpoint parse_rows `{Runtime} (rows : list JoinedRow.t) : option (list Event.t) :=
  match rows with
  | [] => Some []
  | r :: rest =>
      match parse_row r with
      | None => None
      | Some ev =>
          match parse_rows rest with
          | None => None
          | Some evs => Some (ev :: evs)
          end
      end
  end.

Definition SyntaxError : Error := "SyntaxError: Unexpected token in JSON".

(** The numbers bound to [LIMIT ? OFFSET ?]. The callers pass integers:
    [getEvents(1, 0)] at start-up, [getEvents(20)] on a WebSocket request,
    and, in the route [/api/events], [parseInt(req.query.limit) || 50] with
    [parseInt(req.query.offset) || 0], which are negative or large when the
    request says so. sqlite3 binds a number outside the int32 range as a
    double, and SQLite takes a double for a row count only if it converts to
    a 64-bit integer without loss; it refuses the statement otherwise. *)
Definition is_row_count (v : Z) : bool :=
  ((-9223372036854775808 <? v) && (v <? 9223372036854775808))%Z.

Definition SQLITE_MISMATCH : Error := "SQLITE_MISMATCH: datatype mismatch".

(** [LIMIT limit]: a negative [limit] is no upper bound. *)
Definition LIMIT {A : Type} (limit : Z) (rows : list A) : list A :=
  if (limit <? 0)%Z then rows else firstn (Z.to_nat limit) rows.

(** [OFFSET offset]: a negative [offset] skips no row. *)
Definition OFFSET {A : Type} (offset : Z) (rows : list A) : list A :=
  if (offset <? 0)%Z then rows else skipn (Z.to_nat offset) rows.

(** [getEvents(limit, offset)]; the query does not select [p.previous_hash]. *)
Definition getEvents `{Runtime} (err : option Error) (limit offset : Z)
  : M ProvenanceDatabase (list Event.t) :=
  (run (SELECT_events_joined limit offset) ;;;
   match err with
   | Some e => throw e
   | None =>
       if negb (is_row_count limit && is_row_count offset) then throw SQLITE_MISMATCH
       else
         d <- gets (fun d => d) ;;
         let all := order_by_created_at_desc (left_join (events d) (provenance_chain d)) in
         let rows := map (fun r => {| JoinedRow.e := JoinedRow.e r;
                                      JoinedRow.current_hash := JoinedRow.current_hash r;
                                      JoinedRow.previous_hash := None;
                                      JoinedRow.chain_position := JoinedRow.chain_position r |})
                         (LIMIT limit (OFFSET offset all)) in
         match parse_rows rows with
         | Some evs => ret evs
         | None => await (Uncaught SyntaxError)
         end
   end)%js.

(** [getEventById(eventId)]: the first row of the join for that id, or null. *)
Definition getEventById `{Runtime} (err : option Error) (eventId : string)
  : M ProvenanceDatabase (option Event.t) :=
  (run (SELECT_event_joined eventId) ;;;
   match err with
   | Some e => throw e
   | None =>
       d <- gets (fun d => d) ;;
       let rows := filter (fun r => String.eqb (EventRow.event_id (JoinedRow.e r)) eventId)
                          (left_join (events d) (provenance_chain d)) in
       match rows with
       | [] => ret None
       | row :: _ =>
           match parse_row row with
           | Some ev => ret (Some ev)
           | None => await (Uncaught SyntaxError)
           end
       end
   end)%js.

(** ORDER BY chain_position ASC; rows of equal position keep table order. *)
Fixpoint insert_by_position (r : ChainRow.t) (sorted : list ChainRow.t) : list ChainRow.t :=
  match sorted with
  | [] => [r]
  | x :: rest =>
      if (ChainRow.chain_position r <=? ChainRow.chain_position x)%Z
      then r :: sorted
      else x :: insert_by_position r rest
  end.

Definition order_by_chain_position (rows : list ChainRow.t) : list ChainRow.t :=
  fold_right insert_by_position [] rows.

Record Issue : Type := {
  position : Z;
  issue : string;
  expected : string;
  actual : option string
}.

Record ChainStatus : Type := {
  isValid : bool;
  totalEvents : nat;
  issues : list Issue
}.

(** [a !== b] between a nullable column and a NOT NULL one. *)
Definition strict_neq (a : option string) (b : string) : bool :=
  match a with
  | Some s => negb (String.eqb s b)
  | None => true
  end.

(** The body of the [for] loop at index [i], where [prev] is [rows[i - 1]]
    and [cur] is [rows[i]]; the loop's variables are [(isValid, issues)]. *)
Definition check_link (prev cur : ChainRow.t) (acc : bool * list Issue) : bool * list Issue :=
  if strict_neq (ChainRow.previous_hash cur) (ChainRow.current_hash prev)
  then (false,
        (snd acc ++ [{| position := ChainRow.chain_position cur;
                        issue := "Hash chain broken";
                        expected := ChainRow.current_hash prev;
                        actual := ChainRow.previous_hash cur |}])%list)
  else acc.

(** The iterations [i, i + 1, ...] over [rows[i..]] after [prev = rows[i-1]]. *)
Fixpoint walk (prev : ChainRow.t) (rest : list ChainRow.t) (acc : bool * list Issue)
  : bool * list Issue :=
  match rest with
  | [] => acc
  | cur :: rest' => walk cur rest' (check_link prev cur acc)
  end.

(** [for (let i = 1; i < rows.length; i++) ...] from [isValid = true, issues = []]. *)
Definition check_rows (rows : list ChainRow.t) : bool * list Issue :=
  match rows with
  | [] => (true, [])
  | first :: rest => walk first rest (true, [])
  end.

Definition verifyProvenanceChain (err : option Error) : M ProvenanceDatabase ChainStatus :=
  (run SELECT_provenance_chain ;;;
   match err with
   | Some e => throw e
   | None =>
       rows <- gets (fun d => order_by_chain_position (provenance_chain d)) ;;
       let result := check_rows rows in
       ret {| isValid := fst result;
              totalEvents := length rows;
              issues := snd result |}
   end)%js.

(* ================================================================== *)
(** * The engine (class ProvenanceTracker) *)
(* ================================================================== *)

(** The tracker with the objects it holds; [this.rtc] is in [Env] below. *)
Record ProvenanceTracker : Type := {
  db : ProvenanceDatabase;
  crypto : ATECC608;
  lastHash : option string
}.

(** [await this.db.method(...)] *)
Definition this_db {A : Type} (m : M ProvenanceDatabase A) : M ProvenanceTracker A :=
  fun this =>
    match m (db this) with
    | (d, o) => ({| db := d; crypto := crypto this; lastHash := lastHash this |}, o)
    end.

(** [this.lastHash = h] *)
Definition set_lastHash (h : option string) : M ProvenanceTracker unit :=
  modify (fun this => {| db := db this; crypto := crypto this; lastHash := h |}).

(** [new ProvenanceTracker(database, cryptoDevice, rtc)] *)
Definition new_ProvenanceTracker (database : ProvenanceDatabase) (cryptoDevice : ATECC608)
  : ProvenanceTracker :=
  {| db := database; crypto := cryptoDevice; lastHash := None |}.

(** [initialize()]: the newest event of [getEvents(1, 0)] seeds [lastHash]. *)
Definition initialize `{Runtime} (err : option Error) : M ProvenanceTracker unit :=
  try_catch
    (events <- this_db (getEvents err 1%Z 0%Z) ;;
     match events with
     | ev :: _ => set_lastHash (JoinedRow.current_hash (Event.row ev))
     | [] => ret tt
     end)%js
    (fun error => ret tt).

(** What the camera driver hands over. *)
Record ImageData : Type := {
  filepath : string;
  base64Data : string
}.

(** The object literal [eventData]. *)
Module EventData.
Record t : Type := {
  eventId : string;
  timestamp : string;
  rtcTimestamp : option string;
  eventType : string;
  triggerData : JSON;
  imageHash : option string;
  previousHash : option string
}.
End EventData.

Definition EventData_members (eventData : EventData.t) : list (string * JSON) :=
  [("eventId", JString (EventData.eventId eventData));
   ("timestamp", JString (EventData.timestamp eventData));
   ("rtcTimestamp", js_string_or_null (EventData.rtcTimestamp eventData));
   ("eventType", JString (EventData.eventType eventData));
   ("triggerData", EventData.triggerData eventData);
   ("imageHash", js_string_or_null (EventData.imageHash eventData));
   ("previousHash", js_string_or_null (EventData.previousHash eventData))].

Definition calculateImageHash `{Runtime} (imageData : ImageData) : string :=
  sha256_hex (base64Data imageData).

(** [{...eventData, signature: signature || 'unsigned'}], hashed. *)
Definition calculateEventHash `{Runtime} (eventData : EventData.t) (signature : option string)
  : string :=
  let hashInput :=
    JSON_stringify
      (JObject (EventData_members eventData
                ++ [("signature", JString (or_string signature "unsigned"))])%list) in
  sha256_hex hashInput.

(** What the environment decides during one pass through the body of
    [createProvenanceRecord] or of [createUnsignedRecord]. *)
Record Env : Type := {
  uuidv4 : string;                          (* uuidv4() *)
  toISOString : string;                     (* new Date().toISOString() *)
  getPreciseTimestamp : string + Error;     (* (await rtc.getPreciseTimestamp()).iso *)
  signer : SignerIO;                        (* the device during signData *)
  logEvent_err : option Error;              (* I/O error of INSERT INTO events *)
  max_pos_err : option Error;               (* I/O error of SELECT MAX(...) *)
  insert_err : option Error;                (* I/O error of INSERT INTO provenance_chain *)
  CURRENT_TIMESTAMP : Z
}.

(** The object a creation returns: [{eventId, currentHash, signed, ...dbRecord}]. *)
Module ProvenanceRecord.
Record t : Type := {
  eventId : string;
  currentHash : string;
  signed : bool;
  dbRecord : DbRecord.t
}.
End ProvenanceRecord.

Definition unsigned_signatureInfo : JSON :=
  JObject [("signed", JBool false); ("reason", JString "Crypto device unavailable")].

Definition createUnsignedRecord `{Runtime} (env : Env)
    (eventType : string) (triggerData : JSON) (imageData : ImageData)
  : M ProvenanceTracker ProvenanceRecord.t :=
  try_catch
    (let eventId := uuidv4 env in
     let timestamp := toISOString env in
     rtcTimestamp <- call (getPreciseTimestamp env) ;;
     let imageHash := calculateImageHash imageData in
     previousHash <- gets lastHash ;;
     let eventData :=
       {| EventData.eventId := eventId;
          EventData.timestamp := timestamp;
          EventData.rtcTimestamp := Some rtcTimestamp;
          EventData.eventType := eventType;
          EventData.triggerData := triggerData;
          EventData.imageHash := Some imageHash;
          EventData.previousHash := previousHash |} in
     let currentHash := calculateEventHash eventData None in
     let dbRecord :=
       {| DbRecord.eventId := eventId;
          DbRecord.timestamp := timestamp;
          DbRecord.rtcTimestamp := rtcTimestamp;
          DbRecord.eventType := eventType;
          DbRecord.triggerData := triggerData;
          DbRecord.imagePath := filepath imageData;
          DbRecord.imageHash := imageHash;
          DbRecord.signature := None;
          DbRecord.signatureInfo := unsigned_signatureInfo;
          DbRecord.verificationStatus := false |} in
     this_db (logEvent (logEvent_err env) (CURRENT_TIMESTAMP env) dbRecord) ;;;
     cursor <- gets lastHash ;;
     this_db (addToProvenanceChain (max_pos_err env) (insert_err env)
                                   eventId cursor currentHash) ;;;
     set_lastHash (Some currentHash) ;;;
     ret {| ProvenanceRecord.eventId := eventId;
            ProvenanceRecord.currentHash := currentHash;
            ProvenanceRecord.signed := false;
            ProvenanceRecord.dbRecord := dbRecord |})%js
    (fun error => throw error).

(** [env] serves the [try] block; [env'] serves [createUnsignedRecord] when
    the [catch] block calls it. *)
Definition createProvenanceRecord `{Runtime} (env env' : Env)
    (eventType : string) (triggerData : JSON) (imageData : ImageData)
  : M ProvenanceTracker ProvenanceRecord.t :=
  try_catch
    (let eventId := uuidv4 env in
     let timestamp := toISOString env in
     rtcTimestamp <- call (getPreciseTimestamp env) ;;
     let imageHash := calculateImageHash imageData in
     previousHash <- gets lastHash ;;
     let eventData :=
       {| EventData.eventId := eventId;
          EventData.timestamp := timestamp;
          EventData.rtcTimestamp := Some rtcTimestamp;
          EventData.eventType := eventType;
          EventData.triggerData := triggerData;
          EventData.imageHash := Some imageHash;
          EventData.previousHash := previousHash |} in
     let dataToSign := JSON_stringify (JObject (EventData_members eventData)) in
     device <- gets crypto ;;
     signatureInfo <- await (signData device (signer env) dataToSign) ;;
     let currentHash := calculateEventHash eventData (Some (si_signature signatureInfo)) in
     let dbRecord :=
       {| DbRecord.eventId := eventId;
          DbRecord.timestamp := timestamp;
          DbRecord.rtcTimestamp := rtcTimestamp;
          DbRecord.eventType := eventType;
          DbRecord.triggerData := triggerData;
          DbRecord.imagePath := filepath imageData;
          DbRecord.imageHash := imageHash;
          DbRecord.signature := Some (si_signature signatureInfo);
          DbRecord.signatureInfo := SignatureInfo_object signatureInfo;
          DbRecord.verificationStatus := true |} in
     this_db (logEvent (logEvent_err env) (CURRENT_TIMESTAMP env) dbRecord) ;;;
     cursor <- gets lastHash ;;
     this_db (addToProvenanceChain (max_pos_err env) (insert_err env)
                                   eventId cursor currentHash) ;;;
     set_lastHash (Some currentHash) ;;;
     ret {| ProvenanceRecord.eventId := eventId;
            ProvenanceRecord.currentHash := currentHash;
            ProvenanceRecord.signed := true;
            ProvenanceRecord.dbRecord := dbRecord |})%js
    (fun error => createUnsignedRecord env' eventType triggerData imageData).

(** The object [verifyEvent] returns; an absent property is [None]. *)
Record Verification : Type := {
  valid : bool;
  reason : option string;
  event : option Event.t;
  signatureInfo : option JSON;
  error : option string
}.

(** The object [originalData] that [verifyEvent] rebuilds from a stored event. *)
Definition originalData (event : Event.t) : EventData.t :=
  let e := JoinedRow.e (Event.row event) in
  {| EventData.eventId := EventRow.event_id e;
     EventData.timestamp := EventRow.timestamp e;
     EventData.rtcTimestamp := EventRow.rtc_timestamp e;
     EventData.eventType := EventRow.event_type e;
     EventData.triggerData := Event.trigger_data event;
     EventData.imageHash := EventRow.image_hash e;
     EventData.previousHash := JoinedRow.previous_hash (Event.row event) |}.

(** [err] is the I/O error of the SELECT, if any; [random] is what
    [Math.random()] draws if the software routine runs. *)
Definition verifyEvent `{Runtime} (err : option Error) (random : Q) (eventId : string)
  : M ProvenanceTracker Verification :=
  try_catch
    (found <- this_db (getEventById err eventId) ;;
     match found with
     | None =>
         ret {| valid := false; reason := Some "Event not found";
                event := None; signatureInfo := None; error := None |}
     | Some ev =>
         if not_string (EventRow.signature (JoinedRow.e (Event.row ev)))
         then ret {| valid := false; reason := Some "Event not signed";
                     event := Some ev; signatureInfo := None; error := None |}
         else
           let dataToVerify := JSON_stringify (JObject (EventData_members (originalData ev))) in
           device <- gets crypto ;;
           isValid <- await (verifySignature device random dataToVerify
                                             (Event.signature_info ev)) ;;
           ret {| valid := isValid; reason := None;
                  event := Some ev; signatureInfo := Some (Event.signature_info ev);
                  error := None |}
     end)%js
    (fun error =>
       ret {| valid := false; reason := Some "Verification failed";
              event := None; signatureInfo := None; error := Some error |}).

(** One trigger handled by the server: the arguments of
    [createProvenanceRecord] and what the environment does meanwhile. *)
Record Call : Type := {
  env : Env;
  env' : Env;
  eventType : string;
  triggerData : JSON;
  imageData : ImageData
}.

Definition create `{Runtime} (c : Call) : M ProvenanceTracker ProvenanceRecord.t :=
  createProvenanceRecord (env c) (env' c) (eventType c) (triggerData c) (imageData c).

(** Triggers served one after the other, each call returning before the
    next begins; a creation that throws is logged by the caller, and the
    next trigger is served all the same. Calls that overlap are in
    [event_loop] below. *)
Fixpoint serve `{Runtime} (calls : list Call) (this : ProvenanceTracker) : ProvenanceTracker :=
  match calls with
  | [] => this
  | c :: rest => serve rest (fst (create c this))
  end.

Definition empty_database : ProvenanceDatabase :=
  {| events := []; provenance_chain := []; statements := [] |}.

(** Start-up: a new tracker over the database, then [initialize()]. *)
Definition startup `{Runtime} (err : option Error)
    (database : ProvenanceDatabase) (cryptoDevice : ATECC608) : ProvenanceTracker :=
  fst (initialize err (new_ProvenanceTracker database cryptoDevice)).

(** The [current_hash] of the link of highest position, if there is a link. *)
Definition tail_hash (rows : list ChainRow.t) : option string :=
  match rev (order_by_chain_position rows) with
  | [] => None
  | r :: _ => Some (ChainRow.current_hash r)
  end.

(** ** Edits made to the database file behind the engine's back *)

(** [UPDATE events SET column = value] for one column. *)
Inductive EventEdit : Type :=
| SET_event_id (v : string)
| SET_timestamp (v : string)
| SET_rtc_timestamp (v : option string)
| SET_event_type (v : string)
| SET_trigger_data (v : option string)
| SET_image_path (v : option string)
| SET_image_hash (v : option string)
| SET_signature (v : option string)
| SET_signature_info (v : option string)
| SET_verification_status (v : Z)
| SET_created_at (v : Z).

Definition edit_event (ed : EventEdit) (r : EventRow.t) : EventRow.t :=
  let mk id ts rtc ty td ip ih sg si vs ca :=
    {| EventRow.event_id := id; EventRow.timestamp := ts; EventRow.rtc_timestamp := rtc;
       EventRow.event_type := ty; EventRow.trigger_data := td; EventRow.image_path := ip;
       EventRow.image_hash := ih; EventRow.signature := sg; EventRow.signature_info := si;
       EventRow.verification_status := vs; EventRow.created_at := ca |} in
  let id := EventRow.event_id r in
  let ts := EventRow.timestamp r in
  let rtc := EventRow.rtc_timestamp r in
  let ty := EventRow.event_type r in
  let td := EventRow.trigger_data r in
  let ip := EventRow.image_path r in
  let ih := EventRow.image_hash r in
  let sg := EventRow.signature r in
  let si := EventRow.signature_info r in
  let vs := EventRow.verification_status r in
  let ca := EventRow.created_at r in
  match ed with
  | SET_event_id v => mk v ts rtc ty td ip ih sg si vs ca
  | SET_timestamp v => mk id v rtc ty td ip ih sg si vs ca
  | SET_rtc_timestamp v => mk id ts v ty td ip ih sg si vs ca
  | SET_event_type v => mk id ts rtc v td ip ih sg si vs ca
  | SET_trigger_data v => mk id ts rtc ty v ip ih sg si vs ca
  | SET_image_path v => mk id ts rtc ty td v ih sg si vs ca
  | SET_image_hash v => mk id ts rtc ty td ip v sg si vs ca
  | SET_signature v => mk id ts rtc ty td ip ih v si vs ca
  | SET_signature_info v => mk id ts rtc ty td ip ih sg v vs ca
  | SET_verification_status v => mk id ts rtc ty td ip ih sg si v ca
  | SET_created_at v => mk id ts rtc ty td ip ih sg si vs v
  end.

Fixpoint update_nth {A : Type} (n : nat) (f : A -> A) (l : list A) : list A :=
  match l, n with
  | [], _ => []
  | x :: rest, O => f x :: rest
  | x :: rest, S n' => x :: update_nth n' f rest
  end.

(** The [n]-th event record (in rowid order) edited in place. *)
Definition tamper_event (n : nat) (ed : EventEdit) (d : ProvenanceDatabase) : ProvenanceDatabase :=
  {| events := update_nth n (edit_event ed) (events d);
     provenance_chain := provenance_chain d;
     statements := statements d |}.

Definition with_previous_hash (w : option string) (r : ChainRow.t) : ChainRow.t :=
  {| ChainRow.event_id := ChainRow.event_id r;
     ChainRow.previous_hash := w;
     ChainRow.current_hash := ChainRow.current_hash r;
     ChainRow.chain_position := ChainRow.chain_position r |}.

Definition with_current_hash (h : string) (r : ChainRow.t) : ChainRow.t :=
  {| ChainRow.event_id := ChainRow.event_id r;
     ChainRow.previous_hash := ChainRow.previous_hash r;
     ChainRow.current_hash := h;
     ChainRow.chain_position := ChainRow.chain_position r |}.

(** The [n]-th link (in rowid order) edited in place. *)
Definition tamper_link (n : nat) (f : ChainRow.t -> ChainRow.t) (d : ProvenanceDatabase)
  : ProvenanceDatabase :=
  {| events := events d;
     provenance_chain := update_nth n f (provenance_chain d);
     statements := statements d |}.

(** Positions [1, 2, ..., n] with no gap. *)
Definition contiguous_from_1 (positions : list Z) : Prop :=
  positions = map Z.of_nat (seq 1 (length positions)).

(** A chain whose first link is at [pos] with [previous_hash = prev] and in
    which every later link is one position further and points at the hash
    of the link before it. *)
Fixpoint linked (prev : option string) (pos : Z) (rows : list ChainRow.t) : Prop :=
  match rows with
  | [] => True
  | r :: rest =>
      ChainRow.previous_hash r = prev /\
      ChainRow.chain_position r = pos /\
      linked (Some (ChainRow.current_hash r)) (pos + 1) rest
  end.

(** ** Auxiliary notions used by the statements below *)

(** The loop keeps [isValid] and [issues] in step. *)
Definition in_step (acc : bool * list Issue) : Prop :=
  fst acc = true <-> snd acc = [].

(** A chain table whose two links point at each other correctly but sit at
    positions 1 and 3. *)
Definition gapped_database : ProvenanceDatabase :=
  {| events := [];
     provenance_chain :=
       [ {| ChainRow.event_id := "a"; ChainRow.previous_hash := None;
            ChainRow.current_hash := "h1"; ChainRow.chain_position := 1 |};
         {| ChainRow.event_id := "b"; ChainRow.previous_hash := Some "h1";
            ChainRow.current_hash := "h2"; ChainRow.chain_position := 3 |} ];
     statements := [] |}.

(** A device whose start-up found no chip, and a signature object that an
    earlier run of the device made in hardware. *)
Definition absent_chip : ATECC608 := {| initialized := false |}.

Definition chip_signature : JSON :=
  SignatureInfo_object {| si_signature := "3045022100";
                          si_algorithm := "ECDSA-SHA256";
                          si_keyId := "ATECC608-SLOT0";
                          si_hardware := true |}.

Definition fallback_signature : JSON :=
  SignatureInfo_object {| si_signature := "3046022100";
                          si_algorithm := "ECDSA-SHA256";
                          si_keyId := "SOFTWARE-FALLBACK";
                          si_hardware := false |}.

(** [Math.random()] returns a number in the interval [0, 1). *)
Definition is_random (r : Q) : Prop := (0 <= r)%Q /\ (r < 1)%Q.

(** ** The steps shared by the two creation functions *)

(** The statements from [await this.db.logEvent(dbRecord)] to the [return],
    which [createProvenanceRecord] and [createUnsignedRecord] both end with. *)
Definition persist (env : Env) (eventId currentHash : string)
    (dbRecord : DbRecord.t) (signed : bool)
  : M ProvenanceTracker ProvenanceRecord.t :=
  (this_db (logEvent (logEvent_err env) (CURRENT_TIMESTAMP env) dbRecord) ;;;
   cursor <- gets lastHash ;;
   this_db (addToProvenanceChain (max_pos_err env) (insert_err env)
                                 eventId cursor currentHash) ;;;
   set_lastHash (Some currentHash) ;;;
   ret {| ProvenanceRecord.eventId := eventId;
          ProvenanceRecord.currentHash := currentHash;
          ProvenanceRecord.signed := signed;
          ProvenanceRecord.dbRecord := dbRecord |})%js.

(** The link that [addToProvenanceChain] inserts. *)
Definition next_link (rows : list ChainRow.t)
    (eventId : string) (previousHash : option string) (currentHash : string) : ChainRow.t :=
  {| ChainRow.event_id := eventId;
     ChainRow.previous_hash := previousHash;
     ChainRow.current_hash := currentHash;
     ChainRow.chain_position := (or_zero (max_chain_position rows) + 1)%Z |}.

(** What a pass through the body of a creation function can have done to
    the tables and to the cursor. *)
Definition untouched (this this' : ProvenanceTracker) : Prop :=
  events (db this') = events (db this) /\
  provenance_chain (db this') = provenance_chain (db this) /\
  lastHash this' = lastHash this /\
  crypto this' = crypto this.

Definition orphaned (row : EventRow.t) (this this' : ProvenanceTracker) : Prop :=
  has_event_id (EventRow.event_id row) (events (db this)) = false /\
  events (db this') = (events (db this) ++ [row])%list /\
  provenance_chain (db this') = provenance_chain (db this) /\
  lastHash this' = lastHash this /\
  crypto this' = crypto this.

Definition appended (row : EventRow.t) (currentHash : string)
    (this this' : ProvenanceTracker) : Prop :=
  has_event_id (EventRow.event_id row) (events (db this)) = false /\
  events (db this') = (events (db this) ++ [row])%list /\
  provenance_chain (db this') =
    (provenance_chain (db this)
       ++ [next_link (provenance_chain (db this)) (EventRow.event_id row)
                     (lastHash this) currentHash])%list /\
  lastHash this' = Some currentHash /\
  crypto this' = crypto this.

(** The objects that the two creation functions build. *)
Definition new_eventData `{Runtime} (env : Env) (rtcTimestamp eventType : string)
    (triggerData : JSON) (imageData : ImageData) (previousHash : option string)
  : EventData.t :=
  {| EventData.eventId := uuidv4 env;
     EventData.timestamp := toISOString env;
     EventData.rtcTimestamp := Some rtcTimestamp;
     EventData.eventType := eventType;
     EventData.triggerData := triggerData;
     EventData.imageHash := Some (calculateImageHash imageData);
     EventData.previousHash := previousHash |}.

Definition signed_dbRecord `{Runtime} (env : Env) (rtcTimestamp eventType : string)
    (triggerData : JSON) (imageData : ImageData) (signatureInfo : SignatureInfo)
  : DbRecord.t :=
  {| DbRecord.eventId := uuidv4 env;
     DbRecord.timestamp := toISOString env;
     DbRecord.rtcTimestamp := rtcTimestamp;
     DbRecord.eventType := eventType;
     DbRecord.triggerData := triggerData;
     DbRecord.imagePath := filepath imageData;
     DbRecord.imageHash := calculateImageHash imageData;
     DbRecord.signature := Some (si_signature signatureInfo);
     DbRecord.signatureInfo := SignatureInfo_object signatureInfo;
     DbRecord.verificationStatus := true |}.

Definition unsigned_dbRecord `{Runtime} (env : Env) (rtcTimestamp eventType : string)
    (triggerData : JSON) (imageData : ImageData) : DbRecord.t :=
  {| DbRecord.eventId := uuidv4 env;
     DbRecord.timestamp := toISOString env;
     DbRecord.rtcTimestamp := rtcTimestamp;
     DbRecord.eventType := eventType;
     DbRecord.triggerData := triggerData;
     DbRecord.imagePath := filepath imageData;
     DbRecord.imageHash := calculateImageHash imageData;
     DbRecord.signature := None;
     DbRecord.signatureInfo := unsigned_signatureInfo;
     DbRecord.verificationStatus := false |}.

(** [dataToSign] *)
Definition dataToSign_of (eventData : EventData.t) : string :=
  JSON_stringify (JObject (EventData_members eventData)).

(** ** Recomputing a link's hash from what is stored *)

(** The signable fields as read back from an event row, its parsed trigger
    payload and the [previous_hash] of its link. *)
Definition stored_eventData (e : EventRow.t) (trigger_data : JSON)
    (previous_hash : option string) : EventData.t :=
  {| EventData.eventId := EventRow.event_id e;
     EventData.timestamp := EventRow.timestamp e;
     EventData.rtcTimestamp := EventRow.rtc_timestamp e;
     EventData.eventType := EventRow.event_type e;
     EventData.triggerData := trigger_data;
     EventData.imageHash := EventRow.image_hash e;
     EventData.previousHash := previous_hash |}.

(** The hash recomputed from an event as [getEventById] returns it. *)
Definition recompute_hash `{Runtime} (ev : Event.t) : string :=
  calculateEventHash (originalData ev) (EventRow.signature (JoinedRow.e (Event.row ev))).

(** Row [e] and a link with [previous_hash = prev] and [current_hash = h]
    agree: whatever the stored payload parses to, the hash recomputed from
    the row is [h]. *)
Definition recomputes `{Runtime} (e : EventRow.t) (prev : option string) (h : string) : Prop :=
  forall td,
    JSON_parse (or_string (EventRow.trigger_data e) "{}") = Some td ->
    calculateEventHash (stored_eventData e td prev) (EventRow.signature e) = h.

(** [JSON.parse(JSON.stringify(v))] gives [v] back. *)
Definition roundtrips `{Runtime} (v : JSON) : Prop :=
  JSON_parse (JSON_stringify v) = Some v.

(** The hash a cursor holds after following [rows] in rowid order, having
    started from [prev]. *)
Fixpoint last_hash_from (prev : option string) (rows : list ChainRow.t) : option string :=
  match rows with
  | [] => prev
  | r :: rest => last_hash_from (Some (ChainRow.current_hash r)) rest
  end.

Definition last_hash (rows : list ChainRow.t) : option string := last_hash_from None rows.

(** What holds of the tables and the cursor between two creations. *)
Definition consistent `{Runtime} (this : ProvenanceTracker) : Prop :=
  linked None 1 (provenance_chain (db this)) /\
  lastHash this = last_hash (provenance_chain (db this)) /\
  (forall p, In p (provenance_chain (db this)) ->
             has_event_id (ChainRow.event_id p) (events (db this)) = true) /\
  (forall e p, In e (events (db this)) -> In p (provenance_chain (db this)) ->
               EventRow.event_id e = ChainRow.event_id p ->
               recomputes e (ChainRow.previous_hash p) (ChainRow.current_hash p)).

(** One pass through the body of a creation function did one of three things. *)
Definition effect `{Runtime} (this this' : ProvenanceTracker) : Prop :=
  untouched this this' \/
  (exists row, orphaned row this this') \/
  (exists row h, appended row h this this' /\ recomputes row (lastHash this) h).

(** A creation during which nothing fails: the clock answers, the signer
    signs, and sqlite3 reports no I/O error. *)
Definition no_injected_failure `{Runtime} (device : ATECC608) (c : Call) : Prop :=
  (exists rtcTimestamp, getPreciseTimestamp (env c) = inl rtcTimestamp) /\
  (forall data, exists signatureInfo,
      signData device (signer (env c)) data = Resolved signatureInfo) /\
  logEvent_err (env c) = None /\
  max_pos_err (env c) = None /\
  insert_err (env c) = None.

(** The ids [uuidv4()] hands out to the [try] blocks of the calls. *)
Definition event_ids (calls : list Call) : list string :=
  map (fun c => uuidv4 (env c)) calls.

(** The signer fails totally: [signData] throws whatever it is given. *)
Definition signer_fails `{Runtime} (device : ATECC608) (io : SignerIO) : Prop :=
  forall data, exists e, signData device io data = Rejected e.

(** The results [verifyEvent] gives for a missing and for an unsigned event. *)
Definition event_not_found : Verification :=
  {| valid := false; reason := Some "Event not found";
     event := None; signatureInfo := None; error := None |}.

Definition event_not_signed (ev : Event.t) : Verification :=
  {| valid := false; reason := Some "Event not signed";
     event := Some ev; signatureInfo := None; error := None |}.

(** The two JSON columns of a row hold text that [JSON.parse] accepts
    ([logEvent] fills them with the output of [JSON.stringify]). *)
Definition json_columns_parse `{Runtime} (e : EventRow.t) : Prop :=
  JSON_parse (or_string (EventRow.trigger_data e) "{}") <> None /\
  JSON_parse (or_string (EventRow.signature_info e) "{}") <> None.

(** Every link after [prev] carries the hash of the link before it. *)
Fixpoint follows (prev : ChainRow.t) (rest : list ChainRow.t) : Prop :=
  match rest with
  | [] => True
  | cur :: rest' =>
      ChainRow.previous_hash cur = Some (ChainRow.current_hash prev) /\ follows cur rest'
  end.

(** The rows of the chain table lie in position order, as appending leaves them. *)
Definition stored_in_position_order (d : ProvenanceDatabase) : Prop :=
  StronglySorted Z.le (map ChainRow.chain_position (provenance_chain d)).

(** The entry the loop pushes when [cur] does not carry the hash of [prev]. *)
Definition broken_at (prev cur : ChainRow.t) : Issue :=
  {| position := ChainRow.chain_position cur;
     issue := "Hash chain broken";
     expected := ChainRow.current_hash prev;
     actual := ChainRow.previous_hash cur |}.

(* ================================================================== *)
(** * A concrete run *)
(* ================================================================== *)

(** A platform to run the engine on. The statements below hold for every
    [Runtime]; this one only serves to evaluate them on concrete calls. Its
    digest wraps its input, and its parser knows the texts of a given list
    of values and rejects every other text. *)
Definition parse_among (known : list JSON) (text : string) : option JSON :=
  find (fun v => String.eqb (JSON_stringify v) text) known.

Definition manual_trigger : JSON := JObject [("manual", JBool true)].

Definition example_runtime : Runtime :=
  {| sha256_hex := fun s => "sha256(" ++ s ++ ")";
     JSON_parse := parse_among [manual_trigger; JObject [];
                                fallback_signature; unsigned_signatureInfo] |}.

(** A signer whose chip does not answer and whose software path signs. *)
Definition software_signer : SignerIO :=
  {| i2c_sign := fun _ => inr "Error: EIO, Remote I/O error";
     ec_sign := fun _ => inl "3046022100" |}.

(** A signer that fails totally. *)
Definition dead_signer : SignerIO :=
  {| i2c_sign := fun _ => inr "Error: EIO, Remote I/O error";
     ec_sign := fun _ => inr "Error: error:12800067:DSO support routines" |}.

(** An environment in which nothing fails. *)
Definition quiet (id : string) (now : Z) : Env :=
  {| uuidv4 := id;
     toISOString := "2024-05-01T10:00:00.000Z";
     getPreciseTimestamp := inl "2024-05-01T10:00:00.000Z";
     signer := software_signer;
     logEvent_err := None;
     max_pos_err := None;
     insert_err := None;
     CURRENT_TIMESTAMP := now |}.

(** The same, but the INSERT into the chain table fails. *)
Definition chain_insert_fails (id : string) (now : Z) : Env :=
  {| uuidv4 := id;
     toISOString := "2024-05-01T10:00:00.000Z";
     getPreciseTimestamp := inl "2024-05-01T10:00:00.000Z";
     signer := software_signer;
     logEvent_err := None;
     max_pos_err := None;
     insert_err := Some "SQLITE_IOERR: disk I/O error";
     CURRENT_TIMESTAMP := now |}.

(** The same as [quiet], but the signer fails totally. *)
Definition signer_dead (id : string) (now : Z) : Env :=
  {| uuidv4 := id;
     toISOString := "2024-05-01T10:00:00.000Z";
     getPreciseTimestamp := inl "2024-05-01T10:00:00.000Z";
     signer := dead_signer;
     logEvent_err := None;
     max_pos_err := None;
     insert_err := None;
     CURRENT_TIMESTAMP := now |}.

Definition frame : ImageData :=
  {| filepath := "captures/capture_1.jpg";
     base64Data := "data:image/jpeg;base64,/9j/4AAQ" |}.

Definition trigger (e e' : Env) : Call :=
  {| env := e; env' := e';
     eventType := "motion_detection";
     triggerData := manual_trigger;
     imageData := frame |}.

Definition call_A : Call := trigger (quiet "id-a" 100) (quiet "id-a2" 100).
Definition call_B : Call := trigger (quiet "id-b" 200) (quiet "id-b2" 200).
Definition call_C : Call := trigger (quiet "id-c" 300) (quiet "id-c2" 300).

(** A trigger during which the chain table refuses both INSERTs. *)
Definition call_B_chain_down : Call :=
  trigger (chain_insert_fails "id-b" 200) (chain_insert_fails "id-b2" 201).

(** A trigger during which the chain table refuses the first INSERT only. *)
Definition call_B_chain_hiccup : Call :=
  trigger (chain_insert_fails "id-b" 200) (quiet "id-b2" 200).

(** A trigger during which the signer fails totally. *)
Definition call_B_signer_dead : Call :=
  trigger (signer_dead "id-b" 200) (quiet "id-b2" 200).

(** The engine on [example_runtime] after two triggers without failure. *)
Definition after_A_B : ProvenanceTracker :=
  @serve example_runtime [call_A; call_B]
         (@startup example_runtime None empty_database absent_chip).

Definition after_A : ProvenanceTracker :=
  @serve example_runtime [call_A]
         (@startup example_runtime None empty_database absent_chip).

(** The engine after a trigger without failure and one during which the
    signer failed totally. *)
Definition after_signer_dead : ProvenanceTracker :=
  @serve example_runtime [call_A; call_B_signer_dead]
         (@startup example_runtime None empty_database absent_chip).

(** The store after a trigger without failure and one during which the
    chain table refused both INSERTs. *)
Definition after_chain_down `{Runtime} (device : ATECC608) : ProvenanceTracker :=
  serve [call_A; call_B_chain_down] (startup None empty_database device).

(* ================================================================== *)
(** * Creations in flight *)
(* ================================================================== *)

(** An [async] function runs up to an [await] and gives the thread back;
    the rest of its body runs once the awaited promise has settled, and
    other calls may have run on the same object meanwhile. [Suspended k]
    is a call that waits at an [await] (or has not started): [k] runs it up
    to its next [await], or to its end. *)
Inductive Async (S A : Type) : Type :=
| Settled (o : Outcome A)
| Suspended (resume : S -> S * Async S A).

Arguments Settled {S A} o.
Arguments Suspended {S A} resume.

(** A stretch of an [async] function that runs without giving the thread
    back. *)
Definition Stretch (S A : Type) : Type := S -> S * Async S A.

Definition settled {S A : Type} (o : Outcome A) : Stretch S A := fun s => (s, Settled o).

(** [x = await m; rest] inside [try { ... } catch (error) { handler }]: the
    call [m] is made and the function waits. What [m] does to [S] is placed
    at the call (the store has it done by the time the function goes on).
    Once resumed, the function goes on with [rest] if the promise resolved
    and with [handler] if it rejected. *)
Definition await_in_try {S A B : Type} (m : M S A)
    (rest : A -> Stretch S B) (handler : Error -> Stretch S B) : Stretch S B :=
  fun s =>
    match m s with
    | (s', o) =>
        (s', Suspended (fun s'' =>
                          match o with
                          | Resolved a => rest a s''
                          | Rejected e => handler e s''
                          | Uncaught e => (s'', Settled (Uncaught e))
                          end))
    end.

(** The call goes on each time as soon as it waits: nothing runs in between. *)
Fixpoint settle {S A : Type} (t : Async S A) (s : S) : S * Outcome A :=
  match t with
  | Settled o => (s, o)
  | Suspended resume => let (s', t') := resume s in settle t' s'
  end.

Definition uninterrupted {S A : Type} (body : Stretch S A) : M S A :=
  fun s => let (s', t) := body s in settle t s'.

(** The event loop gives the thread to the [i]-th of the calls in flight. *)
Fixpoint resume_call {S A : Type} (i : nat) (calls : list (Async S A)) (s : S)
  : S * list (Async S A) :=
  match calls, i with
  | [], _ => (s, [])
  | Settled o :: others, O => (s, Settled o :: others)
  | Suspended resume :: others, O => let (s', t) := resume s in (s', t :: others)
  | t :: others, S i' => let (s', others') := resume_call i' others s in (s', t :: others')
  end.

(** The calls in flight on one object, resumed in the order of [schedule]. *)
Fixpoint event_loop {S A : Type} (schedule : list nat) (calls : list (Async S A)) (s : S)
  : S * list (Async S A) :=
  match schedule with
  | [] => (s, calls)
  | i :: later => let (s', calls') := resume_call i calls s in event_loop later calls' s'
  end.

(** The two creation functions with their [await]s as the points where
    other calls may run. The [catch] block of [createProvenanceRecord]
    returns what [createUnsignedRecord] settles with; the turn of the loop
    between the two touches nothing and is left out. *)
Module InFlight.

Definition createUnsignedRecord `{Runtime} (env : Env)
    (eventType : string) (triggerData : JSON) (imageData : ImageData)
  : Stretch ProvenanceTracker ProvenanceRecord.t :=
  let catch := fun error : Error => settled (Rejected error) in
  let eventId := uuidv4 env in
  let timestamp := toISOString env in
  await_in_try (call (getPreciseTimestamp env))
    (fun rtcTimestamp this =>
       let imageHash := calculateImageHash imageData in
       let eventData :=
         {| EventData.eventId := eventId;
            EventData.timestamp := timestamp;
            EventData.rtcTimestamp := Some rtcTimestamp;
            EventData.eventType := eventType;
            EventData.triggerData := triggerData;
            EventData.imageHash := Some imageHash;
            EventData.previousHash := lastHash this |} in
       let currentHash := calculateEventHash eventData None in
       let dbRecord :=
         {| DbRecord.eventId := eventId;
            DbRecord.timestamp := timestamp;
            DbRecord.rtcTimestamp := rtcTimestamp;
            DbRecord.eventType := eventType;
            DbRecord.triggerData := triggerData;
            DbRecord.imagePath := filepath imageData;
            DbRecord.imageHash := imageHash;
            DbRecord.signature := None;
            DbRecord.signatureInfo := unsigned_signatureInfo;
            DbRecord.verificationStatus := false |} in
       await_in_try (this_db (logEvent (logEvent_err env) (CURRENT_TIMESTAMP env) dbRecord))
         (fun _ this =>
            await_in_try (this_db (addToProvenanceChain (max_pos_err env) (insert_err env)
                                                        eventId (lastHash this) currentHash))
              (fun _ this =>
                 ({| db := db this; crypto := crypto this; lastHash := Some currentHash |},
                  Settled (Resolved {| ProvenanceRecord.eventId := eventId;
                                       ProvenanceRecord.currentHash := currentHash;
                                       ProvenanceRecord.signed := false;
                                       ProvenanceRecord.dbRecord := dbRecord |})))
              catch this)
         catch this)
    catch.

Definition createProvenanceRecord `{Runtime} (env env' : Env)
    (eventType : string) (triggerData : JSON) (imageData : ImageData)
  : Stretch ProvenanceTracker ProvenanceRecord.t :=
  let catch := fun error : Error =>
                 createUnsignedRecord env' eventType triggerData imageData in
  let eventId := uuidv4 env in
  let timestamp := toISOString env in
  await_in_try (call (getPreciseTimestamp env))
    (fun rtcTimestamp this =>
       let imageHash := calculateImageHash imageData in
       let eventData :=
         {| EventData.eventId := eventId;
            EventData.timestamp := timestamp;
            EventData.rtcTimestamp := Some rtcTimestamp;
            EventData.eventType := eventType;
            EventData.triggerData := triggerData;
            EventData.imageHash := Some imageHash;
            EventData.previousHash := lastHash this |} in
       let dataToSign := JSON_stringify (JObject (EventData_members eventData)) in
       await_in_try (await (signData (crypto this) (signer env) dataToSign))
         (fun signatureInfo this =>
            let currentHash :=
              calculateEventHash eventData (Some (si_signature signatureInfo)) in
            let dbRecord :=
              {| DbRecord.eventId := eventId;
                 DbRecord.timestamp := timestamp;
                 DbRecord.rtcTimestamp := rtcTimestamp;
                 DbRecord.eventType := eventType;
                 DbRecord.triggerData := triggerData;
                 DbRecord.imagePath := filepath imageData;
                 DbRecord.imageHash := imageHash;
                 DbRecord.signature := Some (si_signature signatureInfo);
                 DbRecord.signatureInfo := SignatureInfo_object signatureInfo;
                 DbRecord.verificationStatus := true |} in
            await_in_try
              (this_db (logEvent (logEvent_err env) (CURRENT_TIMESTAMP env) dbRecord))
              (fun _ this =>
                 await_in_try
                   (this_db (addToProvenanceChain (max_pos_err env) (insert_err env)
                                                  eventId (lastHash this) currentHash))
                   (fun _ this =>
                      ({| db := db this; crypto := crypto this;
                          lastHash := Some currentHash |},
                       Settled (Resolved {| ProvenanceRecord.eventId := eventId;
                                            ProvenanceRecord.currentHash := currentHash;
                                            ProvenanceRecord.signed := true;
                                            ProvenanceRecord.dbRecord := dbRecord |})))
                   catch this)
              catch this)
         catch this)
    catch.

(** A trigger that the server has received and not begun to serve. *)
Definition create `{Runtime} (c : Call) : Async ProvenanceTracker ProvenanceRecord.t :=
  Suspended (createProvenanceRecord (env c) (env' c) (eventType c) (triggerData c)
                                    (imageData c)).

End InFlight.

(** Two triggers whose calls overlap: the second arrives while the first
    waits for its INSERT into the chain table, and has read the cursor and
    called the signer by the time the first goes on. *)
Definition second_reads_before_first_advances : list nat :=
  [0; 0; 0; 0; 1; 1; 0; 1; 1; 1]%nat.

(** The same calls, the second served once the first has returned. *)
Definition one_after_the_other : list nat :=
  [0; 0; 0; 0; 0; 1; 1; 1; 1; 1]%nat.

(* ================================================================== *)
(** * The rest of the store and of the engine *)
(* ================================================================== *)

(** The object [getStatistics] resolves with. *)
Record Statistics : Type := {
  total_events : nat;
  signed_events : nat;
  verified_events : nat
}.

(** [SELECT COUNT( * ) FROM events WHERE ...] *)
Definition count_events (where_ : EventRow.t -> bool) (d : ProvenanceDatabase) : nat :=
  length (filter where_ (events d)).

Definition signature_IS_NOT_NULL (e : EventRow.t) : bool :=
  match EventRow.signature e with
  | Some _ => true
  | None => false
  end.

Definition verification_status_is_1 (e : EventRow.t) : bool :=
  Z.eqb (EventRow.verification_status e) 1.

(** [getStatistics()]. The three COUNT queries are issued together; [err1],
    [err2], [err3] are their I/O errors, if any. A failing query rejects
    the promise, after which [completed] can no longer reach 3; the
    callbacks are taken to run in the order of the queries. (The three
    SELECTs are not entered in [statements].) *)
Definition getStatistics (err1 err2 err3 : option Error) : M ProvenanceDatabase Statistics :=
  fun d =>
    match err1, err2, err3 with
    | Some e, _, _ => (d, Rejected e)
    | None, Some e, _ => (d, Rejected e)
    | None, None, Some e => (d, Rejected e)
    | None, None, None =>
        (d, Resolved {| total_events := count_events (fun _ => true) d;
                        signed_events := count_events signature_IS_NOT_NULL d;
                        verified_events := count_events verification_status_is_1 d |})
    end.

(** The object [getProvenanceChainStatus] returns: the report, or
    [{chainValid: false, error}]. *)
Inductive ChainReport : Type :=
| Report (chainValid : bool) (totalEvents signedEvents verifiedEvents : nat)
         (signatureRate : JSON) (issues : list Issue)
| NoReport (chainValid : bool) (error : string).

(** What the environment decides during [getProvenanceChainStatus]: the I/O
    errors of its four reads. *)
Record StatusIO : Type := {
  chain_err : option Error;
  total_err : option Error;
  signed_err : option Error;
  verified_err : option Error
}.

(** [getProvenanceChainStatus()]. [toFixed1 signed total] stands for
    [(signed / total * 100).toFixed(1)], a rounding of floating-point
    numbers that is left to the platform. *)
Definition getProvenanceChainStatus (toFixed1 : nat -> nat -> string) (io : StatusIO)
  : M ProvenanceTracker ChainReport :=
  try_catch
    (chainStatus <- this_db (verifyProvenanceChain (chain_err io)) ;;
     stats <- this_db (getStatistics (total_err io) (signed_err io) (verified_err io)) ;;
     ret (Report (isValid chainStatus)
                 (total_events stats)
                 (signed_events stats)
                 (verified_events stats)
                 (if Nat.ltb 0 (total_events stats)
                  then JString (toFixed1 (signed_events stats) (total_events stats))
                  else JNumber "0")
                 (issues chainStatus)))%js
    (fun error => ret (NoReport false error)).

(** A row as the two creation functions write it: it has a signature
    exactly when its [verification_status] is 1. *)
Definition written_row (row : EventRow.t) : Prop :=
  (signature_IS_NOT_NULL row = verification_status_is_1 row).

(** The orphans: event rows of which no link carries the id. *)
Definition has_link (ps : list ChainRow.t) (e : EventRow.t) : bool :=
  existsb (fun p => String.eqb (EventRow.event_id e) (ChainRow.event_id p)) ps.

Definition orphans (d : ProvenanceDatabase) : list EventRow.t :=
  filter (fun e => negb (has_link (provenance_chain d) e)) (events d).

(** What one call of [createProvenanceRecord] can have done: one row
    written and linked in the [try] block; or, the [try] block having
    written at most an orphan, whatever [createUnsignedRecord] did. *)
Definition pass_without_link (this mid : ProvenanceTracker) : Prop :=
  untouched this mid \/ exists row, written_row row /\ orphaned row this mid.

Definition pass_with_link (this this' : ProvenanceTracker) : Prop :=
  exists row h, written_row row /\ appended row h this this'.

Definition creation_shape (this final : ProvenanceTracker) : Prop :=
  pass_with_link this final \/
  exists mid,
    pass_without_link this mid /\
    (pass_without_link mid final \/ pass_with_link mid final).

(** What every creation keeps true of the tables and of the cursor,
    whatever fails. *)
Definition chain_intact (this : ProvenanceTracker) : Prop :=
  linked None 1 (provenance_chain (db this)) /\
  lastHash this = last_hash (provenance_chain (db this)) /\
  (forall p, In p (provenance_chain (db this)) ->
             has_event_id (ChainRow.event_id p) (events (db this)) = true) /\
  NoDup (map EventRow.event_id (events (db this))) /\
  NoDup (map ChainRow.event_id (provenance_chain (db this))) /\
  Forall written_row (events (db this)).

(** [created_at] of the event row behind an event that [getEvents] returns. *)
Definition created_at_of (ev : Event.t) : Z :=
  EventRow.created_at (JoinedRow.e (Event.row ev)).

(** An earlier entry of a listing is at least as new as a later one. *)
Definition newest_first (evs : list Event.t) : Prop :=
  StronglySorted (fun a b => (created_at_of b <= created_at_of a)%Z) evs.

(** The row [getEvents] hands to [rows.map]: its query selects no
    [previous_hash]. *)
Definition without_previous_hash (r : JoinedRow.t) : JoinedRow.t :=
  {| JoinedRow.e := JoinedRow.e r;
     JoinedRow.current_hash := JoinedRow.current_hash r;
     JoinedRow.previous_hash := None;
     JoinedRow.chain_position := JoinedRow.chain_position r |}.

(** The record [createProvenanceRecord] hands to [logEvent] for a manual
    trigger signed by the software path. *)
Definition manual_record : DbRecord.t :=
  {| DbRecord.eventId := "id-a";
     DbRecord.timestamp := "2024-05-01T10:00:00.000Z";
     DbRecord.rtcTimestamp := "2024-05-01T10:00:00.000Z";
     DbRecord.eventType := "motion_detection";
     DbRecord.triggerData := manual_trigger;
     DbRecord.imagePath := "captures/capture_1.jpg";
     DbRecord.imageHash := "sha256(data:image/jpeg;base64,/9j/4AAQ)";
     DbRecord.signature := Some "3046022100";
     DbRecord.signatureInfo := fallback_signature;
     DbRecord.verificationStatus := true |}.

(** [toFixed(1)] of a percentage, on the two rates of the example run. *)
Definition example_toFixed1 (signed total : nat) : string :=
  if Nat.eqb signed total then "100.0" else "33.3".

Definition all_reads_succeed : StatusIO :=
  {| chain_err := None; total_err := None; signed_err := None; verified_err := None |}.

(** The tracker over a database file that was edited behind its back. *)
Definition on_database (f : ProvenanceDatabase -> ProvenanceDatabase)
    (this : ProvenanceTracker) : ProvenanceTracker :=
  {| db := f (db this); crypto := crypto this; lastHash := lastHash this |}.

(** The edits of a text column that [verifyEvent] puts into [originalData]
    and that is not the key of the lookup. *)
Definition edits_signed_text (ed : EventEdit) : bool :=
  match ed with
  | SET_timestamp _ | SET_rtc_timestamp _ | SET_event_type _ | SET_image_hash _ => true
  | _ => false
  end.

Definition newer_row (a b : JoinedRow.t) : Prop :=
  (EventRow.created_at (JoinedRow.e b) <= EventRow.created_at (JoinedRow.e a))%Z.

(** Two joined rows that differ at most in signed text columns. *)
Definition same_but_signed_text (r r' : JoinedRow.t) : Prop :=
  EventRow.event_id (JoinedRow.e r') = EventRow.event_id (JoinedRow.e r) /\
  EventRow.trigger_data (JoinedRow.e r') = EventRow.trigger_data (JoinedRow.e r) /\
  EventRow.signature (JoinedRow.e r') = EventRow.signature (JoinedRow.e r) /\
  EventRow.signature_info (JoinedRow.e r') = EventRow.signature_info (JoinedRow.e r).

(* ================================================================== *)
(** * Integers under JavaScript's bitwise operators *)
(* ================================================================== *)

(** [ToInt32]: what a bitwise operator makes of an integer operand. *)
Definition ToInt32 (x : Z) : Z := ((x + 2147483648) mod 4294967296 - 2147483648)%Z.

(** [a & b], [a | b], [a ^ b], [a << n], [a >> n] *)
Definition bit_and (a b : Z) : Z := Z.land (ToInt32 a) (ToInt32 b).
Definition bit_or (a b : Z) : Z := Z.lor (ToInt32 a) (ToInt32 b).
Definition bit_xor (a b : Z) : Z := Z.lxor (ToInt32 a) (ToInt32 b).
Definition shift_left (a n : Z) : Z := ToInt32 (Z.shiftl (ToInt32 a) (n mod 32)).
Definition shift_right (a n : Z) : Z := Z.shiftr (ToInt32 a) (n mod 32).

(** A number used as a condition. *)
Definition nonzero (x : Z) : bool := negb (x =? 0)%Z.

(* ================================================================== *)
(** * The I2C bus (i2c-bus, promisified) *)
(* ================================================================== *)

(** The registers behind each device address as [readByte] and [writeByte]
    see them, and the fate of each transfer: the [n]-th transfer on the bus
    throws when [faults n] is an error. *)
Record I2CBus : Type := {
  registers : Z -> Z -> Z;
  transfers : nat;
  faults : nat -> option Error
}.

Definition is_byte (byte : Z) : bool := ((0 <=? byte) && (byte <=? 255))%Z.

(** [bus.readByte(address, cmd)] *)
Definition readByte (address cmd : Z) : M I2CBus Z :=
  fun bus =>
    let bus' := {| registers := registers bus;
                   transfers := S (transfers bus);
                   faults := faults bus |} in
    match faults bus (transfers bus) with
    | Some e => (bus', Rejected e)
    | None => (bus', Resolved (registers bus address cmd))
    end.

(** [bus.writeByte(address, cmd, byte)]; i2c-bus refuses a value that is
    not a byte before it touches the wire. *)
Definition writeByte (address cmd byte : Z) : M I2CBus unit :=
  fun bus =>
    if negb (is_byte byte) then (bus, Rejected "Error: Invalid byte")
    else
      match faults bus (transfers bus) with
      | Some e => ({| registers := registers bus;
                      transfers := S (transfers bus);
                      faults := faults bus |}, Rejected e)
      | None =>
          ({| registers := fun a r => if ((a =? address) && (r =? cmd))%Z
                                      then byte else registers bus a r;
              transfers := S (transfers bus);
              faults := faults bus |}, Resolved tt)
      end.

(* ================================================================== *)
(** * The real-time clock (class DS3231) *)
(* ================================================================== *)

Module DS3231.

Record t : Type := {
  address : Z;
  bus : option I2CBus;
  initialized : bool
}.

(** [new DS3231()] *)
Definition new_DS3231 : t := {| address := 104; bus := None; initialized := false |}.

(** [await this.bus.method(...)]; [this.bus] is [null] until a bus was
    opened. *)
Definition this_bus {A : Type} (method : string) (m : M I2CBus A) : M t A :=
  fun this =>
    match bus this with
    | None => (this, Rejected ("TypeError: Cannot read properties of null (reading '"
                               ++ method ++ "')"))
    | Some b =>
        match m b with
        | (b', o) => ({| address := address this; bus := Some b';
                         initialized := initialized this |}, o)
        end
    end.

Definition set_initialized (v : bool) : M t unit :=
  modify (fun this => {| address := address this; bus := bus this; initialized := v |}).

Definition set_bus (b : I2CBus) : M t unit :=
  modify (fun this => {| address := address this; bus := Some b;
                         initialized := initialized this |}).

(** [initialize()]. [i2c] is what requiring and opening the bus gave:
    [None] when the module i2c-bus is missing, otherwise the bus that
    [openPromisified] resolved with or the error it threw. *)
Definition initialize (i2c : option (I2CBus + Error)) : M t unit :=
  try_catch
    (match i2c with
     | None => set_initialized false
     | Some opened =>
         b <- call opened ;;
         set_bus b ;;;
         a <- gets address ;;
         this_bus "readByte" (readByte a 0) ;;;
         status <- this_bus "readByte" (readByte a 15) ;;
         (if nonzero (bit_and status 128)
          then this_bus "writeByte" (writeByte a 15 (bit_and status 127))
          else ret tt) ;;;
         set_initialized true
     end)%js
    (fun error => set_initialized false).

Definition bcdToDec (bcd : Z) : Z := (shift_right bcd 4 * 10 + bit_and bcd 15)%Z.

(** [Math.floor(dec / 10)] is the floored quotient and [dec % 10] the
    remainder that has the sign of [dec]. *)
Definition decToBcd (dec : Z) : Z := bit_or (shift_left (dec / 10) 4) (Z.rem dec 10).

(** The two ways the driver makes a [Date]. *)
Inductive Date : Type :=
| new_Date (now : Z)
| new_Date_local (year monthIndex day hours minutes seconds : Z).

(** [data[i] = await this.bus.readByte(this.address, i)] for [i] from
    [first] on, [count] times; a [Buffer] keeps the low eight bits of what
    is stored in it. *)
Fixpoint read_registers (first : Z) (count : nat) : M t (list Z) :=
  match count with
  | O => ret []
  | S count' =>
      (a <- gets address ;;
       byte <- this_bus "readByte" (readByte a first) ;;
       rest <- read_registers (first + 1) count' ;;
       ret ((byte mod 256)%Z :: rest))%js
  end.

(** [readTime()]; [now] is what the system clock shows, in milliseconds,
    when [new Date()] is evaluated. *)
Definition readTime (now : Z) : M t Date :=
  fun this =>
    if negb (initialized this) then (this, Resolved (new_Date now))
    else
      try_catch
        (data <- read_registers 0 7 ;;
         let byte i := nth i data 0%Z in
         let seconds := bcdToDec (bit_and (byte 0%nat) 127) in
         let minutes := bcdToDec (bit_and (byte 1%nat) 127) in
         let hours := bcdToDec (bit_and (byte 2%nat) 63) in
         let day := bcdToDec (bit_and (byte 4%nat) 63) in
         let month := bcdToDec (bit_and (byte 5%nat) 31) in
         let year := (bcdToDec (byte 6%nat) + 2000)%Z in
         ret (new_Date_local year (month - 1) day hours minutes seconds))%js
        (fun error => ret (new_Date now))
        this.

(** What the getters of the [Date] handed to [setTime] return. *)
Record DateFields : Type := {
  getSeconds : Z;
  getMinutes : Z;
  getHours : Z;
  getDay : Z;
  getDate : Z;
  getMonth : Z;
  getFullYear : Z
}.

Definition setTime (date : DateFields) : M t unit :=
  fun this =>
    if negb (initialized this) then (this, Resolved tt)
    else
      try_catch
        (let seconds := decToBcd (getSeconds date) in
         let minutes := decToBcd (getMinutes date) in
         let hours := decToBcd (getHours date) in
         let dayOfWeek := decToBcd (getDay date + 1) in
         let day := decToBcd (getDate date) in
         let month := decToBcd (getMonth date + 1) in
         let year := decToBcd (getFullYear date - 2000) in
         a <- gets address ;;
         this_bus "writeByte" (writeByte a 0 seconds) ;;;
         this_bus "writeByte" (writeByte a 1 minutes) ;;;
         this_bus "writeByte" (writeByte a 2 hours) ;;;
         this_bus "writeByte" (writeByte a 3 dayOfWeek) ;;;
         this_bus "writeByte" (writeByte a 4 day) ;;;
         this_bus "writeByte" (writeByte a 5 month) ;;;
         this_bus "writeByte" (writeByte a 6 year))%js
        (fun error => ret tt)
        this.

Definition getTemperature : M t Q :=
  fun this =>
    if negb (initialized this) then (this, Resolved 25%Q)
    else
      try_catch
        (a <- gets address ;;
         msb <- this_bus "readByte" (readByte a 17) ;;
         lsb <- this_bus "readByte" (readByte a 18) ;;
         let temperature := inject_Z msb in
         let temperature :=
           if nonzero (bit_and lsb 128) then (temperature + (1 # 2))%Q else temperature in
         let temperature :=
           if nonzero (bit_and lsb 64) then (temperature + (1 # 4))%Q else temperature in
         let temperature :=
           if nonzero (bit_and msb 128) then (temperature - 256)%Q else temperature in
         ret temperature)%js
        (fun error => ret 25%Q)
        this.

(** The methods of [Date] that [getPreciseTimestamp] calls. *)
Record DateMethods : Type := {
  toISOString : Date -> string;
  getTime : Date -> Z
}.

Record PreciseTimestamp : Type := {
  timestamp : Date;
  iso : string;
  unix : Z;
  temperature : Q;
  source : string;
  precision : string
}.

Definition getPreciseTimestamp (methods : DateMethods) (now : Z) : M t PreciseTimestamp :=
  (rtcTime <- readTime now ;;
   temperature <- getTemperature ;;
   ready <- gets initialized ;;
   ret {| timestamp := rtcTime;
          iso := toISOString methods rtcTime;
          unix := (getTime methods rtcTime / 1000)%Z;
          temperature := temperature;
          source := if ready then "DS3231" else "SYSTEM";
          precision := if ready then "RTC" else "SYSTEM" |})%js.

End DS3231.

(** The range of each getter of a [Date] whose year the clock can hold. *)
Definition calendar_fields (date : DS3231.DateFields) : Prop :=
  (0 <= DS3231.getSeconds date <= 59 /\
   0 <= DS3231.getMinutes date <= 59 /\
   0 <= DS3231.getHours date <= 23 /\
   0 <= DS3231.getDay date <= 6 /\
   1 <= DS3231.getDate date <= 31 /\
   0 <= DS3231.getMonth date <= 11 /\
   2000 <= DS3231.getFullYear date <= 2159)%Z.

(** No transfer fails among the next [count] ones. *)
Definition quiet_bus (count : nat) (b : I2CBus) : Prop :=
  forall n, (transfers b <= n < transfers b + count)%nat -> faults b n = None.

(** A byte whose two nibbles are decimal digits. *)
Definition is_bcd (byte : Z) : bool := ((0 <=? byte) && (byte / 16 <=? 9) && (byte mod 16 <=? 9))%Z.

(** The integers [lo], [lo + 1], ..., [lo + count - 1]. *)
Fixpoint Z_range (lo : Z) (count : nat) : list Z :=
  match count with
  | O => []
  | S count' => lo :: Z_range (lo + 1) count'
  end.

(** The number that [bits] binary digits denote in two's complement. *)
Definition twos_complement (bits : Z) (v : Z) : Z :=
  (if v <? 2 ^ (bits - 1) then v else v - 2 ^ bits)%Z.

(** No transfer on the bus of the clock succeeds. *)
Definition dead_bus (this : DS3231.t) : Prop :=
  match DS3231.bus this with
  | None => True
  | Some b => forall n, faults b n <> None
  end.

(** A bus on which no transfer fails; the clock shows -24.25 degrees and
    has its oscillator-stop flag set. *)
Definition example_bus : I2CBus :=
  {| registers := fun a r => if (r =? 17)%Z then 231%Z
                             else if (r =? 18)%Z then 192%Z
                             else if (r =? 15)%Z then 136%Z else 0%Z;
     transfers := 0;
     faults := fun n => None |}.

(** A clock on that bus, and a date to set it to. *)
Definition example_clock : DS3231.t :=
  {| DS3231.address := 104; DS3231.bus := Some example_bus; DS3231.initialized := true |}.

Definition example_date : DS3231.DateFields :=
  {| DS3231.getSeconds := 59; DS3231.getMinutes := 7; DS3231.getHours := 23;
     DS3231.getDay := 3; DS3231.getDate := 1; DS3231.getMonth := 4;
     DS3231.getFullYear := 2024 |}.

(** The same day and time in the year 2160. *)
Definition distant_date : DS3231.DateFields :=
  {| DS3231.getSeconds := 59; DS3231.getMinutes := 7; DS3231.getHours := 23;
     DS3231.getDay := 3; DS3231.getDate := 1; DS3231.getMonth := 4;
     DS3231.getFullYear := 2160 |}.

(** A clock whose chip answered at start-up and does not answer any more. *)
Definition unplugged_clock : DS3231.t :=
  {| DS3231.address := 104;
     DS3231.bus := Some {| registers := fun a r => 0%Z;
                           transfers := 3;
                           faults := fun n => Some "Error: EREMOTEIO, Remote I/O error" |};
     DS3231.initialized := true |}.

Definition example_date_methods : DS3231.DateMethods :=
  {| DS3231.toISOString := fun d => match d with
                                    | DS3231.new_Date _ => "2024-05-01T23:07:59.000Z"
                                    | DS3231.new_Date_local _ _ _ _ _ _ =>
                                        "2024-05-01T21:07:59.000Z"
                                    end;
     DS3231.getTime := fun d => match d with
                                | DS3231.new_Date now => now
                                | DS3231.new_Date_local _ _ _ _ _ _ => 1714597679000%Z
                                end |}.

(* ================================================================== *)
(** * The accelerometer (class LIS3DH) *)
(* ================================================================== *)

Module LIS3DH.

Record Acceleration : Type := { x : Q; y : Q; z : Q }.

(** [emitted] is the log of the 'motion' events the emitter has sent to
    its listeners, oldest first. *)
Record t : Type := {
  address : Z;
  bus : option I2CBus;
  emitted : list Acceleration
}.

Definition this_bus {A : Type} (method : string) (m : M I2CBus A) : M t A :=
  fun this =>
    match bus this with
    | None => (this, Rejected ("TypeError: Cannot read properties of null (reading '"
                               ++ method ++ "')"))
    | Some b =>
        match m b with
        | (b', o) => ({| address := address this; bus := Some b'; emitted := emitted this |}, o)
        end
    end.

(** [this.emit('motion', acceleration)] *)
Definition emit_motion (acceleration : Acceleration) : M t unit :=
  modify (fun this => {| address := address this; bus := bus this;
                         emitted := emitted this ++ [acceleration] |}).

Definition convertToG (rawValue : Z) : Q :=
  let signed := if (32767 <? rawValue)%Z then (rawValue - 65536)%Z else rawValue in
  (inject_Z signed / 16384)%Q.

Definition readAcceleration : M t Acceleration :=
  try_catch
    (a <- gets address ;;
     xLow <- this_bus "readByte" (readByte a 40) ;;
     xHigh <- this_bus "readByte" (readByte a 41) ;;
     yLow <- this_bus "readByte" (readByte a 42) ;;
     yHigh <- this_bus "readByte" (readByte a 43) ;;
     zLow <- this_bus "readByte" (readByte a 44) ;;
     zHigh <- this_bus "readByte" (readByte a 45) ;;
     let x := convertToG (bit_or (shift_left xHigh 8) xLow) in
     let y := convertToG (bit_or (shift_left yHigh 8) yLow) in
     let z := convertToG (bit_or (shift_left zHigh 8) zLow) in
     ret {| x := x; y := y; z := z |})%js
    (fun error => ret {| x := 0; y := 0; z := 0 |}).

Definition checkInterrupt : M t bool :=
  try_catch
    (a <- gets address ;;
     intSrc <- this_bus "readByte" (readByte a 49) ;;
     ret (negb (bit_and intSrc 64 =? 0)%Z))%js
    (fun error => ret false).

(** One run of the callback that [startPolling] hands to [setInterval]. *)
Definition poll : M t unit :=
  (interrupt <- checkInterrupt ;;
   if interrupt
   then
     acceleration <- readAcceleration ;;
     emit_motion acceleration ;;;
     a <- gets address ;;
     this_bus "readByte" (readByte a 49) ;;;
     ret tt
   else ret tt)%js.

End LIS3DH.

(** An accelerometer lying flat: 1 g on the z axis, a little less than
    nothing on the x axis, and a pending interrupt. *)
Definition example_accelerometer : LIS3DH.t :=
  {| LIS3DH.address := 24;
     LIS3DH.bus := Some {| registers := fun a r => if (r =? 40)%Z then 192%Z
                                                   else if (r =? 41)%Z then 255%Z
                                                   else if (r =? 45)%Z then 64%Z
                                                   else if (r =? 49)%Z then 106%Z else 0%Z;
                           transfers := 0;
                           faults := fun n => None |};
     LIS3DH.emitted := [] |}.

(* ================================================================== *)
(** * The camera (class CameraCapture) *)
(* ================================================================== *)

(** [s.replace(/[:.]/g, '-')] *)
Fixpoint replace_colons_and_dots (s : string) : string :=
  match s with
  | EmptyString => EmptyString
  | String c rest =>
      String (if (Ascii.eqb c ":" || Ascii.eqb c ".")%bool then "-"%char else c)
             (replace_colons_and_dots rest)
  end.

(** [s.replace(pattern, replacement)] for a pattern that is a string: the
    first occurrence is replaced. The replacement holds no dollar sign. *)
Fixpoint replace_first (pattern replacement s : string) : string :=
  if String.prefix pattern s
  then replacement ++ String.substring (String.length pattern)
                                       (String.length s - String.length pattern) s
  else match s with
       | EmptyString => EmptyString
       | String c rest => String c (replace_first pattern replacement rest)
       end.

Module CameraCapture.

Record t : Type := {
  initialized : bool;
  mockMode : bool
}.

(** The object a capture resolves with; [mock] is absent ([false]) on a
    frame of the webcam. *)
Record FrameData : Type := {
  filepath : string;
  filename : string;
  base64Data : string;
  timestamp : Z;
  width : Z;
  height : Z;
  mock : bool
}.

(** What the clock, the webcam, the file system and Jimp do during one
    attempt: the text of [new Date().toISOString()], the location the
    webcam reports for a shot or its error, the base64 text of the file
    read back, the outcome of loading the font and of writing the mock
    image, the base64 text of its buffer, and [new Date()]. *)
Record CaptureIO : Type := {
  toISOString : string;
  webcam_capture : string -> string + Error;
  readFile_base64 : string -> string + Error;
  loadFont : option Error;
  writeAsync : string -> option Error;
  getBufferAsync_base64 : string + Error;
  now : Z
}.

Definition captureDir : string := "captures".

(** [path.join(this.captureDir, filename)] for a file name without
    separators. *)
Definition path_join (dir file : string) : string := dir ++ "/" ++ file.

Definition fails {S : Type} (e : option Error) : M S unit :=
  fun s => match e with
           | Some err => (s, Rejected err)
           | None => (s, Resolved tt)
           end.

Definition captureMockFrame (io : CaptureIO) : M t FrameData :=
  try_catch
    (let timestamp := replace_colons_and_dots (toISOString io) in
     let filename := "mock_frame_" ++ timestamp ++ ".jpg" in
     let filepath := path_join captureDir filename in
     fails (loadFont io) ;;;
     fails (writeAsync io filepath) ;;;
     base64 <- call (getBufferAsync_base64 io) ;;
     ret {| filepath := filepath;
            filename := filename;
            base64Data := "data:image/jpeg;base64," ++ base64;
            timestamp := now io;
            width := 640;
            height := 480;
            mock := true |})%js
    (fun error => throw error).

(** The promise that [captureFrame] builds around [this.webcam.capture]. *)
Definition webcam_promise (io : CaptureIO) (filepath filename : string) : Outcome FrameData :=
  match webcam_capture io filepath with
  | inr err => Rejected err
  | inl data =>
      match readFile_base64 io data with
      | inr err => Rejected err
      | inl base64 =>
          Resolved {| filepath := data;
                      filename := filename;
                      base64Data := "data:image/jpeg;base64," ++ base64;
                      timestamp := now io;
                      width := 640;
                      height := 480;
                      mock := false |}
      end
  end.

(** [captureFrame()]. The [try] block either awaits the mock frame or
    returns the promise of the webcam without awaiting it, so that the
    promise settles after the block has been left. [io] serves the [try]
    block and [io'] the [catch] block. *)
Definition captureFrame (io io' : CaptureIO) : M t FrameData :=
  fun this =>
    if negb (initialized this) then (this, Rejected "Error: Camera not initialized")
    else
      (returned <- try_catch
                     (if mockMode this
                      then frameData <- captureMockFrame io ;; ret (Resolved frameData)
                      else
                        let timestamp := replace_colons_and_dots (toISOString io) in
                        let filename := "frame_" ++ timestamp ++ ".jpg" in
                        let filepath := path_join captureDir filename in
                        ret (webcam_promise io filepath filename))
                     (fun error => frameData <- captureMockFrame io' ;; ret (Resolved frameData)) ;;
       await returned)%js this.

Definition captureAndSave (io io' : CaptureIO) : M t FrameData :=
  (frameData <- captureFrame io io' ;; ret frameData)%js.

End CameraCapture.

(** [recordFilename] of [captureSecureImage] in standalone.js. *)
Definition recordFilename (capture : CameraCapture.FrameData) : string :=
  "secure_" ++ replace_first ".jpg" ".json" (CameraCapture.filename capture).

(** The mock capture fails under [io]. *)
Definition mock_fails (io : CameraCapture.CaptureIO) : Prop :=
  CameraCapture.loadFont io <> None \/
  CameraCapture.writeAsync io
    (CameraCapture.path_join CameraCapture.captureDir
       ("mock_frame_" ++ replace_colons_and_dots (CameraCapture.toISOString io) ++ ".jpg"))
  <> None \/
  exists e, CameraCapture.getBufferAsync_base64 io = inr e.

(** A run during which the webcam is unplugged while Jimp works. *)
Definition webcam_unplugged : CameraCapture.CaptureIO :=
  {| CameraCapture.toISOString := "2024-05-01T10:00:00.000Z";
     CameraCapture.webcam_capture := fun path => inr "Error: no webcam found";
     CameraCapture.readFile_base64 := fun path => inl "/9j/4AAQ";
     CameraCapture.loadFont := None;
     CameraCapture.writeAsync := fun path => None;
     CameraCapture.getBufferAsync_base64 := inl "/9j/4AAQ";
     CameraCapture.now := 1714557600000 |}.

Definition webcam_works : CameraCapture.CaptureIO :=
  {| CameraCapture.toISOString := "2024-05-01T10:00:00.000Z";
     CameraCapture.webcam_capture := fun path => inl path;
     CameraCapture.readFile_base64 := fun path => inl "/9j/4AAQ";
     CameraCapture.loadFont := None;
     CameraCapture.writeAsync := fun path => None;
     CameraCapture.getBufferAsync_base64 := inl "/9j/4AAQ";
     CameraCapture.now := 1714557600000 |}.

Definition hardware_camera : CameraCapture.t :=
  {| CameraCapture.initialized := true; CameraCapture.mockMode := false |}.

(** No character of [s] is a dot. *)
Fixpoint no_dot (s : string) : bool :=
  match s with
  | EmptyString => true
  | String c rest => negb (Ascii.eqb c ".") && no_dot rest
  end.

(* ================================================================== *)
(** * The server (class SecureCameraSystem) *)
(* ================================================================== *)

Module SecureCameraSystem.

Inductive ReadyState : Type := CONNECTING | OPEN | CLOSING | CLOSED.

(** A WebSocket client with the messages handed to its [send], oldest
    first. *)
Record Client : Type := {
  readyState : ReadyState;
  sent : list string
}.

Record t : Type := {
  camera : CameraCapture.t;
  provenance : ProvenanceTracker;
  clients : list Client
}.

(** [await this.camera.method(...)] *)
Definition this_camera {A : Type} (m : M CameraCapture.t A) : M t A :=
  fun this =>
    match m (camera this) with
    | (device, o) => ({| camera := device; provenance := provenance this;
                         clients := clients this |}, o)
    end.

(** [await this.provenance.method(...)] *)
Definition this_provenance {A : Type} (m : M ProvenanceTracker A) : M t A :=
  fun this =>
    match m (provenance this) with
    | (tracker, o) => ({| camera := camera this; provenance := tracker;
                          clients := clients this |}, o)
    end.

(** What [createProvenanceRecord] reads of the frame it is given. *)
Definition imageData_of (frameData : CameraCapture.FrameData) : ImageData :=
  {| filepath := CameraCapture.filepath frameData;
     base64Data := CameraCapture.base64Data frameData |}.

(** [{eventId, currentHash, signed, ...dbRecord}]: the spread overwrites
    [eventId] in place and appends the other properties. *)
Definition ProvenanceRecord_members (record : ProvenanceRecord.t) : list (string * JSON) :=
  let dbRecord := ProvenanceRecord.dbRecord record in
  [("eventId", JString (DbRecord.eventId dbRecord));
   ("currentHash", JString (ProvenanceRecord.currentHash record));
   ("signed", JBool (ProvenanceRecord.signed record));
   ("timestamp", JString (DbRecord.timestamp dbRecord));
   ("rtcTimestamp", JString (DbRecord.rtcTimestamp dbRecord));
   ("eventType", JString (DbRecord.eventType dbRecord));
   ("triggerData", DbRecord.triggerData dbRecord);
   ("imagePath", JString (DbRecord.imagePath dbRecord));
   ("imageHash", JString (DbRecord.imageHash dbRecord));
   ("signature", js_string_or_null (DbRecord.signature dbRecord));
   ("signatureInfo", DbRecord.signatureInfo dbRecord);
   ("verificationStatus", JBool (DbRecord.verificationStatus dbRecord))].

Definition new_event_message (record : ProvenanceRecord.t) (imageData : ImageData) : string :=
  JSON_stringify
    (JObject [("type", JString "new_event");
              ("data", JObject (ProvenanceRecord_members record
                                  ++ [("imageData", JString (base64Data imageData))])%list)]).

(** [if (client.readyState === WebSocket.OPEN) client.send(message)] *)
Definition send_if_open (message : string) (client : Client) : Client :=
  match readyState client with
  | OPEN => {| readyState := OPEN; sent := (sent client ++ [message])%list |}
  | _ => client
  end.

(** [this.wss.clients.forEach(...)] *)
Definition broadcast (message : string) : M t unit :=
  modify (fun this => {| camera := camera this;
                         provenance := provenance this;
                         clients := map (send_if_open message) (clients this) |}).

(** [handleMotionDetection(motionData)]. [io] and [io'] serve the capture,
    [env] and [env'] serve [createProvenanceRecord]. *)
Definition handleMotionDetection `{Runtime} (io io' : CameraCapture.CaptureIO)
    (env env' : Env) (motionData : JSON) : M t (option ProvenanceRecord.t) :=
  try_catch
    (frameData <- this_camera (CameraCapture.captureAndSave io io') ;;
     let imageData := imageData_of frameData in
     record <- this_provenance
                 (createProvenanceRecord env env' "motion_detection" motionData imageData) ;;
     let message := new_event_message record imageData in
     broadcast message ;;;
     ret (Some record))%js
    (fun error => ret None).

End SecureCameraSystem.

(** The server of the example run after its first trigger, with a
    dashboard connected and a client that is closing. *)
Definition example_server : SecureCameraSystem.t :=
  {| SecureCameraSystem.camera := hardware_camera;
     SecureCameraSystem.provenance := after_A;
     SecureCameraSystem.clients :=
       [ {| SecureCameraSystem.readyState := SecureCameraSystem.OPEN;
            SecureCameraSystem.sent :=
              [JSON_stringify (JObject [("type", JString "status")])] |};
         {| SecureCameraSystem.readyState := SecureCameraSystem.CLOSING;
            SecureCameraSystem.sent := [] |} ] |}.

(* ================================================================== *)
(** * The checksum of the hardware-only signing device *)
(* ================================================================== *)

(** The inner loop of [calculateCRC]: [j] rounds of shifting. *)
Fixpoint crc_rounds (j : nat) (crc : Z) : Z :=
  match j with
  | O => crc
  | S j' =>
      crc_rounds j' (if nonzero (bit_and crc 1)
                     then bit_xor (shift_right crc 1) 32773
                     else shift_right crc 1)
  end.

(** The body of the outer loop: [crc ^= data[i]] and eight rounds. *)
Definition crc_byte (crc byte : Z) : Z := crc_rounds 8 (bit_xor crc byte).

(** [calculateCRC(data)] of the class ATECC608 that requires the chip. *)
Definition calculateCRC (data : list Z) : Z := fold_left crc_byte data 0%Z.

(** One round on a 16-bit value, and the value it came from. *)
Definition crc_round16 (crc : Z) : Z :=
  if Z.odd crc then Z.lxor (Z.shiftr crc 1) 32773 else Z.shiftr crc 1.

Definition crc_unround16 (crc : Z) : Z :=
  (if 32768 <=? crc then 2 * Z.lxor crc 32773 + 1 else 2 * crc)%Z.

Definition is_word16 (v : Z) : bool := ((0 <=? v) && (v <=? 65535))%Z.

(* ================================================================== *)
(** * Properties *)
(* ================================================================== *)

(** ** The loop of [verifyProvenanceChain] *)


Lemma check_link_in_step (prev cur : ChainRow.t) (acc : bool * list Issue) :
  in_step acc -> in_step (check_link prev cur acc).
Proof.
  unfold in_step, check_link; intros Hacc.
  destruct (strict_neq _ _); [|exact Hacc].
  cbn [fst snd]; split; [discriminate|].
  intros Happ; apply app_eq_nil in Happ; destruct Happ as [_ Hnil]; discriminate.
Qed.

Lemma walk_in_step (rest : list ChainRow.t) :
  forall prev acc, in_step acc -> in_step (walk prev rest acc).
Proof.
  induction rest as [|cur rest IH]; intros prev acc Hacc; cbn [walk].
  - exact Hacc.
  - apply IH, check_link_in_step, Hacc.
Qed.

Lemma check_rows_in_step (rows : list ChainRow.t) : in_step (check_rows rows).
Proof.
  destruct rows as [|first rest]; cbn [check_rows].
  - split; reflexivity.
  - apply walk_in_step; split; reflexivity.
Qed.

(** What the loop has found so far only grows. *)
Lemma walk_from (rest : list ChainRow.t) :
  forall prev acc,
    walk prev rest acc =
    (fst acc && fst (walk prev rest (true, [])),
     (snd acc ++ snd (walk prev rest (true, [])))%list).
Proof.
  induction rest as [|cur rest IH]; intros prev [b iss]; cbn [walk fst snd].
  - now rewrite andb_true_r, app_nil_r.
  - rewrite IH. rewrite (IH cur (check_link prev cur (true, []))).
    unfold check_link; destruct (strict_neq _ _); cbn [fst snd].
    + rewrite andb_false_r. cbn [andb app]. now rewrite <- app_assoc.
    + reflexivity.
Qed.

Lemma verifyProvenanceChain_run (err : option Error) (d : ProvenanceDatabase) :
  verifyProvenanceChain err d =
  ({| events := events d;
      provenance_chain := provenance_chain d;
      statements := (statements d ++ [SELECT_provenance_chain])%list |},
   match err with
   | Some e => Rejected e
   | None =>
       let rows := order_by_chain_position (provenance_chain d) in
       Resolved {| isValid := fst (check_rows rows);
                   totalEvents := length rows;
                   issues := snd (check_rows rows) |}
   end).
Proof. destruct err; reflexivity. Qed.

(** C3 (as amended). [verifyProvenanceChain] runs one statement, the SELECT
    over the chain table, and leaves both tables as they were; when it
    resolves, [isValid] is true exactly when [issues] is empty. The
    positions of the links are not examined. *)
Theorem verifyProvenanceChain_valid_iff_no_issue :
  forall (err : option Error) (d : ProvenanceDatabase),
    let d' := fst (verifyProvenanceChain err d) in
    events d' = events d /\
    provenance_chain d' = provenance_chain d /\
    statements d' = (statements d ++ [SELECT_provenance_chain])%list /\
    writes SELECT_provenance_chain = false /\
    (err = None -> exists status, snd (verifyProvenanceChain err d) = Resolved status) /\
    (forall status,
        snd (verifyProvenanceChain err d) = Resolved status ->
        (isValid status = true <-> issues status = [])).
Proof.
  intros err d; rewrite verifyProvenanceChain_run; cbn [fst snd events provenance_chain statements].
  split; [reflexivity|]. split; [reflexivity|]. split; [reflexivity|].
  split; [reflexivity|]. split.
  - intros ->; eexists; reflexivity.
  - intros status Hst. destruct err; [discriminate|].
    injection Hst as <-; cbn [isValid issues].
    apply check_rows_in_step.
Qed.


(** C3 (as stated) fails: on [gapped_database] the result is valid with no
    issue although the stored positions 1, 3 are not contiguous. *)
Lemma verifyProvenanceChain_ignores_positions :
  exists status,
    snd (verifyProvenanceChain None gapped_database) = Resolved status /\
    ~ (isValid status = true <->
       issues status = [] /\
       contiguous_from_1
         (map ChainRow.chain_position
              (order_by_chain_position (provenance_chain gapped_database)))).
Proof.
  eexists; split; [reflexivity|].
  cbn. intros [H _]. destruct (H eq_refl) as [_ Hc].
  unfold contiguous_from_1 in Hc. cbn in Hc. discriminate.
Qed.

(** ** Dispatch and outcome of [verifySignature] *)

(** C7 (as amended). The hardware routine is chosen exactly when the
    signature object is tagged hardware and the device is initialised. A
    software-tagged signature therefore never reaches the hardware routine,
    but a hardware-tagged one is handed to the software routine whenever the
    device is not initialised, and the call then resolves with that
    routine's answer: the mismatch is not rejected. *)
Theorem verifySignature_routine_by_tag_and_device :
  forall (c : ATECC608) (signatureInfo : JSON) (hardware : option JSON),
    get_property signatureInfo "hardware" = Resolved hardware ->
    (verifySignature_routine c signatureInfo = Resolved hardwareVerify_routine <->
     truthy hardware = true /\ initialized c = true) /\
    (truthy hardware = false ->
     verifySignature_routine c signatureInfo = Resolved softwareVerify_routine) /\
    (truthy hardware = true -> initialized c = false ->
     verifySignature_routine c signatureInfo = Resolved softwareVerify_routine /\
     forall (random : Q) (data : string),
       verifySignature c random data signatureInfo =
       Resolved (softwareVerify random data signatureInfo)).
Proof.
  intros c signatureInfo hardware Hget.
  unfold verifySignature, verifySignature_routine; rewrite Hget.
  destruct (truthy hardware), (initialized c); cbn [andb run_routine].
  - split; [split; [intros _; split; reflexivity | reflexivity]|].
    split; [discriminate|]. intros _ Hf; discriminate.
  - split; [split; [discriminate | intros [_ Hf]; discriminate]|].
    split; [discriminate|]. intros _ _; split; [reflexivity|]. intros; reflexivity.
  - split; [split; [discriminate | intros [Hf _]; discriminate]|].
    split; [reflexivity|]. intros Hf; discriminate.
  - split; [split; [discriminate | intros [Hf _]; discriminate]|].
    split; [reflexivity|]. intros Hf; discriminate.
Qed.

Lemma verifySignature_routine_by_tag_and_device_witness :
  get_property chip_signature "hardware" = Resolved (Some (JBool true)) /\
  verifySignature_routine absent_chip chip_signature = Resolved softwareVerify_routine.
Proof.
  split; [reflexivity|].
  apply (verifySignature_routine_by_tag_and_device
           absent_chip chip_signature (Some (JBool true)) eq_refl);
    reflexivity.
Defined.

(** C7 (as stated) fails: with no chip found at start-up, a hardware-tagged
    signature is checked by the software routine and accepted. *)
Lemma verifySignature_hardware_tag_checked_in_software :
  get_property chip_signature "hardware" = Resolved (Some (JBool true)) /\
  verifySignature_routine absent_chip chip_signature = Resolved softwareVerify_routine /\
  verifySignature absent_chip (1 # 2) "data" chip_signature = Resolved true.
Proof. repeat split. Qed.

(** C10. For a software-tagged signature, [verifySignature] can answer true
    and can answer false on the very same data and signature object,
    depending only on what [Math.random()] draws; for a given draw the
    answer is the same whatever the data and whatever software-tagged
    signature object are passed, namely whether the draw exceeds 0.1. *)
Theorem verifySignature_software_is_a_coin_toss :
  forall (c : ATECC608) (data : string) (signatureInfo : JSON) (hardware : option JSON),
    get_property signatureInfo "hardware" = Resolved hardware ->
    truthy hardware = false ->
    (exists r1 r2 : Q,
        is_random r1 /\ is_random r2 /\
        verifySignature c r1 data signatureInfo = Resolved true /\
        verifySignature c r2 data signatureInfo = Resolved false) /\
    (forall (random : Q),
        verifySignature c random data signatureInfo =
        Resolved (negb (Qle_bool random one_tenth))) /\
    (forall (random : Q) (data' : string) (signatureInfo' : JSON) (hardware' : option JSON),
        get_property signatureInfo' "hardware" = Resolved hardware' ->
        truthy hardware' = false ->
        verifySignature c random data' signatureInfo' =
        verifySignature c random data signatureInfo).
Proof.
  intros c data signatureInfo hardware Hget Htag.
  assert (Hsoft : forall random d s h,
             get_property s "hardware" = Resolved h -> truthy h = false ->
             verifySignature c random d s = Resolved (negb (Qle_bool random one_tenth))).
  { intros random d s h Hs Ht.
    unfold verifySignature, verifySignature_routine; rewrite Hs, Ht; reflexivity. }
  split; [|split].
  - exists (1 # 2), 0; unfold is_random.
    rewrite !(Hsoft _ _ _ _ Hget Htag).
    repeat split; try reflexivity; try discriminate.
  - intros random; apply (Hsoft _ _ _ _ Hget Htag).
  - intros random data' signatureInfo' hardware' Hget' Htag'.
    now rewrite (Hsoft _ _ _ _ Hget' Htag'), (Hsoft _ _ _ _ Hget Htag).
Qed.

Lemma verifySignature_software_is_a_coin_toss_witness :
  verifySignature absent_chip (1 # 2) "data" fallback_signature = Resolved true /\
  verifySignature absent_chip 0 "data" fallback_signature = Resolved false /\
  verifySignature absent_chip (1 # 2) "other data" fallback_signature =
  verifySignature absent_chip (1 # 2) "data" fallback_signature.
Proof.
  destruct (verifySignature_software_is_a_coin_toss
              absent_chip "data" fallback_signature (Some (JBool false)) eq_refl eq_refl)
    as [_ [Hdraw _]].
  rewrite !Hdraw. repeat split.
Defined.

(** ** One pass through the body of a creation function *)

Ltac run_monad :=
  unfold persist, logEvent, addToProvenanceChain, run, set_lastHash, this_db,
    bind, try_catch, await, call, gets, modify, ret, throw;
  cbn [fst snd db crypto lastHash events provenance_chain statements].

Lemma persist_cases (env : Env) (eventId currentHash : string)
    (dbRecord : DbRecord.t) (signed : bool) (this : ProvenanceTracker) :
  DbRecord.eventId dbRecord = eventId ->
  let row := event_row_of (CURRENT_TIMESTAMP env) dbRecord in
  let r := persist env eventId currentHash dbRecord signed this in
  (untouched this (fst r) /\ exists e, snd r = Rejected e) \/
  (orphaned row this (fst r) /\ exists e, snd r = Rejected e) \/
  (appended row currentHash this (fst r) /\
   snd r = Resolved {| ProvenanceRecord.eventId := eventId;
                       ProvenanceRecord.currentHash := currentHash;
                       ProvenanceRecord.signed := signed;
                       ProvenanceRecord.dbRecord := dbRecord |}).
Proof.
  intros Hid row r; subst r row eventId.
  unfold untouched, orphaned, appended, next_link.
  run_monad.
  destruct (logEvent_err env) as [e|]; run_monad.
  { left; split; [repeat split | eexists; reflexivity]. }
  destruct (has_event_id (DbRecord.eventId dbRecord) (events (db this))) eqn:Hfresh; run_monad.
  { left; split; [repeat split | eexists; reflexivity]. }
  destruct (max_pos_err env) as [e|]; run_monad.
  { right; left; split; [repeat split; cbn; auto | eexists; reflexivity]. }
  destruct (insert_err env) as [e|]; run_monad.
  { right; left; split; [repeat split; cbn; auto | eexists; reflexivity]. }
  right; right. repeat split; cbn; auto.
Qed.

(** With no I/O error and an unused id, both rows are written. *)
Lemma persist_ok (env : Env) (eventId currentHash : string)
    (dbRecord : DbRecord.t) (signed : bool) (this : ProvenanceTracker) :
  DbRecord.eventId dbRecord = eventId ->
  logEvent_err env = None -> max_pos_err env = None -> insert_err env = None ->
  has_event_id eventId (events (db this)) = false ->
  let r := persist env eventId currentHash dbRecord signed this in
  appended (event_row_of (CURRENT_TIMESTAMP env) dbRecord) currentHash this (fst r) /\
  snd r = Resolved {| ProvenanceRecord.eventId := eventId;
                      ProvenanceRecord.currentHash := currentHash;
                      ProvenanceRecord.signed := signed;
                      ProvenanceRecord.dbRecord := dbRecord |}.
Proof.
  intros Hid Hlog Hmax Hins Hfresh r; subst r eventId.
  unfold appended, next_link. run_monad.
  rewrite Hlog; run_monad. rewrite Hfresh; run_monad.
  rewrite Hmax; run_monad. rewrite Hins; run_monad.
  repeat split; cbn; auto.
Qed.

(** With the event row written and an I/O error in [addToProvenanceChain],
    the event is left without a link and the call rejects. *)
Lemma persist_orphan (env : Env) (eventId currentHash : string)
    (dbRecord : DbRecord.t) (signed : bool) (this : ProvenanceTracker) :
  DbRecord.eventId dbRecord = eventId ->
  logEvent_err env = None ->
  has_event_id eventId (events (db this)) = false ->
  max_pos_err env <> None \/ insert_err env <> None ->
  let r := persist env eventId currentHash dbRecord signed this in
  orphaned (event_row_of (CURRENT_TIMESTAMP env) dbRecord) this (fst r) /\
  exists e, snd r = Rejected e.
Proof.
  intros Hid Hlog Hfresh Herr r; subst r eventId.
  unfold orphaned. run_monad.
  rewrite Hlog; run_monad. rewrite Hfresh; run_monad.
  destruct (max_pos_err env) as [e|]; run_monad.
  { split; [repeat split; cbn; auto | eexists; reflexivity]. }
  destruct (insert_err env) as [e|]; run_monad.
  { split; [repeat split; cbn; auto | eexists; reflexivity]. }
  destruct Herr as [Herr|Herr]; now contradiction Herr.
Qed.

Lemma try_catch_rethrow {S A : Type} (m : M S A) (s : S) :
  try_catch m (fun error => throw error) s = m s.
Proof. unfold try_catch, throw; destruct (m s) as [s' [a|e|e]]; reflexivity. Qed.

Section Creation.

Context {rt : Runtime}.

Lemma createUnsignedRecord_run (env : Env) (eventType : string) (triggerData : JSON)
    (imageData : ImageData) (this : ProvenanceTracker) :
  createUnsignedRecord env eventType triggerData imageData this =
  match getPreciseTimestamp env with
  | inl rtcTimestamp =>
      persist env (uuidv4 env)
        (calculateEventHash
           (new_eventData env rtcTimestamp eventType triggerData imageData (lastHash this))
           None)
        (unsigned_dbRecord env rtcTimestamp eventType triggerData imageData)
        false this
  | inr e => (this, Rejected e)
  end.
Proof.
  unfold createUnsignedRecord; rewrite try_catch_rethrow.
  unfold bind at 1; unfold call.
  destruct (getPreciseTimestamp env) as [rtc|e]; reflexivity.
Qed.

Lemma createProvenanceRecord_run (env env' : Env) (eventType : string) (triggerData : JSON)
    (imageData : ImageData) (this : ProvenanceTracker) :
  createProvenanceRecord env env' eventType triggerData imageData this =
  match getPreciseTimestamp env with
  | inl rtcTimestamp =>
      let eventData :=
        new_eventData env rtcTimestamp eventType triggerData imageData (lastHash this) in
      match signData (crypto this) (signer env) (dataToSign_of eventData) with
      | Resolved signatureInfo =>
          let r := persist env (uuidv4 env)
                     (calculateEventHash eventData (Some (si_signature signatureInfo)))
                     (signed_dbRecord env rtcTimestamp eventType triggerData imageData
                                      signatureInfo)
                     true this in
          match snd r with
          | Rejected _ => createUnsignedRecord env' eventType triggerData imageData (fst r)
          | _ => r
          end
      | Rejected _ => createUnsignedRecord env' eventType triggerData imageData this
      | Uncaught e => (this, Uncaught e)
      end
  | inr _ => createUnsignedRecord env' eventType triggerData imageData this
  end.
Proof.
  unfold createProvenanceRecord, try_catch.
  unfold bind at 1; unfold call.
  destruct (getPreciseTimestamp env) as [rtc|e]; [|reflexivity].
  unfold bind at 1; unfold gets at 1.
  unfold bind at 1; unfold gets at 1.
  unfold bind at 1; unfold await at 1.
  cbn zeta.
  change (JSON_stringify (JObject (EventData_members ?x))) with (dataToSign_of x).
  fold (new_eventData env rtc eventType triggerData imageData (lastHash this)).
  destruct (signData _ _ _) as [si|e|e]; try reflexivity.
  fold (signed_dbRecord env rtc eventType triggerData imageData si).
  set (r := persist env (uuidv4 env)
              (calculateEventHash
                 (new_eventData env rtc eventType triggerData imageData (lastHash this))
                 (Some (si_signature si)))
              (signed_dbRecord env rtc eventType triggerData imageData si) true this).
  change ((let (s', o) := r in
           match o with
           | Resolved a => (s', Resolved a)
           | Rejected _ => createUnsignedRecord env' eventType triggerData imageData s'
           | Uncaught e => (s', Uncaught e)
           end) =
          match snd r with
          | Rejected _ => createUnsignedRecord env' eventType triggerData imageData (fst r)
          | _ => r
          end).
  destruct r as [s' [a|e|e]]; reflexivity.
Qed.

End Creation.

(** ** Chains built by appending *)

Lemma has_event_id_app (eventId : string) (rows rows' : list EventRow.t) :
  has_event_id eventId (rows ++ rows') = has_event_id eventId rows || has_event_id eventId rows'.
Proof. unfold has_event_id; apply existsb_app. Qed.

Lemma has_event_id_In (e : EventRow.t) (rows : list EventRow.t) :
  In e rows -> has_event_id (EventRow.event_id e) rows = true.
Proof.
  intros Hin; unfold has_event_id; apply existsb_exists.
  exists e; split; [exact Hin | apply String.eqb_refl].
Qed.

Lemma has_event_id_one (eventId : string) (e : EventRow.t) :
  has_event_id eventId [e] = String.eqb (EventRow.event_id e) eventId.
Proof. unfold has_event_id; cbn; apply orb_false_r. Qed.

Lemma linked_app_end (rows : list ChainRow.t) :
  forall (prev : option string) (pos : Z) (link : ChainRow.t),
    linked prev pos rows ->
    ChainRow.previous_hash link = last_hash_from prev rows ->
    ChainRow.chain_position link = (pos + Z.of_nat (length rows))%Z ->
    linked prev pos (rows ++ [link]).
Proof.
  induction rows as [|r rest IH]; intros prev pos link Hl Hprev Hpos.
  - cbn in *. rewrite Z.add_0_r in Hpos. auto.
  - destruct Hl as (Hp & Hq & Hrest). cbn [app linked]. split; [exact Hp|]. split; [exact Hq|].
    apply IH; [exact Hrest | exact Hprev |].
    rewrite Hpos; cbn [length]; lia.
Qed.

Lemma last_hash_from_app (rows : list ChainRow.t) :
  forall (prev : option string) (link : ChainRow.t),
    last_hash_from prev (rows ++ [link]) = Some (ChainRow.current_hash link).
Proof.
  induction rows as [|r rest IH]; intros prev link; cbn; [reflexivity | apply IH].
Qed.

Lemma linked_max_position (rows : list ChainRow.t) :
  forall (prev : option string) (pos : Z),
    linked prev pos rows -> rows <> [] ->
    max_chain_position rows = Some (pos + Z.of_nat (length rows) - 1)%Z.
Proof.
  induction rows as [|r rest IH]; intros prev pos Hl Hne; [contradiction|].
  destruct Hl as (_ & Hq & Hrest). cbn [max_chain_position].
  destruct rest as [|r' rest'].
  - cbn. rewrite Hq. f_equal; lia.
  - rewrite (IH _ _ Hrest) by discriminate. rewrite Hq. f_equal; cbn [length]; lia.
Qed.

Lemma linked_next_position (rows : list ChainRow.t) (prev : option string) :
  linked prev 1 rows ->
  (or_zero (max_chain_position rows) + 1 = 1 + Z.of_nat (length rows))%Z.
Proof.
  intros Hl. destruct rows as [|r rest]; [reflexivity|].
  rewrite (linked_max_position _ _ _ Hl) by discriminate.
  unfold or_zero.
  destruct (Z.eqb_spec (1 + Z.of_nat (length (r :: rest)) - 1) 0) as [Heq|Hne].
  - cbn [length] in Heq; lia.
  - lia.
Qed.

(** A chain built by appending is already in the order the reader asks for. *)
Lemma insert_by_position_head (r : ChainRow.t) (rows : list ChainRow.t) :
  (forall x, In x rows -> (ChainRow.chain_position r <= ChainRow.chain_position x)%Z) ->
  insert_by_position r rows = r :: rows.
Proof.
  destruct rows as [|x rest]; intros Hle; cbn; [reflexivity|].
  destruct (Z.leb_spec (ChainRow.chain_position r) (ChainRow.chain_position x)) as [_|Hlt];
    [reflexivity|].
  specialize (Hle x (or_introl eq_refl)); lia.
Qed.

Lemma linked_positions (rows : list ChainRow.t) :
  forall (prev : option string) (pos : Z) (x : ChainRow.t),
    linked prev pos rows -> In x rows -> (pos <= ChainRow.chain_position x)%Z.
Proof.
  induction rows as [|r rest IH]; intros prev pos x Hl Hin; [contradiction|].
  destruct Hl as (_ & Hq & Hrest). destruct Hin as [<-|Hin]; [lia|].
  specialize (IH _ _ _ Hrest Hin); lia.
Qed.

Lemma linked_ordered (rows : list ChainRow.t) :
  forall (prev : option string) (pos : Z),
    linked prev pos rows -> order_by_chain_position rows = rows.
Proof.
  induction rows as [|r rest IH]; intros prev pos Hl; [reflexivity|].
  destruct Hl as (_ & Hq & Hrest).
  unfold order_by_chain_position in *; cbn [fold_right].
  rewrite (IH _ _ Hrest). apply insert_by_position_head.
  intros x Hin. pose proof (linked_positions _ _ _ _ Hrest Hin). lia.
Qed.

Lemma linked_clean_walk (rest : list ChainRow.t) :
  forall (prev : ChainRow.t) (pos : Z) (acc : bool * list Issue),
    linked (Some (ChainRow.current_hash prev)) pos rest ->
    walk prev rest acc = acc.
Proof.
  induction rest as [|cur rest IH]; intros prev pos acc Hl; [reflexivity|].
  destruct Hl as (Hp & _ & Hrest). cbn [walk].
  unfold check_link, strict_neq. rewrite Hp, String.eqb_refl. cbn [negb].
  apply (IH _ _ _ Hrest).
Qed.

Lemma linked_check_rows (rows : list ChainRow.t) (prev : option string) (pos : Z) :
  linked prev pos rows -> check_rows rows = (true, []).
Proof.
  destruct rows as [|first rest]; [reflexivity|].
  intros (_ & _ & Hrest). cbn [check_rows]. apply (linked_clean_walk _ _ _ _ Hrest).
Qed.

Lemma linked_position_list (rows : list ChainRow.t) :
  forall (prev : option string) (n : nat),
    linked prev (Z.of_nat n) rows ->
    map ChainRow.chain_position rows = map Z.of_nat (seq n (length rows)).
Proof.
  induction rows as [|r rest IH]; intros prev n Hl; [reflexivity|].
  destruct Hl as (_ & Hq & Hrest). cbn [map length seq]. f_equal; [exact Hq|].
  apply (IH (Some (ChainRow.current_hash r)) (S n)).
  replace (Z.of_nat (S n)) with (Z.of_nat n + 1)%Z by lia. exact Hrest.
Qed.

Lemma linked_adjacent (rows : list ChainRow.t) :
  forall (prev : option string) (pos : Z) (i : nat) (a b : ChainRow.t),
    linked prev pos rows ->
    nth_error rows i = Some a -> nth_error rows (S i) = Some b ->
    ChainRow.previous_hash b = Some (ChainRow.current_hash a).
Proof.
  induction rows as [|r rest IH]; intros prev pos i a b Hl Ha Hb.
  - destruct i; discriminate.
  - destruct Hl as (_ & _ & Hrest). destruct i as [|i].
    + cbn in Ha; injection Ha as <-. cbn in Hb.
      destruct rest as [|r' rest']; [discriminate|].
      cbn in Hb; injection Hb as <-. now destruct Hrest.
    + cbn in Ha, Hb. apply (IH _ _ _ _ _ Hrest Ha Hb).
Qed.

(** ** What a creation does to the tables *)

Section Effects.

Context {rt : Runtime}.

(** [JSON.parse('')] throws. *)
Hypothesis JSON_parse_empty : JSON_parse "" = None.

Lemma or_string_stringify (v : JSON) :
  roundtrips v -> or_string (Some (JSON_stringify v)) "{}" = JSON_stringify v.
Proof.
  unfold roundtrips; intros Hv. cbn.
  destruct (JSON_stringify v) eqn:Hs; [|reflexivity].
  rewrite JSON_parse_empty in Hv; discriminate.
Qed.

Lemma recomputes_signed (env : Env) (rtc eventType : string) (triggerData : JSON)
    (imageData : ImageData) (si : SignatureInfo) (now : Z) (prev : option string) :
  roundtrips triggerData ->
  recomputes (event_row_of now (signed_dbRecord env rtc eventType triggerData imageData si))
             prev
             (calculateEventHash (new_eventData env rtc eventType triggerData imageData prev)
                                 (Some (si_signature si))).
Proof.
  intros Hv td Htd.
  cbn [event_row_of signed_dbRecord EventRow.trigger_data DbRecord.triggerData] in Htd.
  rewrite (or_string_stringify _ Hv), Hv in Htd. injection Htd as <-. reflexivity.
Qed.

Lemma recomputes_unsigned (env : Env) (rtc eventType : string) (triggerData : JSON)
    (imageData : ImageData) (now : Z) (prev : option string) :
  roundtrips triggerData ->
  recomputes (event_row_of now (unsigned_dbRecord env rtc eventType triggerData imageData))
             prev
             (calculateEventHash (new_eventData env rtc eventType triggerData imageData prev)
                                 None).
Proof.
  intros Hv td Htd.
  cbn [event_row_of unsigned_dbRecord EventRow.trigger_data DbRecord.triggerData] in Htd.
  rewrite (or_string_stringify _ Hv), Hv in Htd. injection Htd as <-. reflexivity.
Qed.

Lemma untouched_refl (this : ProvenanceTracker) : untouched this this.
Proof. repeat split. Qed.

Lemma createUnsignedRecord_effect (env : Env) (eventType : string) (triggerData : JSON)
    (imageData : ImageData) (this : ProvenanceTracker) :
  roundtrips triggerData ->
  effect this (fst (createUnsignedRecord env eventType triggerData imageData this)).
Proof.
  intros Hv. rewrite createUnsignedRecord_run.
  destruct (getPreciseTimestamp env) as [rtc|e]; [|left; apply untouched_refl].
  match goal with
  | |- effect _ (fst (persist ?en ?id ?h ?rec ?sg ?t)) =>
      destruct (persist_cases en id h rec sg t eq_refl) as [[Hu _]|[[Ho _]|[Ha _]]]
  end.
  - left; exact Hu.
  - right; left; eexists; exact Ho.
  - right; right; eexists; eexists; split; [exact Ha|].
    apply recomputes_unsigned, Hv.
Qed.

(** The [try] block, then perhaps [createUnsignedRecord]. *)
Lemma createProvenanceRecord_effect (env env' : Env) (eventType : string)
    (triggerData : JSON) (imageData : ImageData) (this : ProvenanceTracker) :
  roundtrips triggerData ->
  exists mid,
    effect this mid /\
    effect mid (fst (createProvenanceRecord env env' eventType triggerData imageData this)).
Proof.
  intros Hv. rewrite createProvenanceRecord_run.
  destruct (getPreciseTimestamp env) as [rtc|e].
  2:{ exists this; split; [left; apply untouched_refl|].
      apply createUnsignedRecord_effect, Hv. }
  cbn zeta.
  destruct (signData _ _ _) as [si|e|e].
  2:{ exists this; split; [left; apply untouched_refl|].
      apply createUnsignedRecord_effect, Hv. }
  2:{ exists this; split; left; apply untouched_refl. }
  match goal with
  | |- context [persist ?en ?id ?h ?rec ?sg ?t] =>
      pose proof (persist_cases en id h rec sg t eq_refl) as Hcases;
      cbv zeta in Hcases;
      set (r := persist en id h rec sg t) in *
  end.
  assert (Hfirst : effect this (fst r)).
  { destruct Hcases as [[Hu _]|[[Ho _]|[Ha _]]].
    - left; exact Hu.
    - right; left; eexists; exact Ho.
    - right; right; eexists; eexists; split; [exact Ha|].
      apply recomputes_signed, Hv. }
  destruct (snd r) as [a|e|e].
  - exists (fst r); split; [exact Hfirst | left; apply untouched_refl].
  - exists (fst r); split; [exact Hfirst|]. apply createUnsignedRecord_effect, Hv.
  - exists (fst r); split; [exact Hfirst | left; apply untouched_refl].
Qed.

Lemma effect_consistent (this this' : ProvenanceTracker) :
  consistent this -> effect this this' -> consistent this'.
Proof.
  intros (Hlinked & Hcursor & Hids & Hhash) [Hu|[[row Ho]|[row [h [Ha Hrow]]]]].
  - destruct Hu as (He & Hc & Hl & _). unfold consistent. rewrite He, Hc, Hl. auto.
  - destruct Ho as (Hfresh & He & Hc & Hl & _). unfold consistent. rewrite He, Hc, Hl.
    split; [exact Hlinked|]. split; [exact Hcursor|]. split.
    + intros p Hp. rewrite has_event_id_app, (Hids p Hp). reflexivity.
    + intros e p Hin Hp Heq. apply in_app_or in Hin. destruct Hin as [Hin|[<-|[]]].
      * apply (Hhash e p Hin Hp Heq).
      * rewrite Heq, (Hids p Hp) in Hfresh. discriminate.
  - destruct Ha as (Hfresh & He & Hc & Hl & _). unfold consistent. rewrite He, Hc, Hl.
    split; [|split; [|split]].
    + apply linked_app_end; [exact Hlinked | cbn; exact Hcursor |].
      cbn. apply (linked_next_position _ _ Hlinked).
    + unfold last_hash. now rewrite last_hash_from_app.
    + intros p Hp. rewrite has_event_id_app. apply in_app_or in Hp.
      destruct Hp as [Hp|[<-|[]]].
      * rewrite (Hids p Hp). reflexivity.
      * cbn [next_link ChainRow.event_id]. rewrite has_event_id_one, String.eqb_refl.
        apply orb_true_r.
    + intros e p Hin Hp Heq. apply in_app_or in Hin. apply in_app_or in Hp.
      destruct Hin as [Hin|[<-|[]]], Hp as [Hp|[<-|[]]].
      * apply (Hhash e p Hin Hp Heq).
      * cbn [next_link ChainRow.event_id] in Heq.
        rewrite <- Heq, (has_event_id_In _ _ Hin) in Hfresh. discriminate.
      * rewrite Heq, (Hids p Hp) in Hfresh. discriminate.
      * exact Hrow.
Qed.

Lemma create_consistent (c : Call) (this : ProvenanceTracker) :
  roundtrips (triggerData c) -> consistent this -> consistent (fst (create c this)).
Proof.
  intros Hv Hthis. unfold create.
  destruct (createProvenanceRecord_effect (env c) (env' c) (eventType c) (triggerData c)
              (imageData c) this Hv) as (mid & H1 & H2).
  apply (effect_consistent _ _ (effect_consistent _ _ Hthis H1) H2).
Qed.

Lemma serve_consistent (calls : list Call) :
  forall this,
    Forall (fun c => roundtrips (triggerData c)) calls ->
    consistent this -> consistent (serve calls this).
Proof.
  induction calls as [|c rest IH]; intros this Hall Hthis; [exact Hthis|].
  inversion Hall as [|? ? Hc Hrest]; subst. cbn [serve].
  apply IH; [exact Hrest | apply create_consistent; assumption].
Qed.

Lemma startup_empty (err : option Error) (device : ATECC608) :
  let this := startup err empty_database device in
  events (db this) = [] /\ provenance_chain (db this) = [] /\
  lastHash this = None /\ crypto this = device.
Proof. destruct err; repeat split. Qed.

Lemma startup_empty_consistent (err : option Error) (device : ATECC608) :
  consistent (startup err empty_database device).
Proof.
  destruct (startup_empty err device) as (He & Hc & Hl & _).
  unfold consistent. rewrite He, Hc, Hl. repeat split; intros; contradiction.
Qed.

End Effects.

(** ** Reading an event back *)

Lemma In_left_join (es : list EventRow.t) (ps : list ChainRow.t) (r : JoinedRow.t) :
  In r (left_join es ps) ->
  In (JoinedRow.e r) es /\
  (r = joined (JoinedRow.e r) None \/
   exists p, In p ps /\
             EventRow.event_id (JoinedRow.e r) = ChainRow.event_id p /\
             r = joined (JoinedRow.e r) (Some p)).
Proof.
  unfold left_join; intros Hin. apply in_flat_map in Hin. destruct Hin as (e & He & Hr).
  destruct (filter _ ps) as [|p0 matches] eqn:Hf.
  - destruct Hr as [<-|[]]. cbn. split; [exact He | left; reflexivity].
  - apply in_map_iff in Hr. destruct Hr as (p & <- & Hp).
    rewrite <- Hf in Hp. apply filter_In in Hp. destruct Hp as (Hp & Heq).
    apply String.eqb_eq in Heq. cbn. split; [exact He|].
    right; exists p; repeat split; assumption.
Qed.

Section Reading.

Context {rt : Runtime}.

Lemma getEventById_run (eventId : string) (d : ProvenanceDatabase) :
  snd (getEventById None eventId d) =
  match filter (fun r => String.eqb (EventRow.event_id (JoinedRow.e r)) eventId)
               (left_join (events d) (provenance_chain d)) with
  | [] => Resolved None
  | row :: _ =>
      match parse_row row with
      | Some ev => Resolved (Some ev)
      | None => Uncaught SyntaxError
      end
  end.
Proof.
  unfold getEventById; run_monad.
  destruct (filter _ _) as [|row rows]; [reflexivity|].
  destruct (parse_row row); reflexivity.
Qed.

Lemma getEventById_tables (err : option Error) (eventId : string) (d : ProvenanceDatabase) :
  events (fst (getEventById err eventId d)) = events d /\
  provenance_chain (fst (getEventById err eventId d)) = provenance_chain d.
Proof.
  unfold getEventById; run_monad.
  destruct err; [split; reflexivity|]. run_monad.
  destruct (filter _ _) as [|row rows]; [split; reflexivity|].
  destruct (parse_row row); split; reflexivity.
Qed.

Lemma parse_row_fields (row : JoinedRow.t) (ev : Event.t) :
  parse_row row = Some ev ->
  Event.row ev = row /\
  JSON_parse (or_string (EventRow.trigger_data (JoinedRow.e row)) "{}")
  = Some (Event.trigger_data ev).
Proof.
  unfold parse_row.
  destruct (JSON_parse (or_string (EventRow.trigger_data _) _)) as [td|]; [|discriminate].
  destruct (JSON_parse (or_string (EventRow.signature_info _) _)) as [si|]; [|discriminate].
  intros Hev; injection Hev as <-. split; reflexivity.
Qed.

(** An event found by id is a row of [events] carrying that id; if it comes
    with a hash, the hash and the [previous_hash] are those of a link of the
    same id. *)
Lemma getEventById_found (eventId : string) (d : ProvenanceDatabase) (ev : Event.t) :
  snd (getEventById None eventId d) = Resolved (Some ev) ->
  let e := JoinedRow.e (Event.row ev) in
  In e (events d) /\
  EventRow.event_id e = eventId /\
  JSON_parse (or_string (EventRow.trigger_data e) "{}") = Some (Event.trigger_data ev) /\
  forall h,
    JoinedRow.current_hash (Event.row ev) = Some h ->
    exists p, In p (provenance_chain d) /\
              EventRow.event_id e = ChainRow.event_id p /\
              ChainRow.current_hash p = h /\
              ChainRow.previous_hash p = JoinedRow.previous_hash (Event.row ev).
Proof.
  rewrite getEventById_run.
  destruct (filter _ _) as [|row rows] eqn:Hf; [discriminate|].
  destruct (parse_row row) as [ev'|] eqn:Hparse; [|discriminate].
  intros Hev; injection Hev as ->.
  destruct (parse_row_fields _ _ Hparse) as (Hrow & Htd). cbn zeta. rewrite Hrow.
  assert (Hin : In row (filter (fun r => String.eqb (EventRow.event_id (JoinedRow.e r)) eventId)
                               (left_join (events d) (provenance_chain d)))).
  { rewrite Hf; left; reflexivity. }
  apply filter_In in Hin. destruct Hin as (Hjoin & Hid). apply String.eqb_eq in Hid.
  destruct (In_left_join _ _ _ Hjoin) as (He & Hlink).
  split; [exact He|]. split; [exact Hid|]. split; [exact Htd|].
  intros h Hh. destruct Hlink as [Hnone|(p & Hp & Heq & Hsome)].
  - rewrite Hnone in Hh. discriminate.
  - exists p. split; [exact Hp|]. split; [exact Heq|].
    rewrite Hsome in Hh |- *. cbn in Hh |- *. injection Hh as <-. split; reflexivity.
Qed.

(** X26. Creations served one after the other, each returning before the
    next begins. The link hash is a function of the signable fields, of
    the previous hash among them, and of the signature or the marker that
    stands for its absence; and in every store that such creations have
    filled, starting from an empty one and whatever failed on the way, an
    event read back with its link gives, by that function, the
    [current_hash] of the link. The payloads are assumed to survive
    [JSON.parse(JSON.stringify(..))]. *)
Theorem current_hash_recomputed_from_store :
  forall (device : ATECC608) (err : option Error) (calls : list Call),
    JSON_parse "" = None ->
    Forall (fun c => roundtrips (triggerData c)) calls ->
    let this := serve calls (startup err empty_database device) in
    (forall eventData signature signature',
        or_string signature "unsigned" = or_string signature' "unsigned" ->
        calculateEventHash eventData signature = calculateEventHash eventData signature') /\
    (forall eventId ev h,
        snd (getEventById None eventId (db this)) = Resolved (Some ev) ->
        JoinedRow.current_hash (Event.row ev) = Some h ->
        recompute_hash ev = h).
Proof.
  intros device err calls Hempty Hcalls this. split.
  - intros eventData signature signature' Hsig.
    unfold calculateEventHash. rewrite Hsig. reflexivity.
  - intros eventId ev h Hfound Hh.
    assert (Hthis : consistent this).
    { apply (serve_consistent Hempty); [exact Hcalls | apply startup_empty_consistent]. }
    destruct Hthis as (_ & _ & _ & Hhash).
    destruct (getEventById_found _ _ _ Hfound) as (He & _ & Htd & Hlink).
    destruct (Hlink h Hh) as (p & Hp & Heq & Hcur & Hprev).
    pose proof (Hhash _ _ He Hp Heq _ Htd) as Hre.
    rewrite Hcur, Hprev in Hre. exact Hre.
Qed.

End Reading.

(** ** Creations during which nothing fails *)

Lemma appended_linked (row : EventRow.t) (h : string) (this this' : ProvenanceTracker) :
  linked None 1 (provenance_chain (db this)) ->
  lastHash this = last_hash (provenance_chain (db this)) ->
  appended row h this this' ->
  linked None 1 (provenance_chain (db this')) /\
  lastHash this' = last_hash (provenance_chain (db this')) /\
  length (provenance_chain (db this')) = S (length (provenance_chain (db this))).
Proof.
  intros Hlinked Hcursor (_ & _ & Hc & Hl & _). rewrite Hc, Hl. split; [|split].
  - apply linked_app_end; [exact Hlinked | cbn; exact Hcursor |].
    cbn. apply (linked_next_position _ _ Hlinked).
  - unfold last_hash. now rewrite last_hash_from_app.
  - rewrite length_app. cbn. lia.
Qed.

Section Clean.

Context {rt : Runtime}.

Lemma create_clean (c : Call) (this : ProvenanceTracker) :
  no_injected_failure (crypto this) c ->
  has_event_id (uuidv4 (env c)) (events (db this)) = false ->
  exists row h record,
    appended row h this (fst (create c this)) /\
    EventRow.event_id row = uuidv4 (env c) /\
    snd (create c this) = Resolved record /\
    ProvenanceRecord.signed record = true /\
    ProvenanceRecord.currentHash record = h.
Proof.
  intros ((rtc & Hrtc) & Hsign & Hlog & Hmax & Hins) Hfresh.
  unfold create. rewrite createProvenanceRecord_run, Hrtc. cbn zeta.
  match goal with
  | |- context [signData ?d ?io ?data] => destruct (Hsign data) as (si & Hsi); rewrite Hsi
  end.
  match goal with
  | |- context [persist ?en ?id ?h ?rec ?sg ?t] =>
      destruct (persist_ok en id h rec sg t eq_refl Hlog Hmax Hins Hfresh) as (Ha & Hres);
      set (r := persist en id h rec sg t) in *
  end.
  rewrite Hres. eexists; eexists; eexists.
  split; [exact Ha|]. split; [reflexivity|]. split; [exact Hres|]. split; reflexivity.
Qed.

Lemma serve_clean (calls : list Call) :
  forall this,
    Forall (no_injected_failure (crypto this)) calls ->
    NoDup (event_ids calls) ->
    (forall id, In id (event_ids calls) -> has_event_id id (events (db this)) = false) ->
    linked None 1 (provenance_chain (db this)) ->
    lastHash this = last_hash (provenance_chain (db this)) ->
    linked None 1 (provenance_chain (db (serve calls this))) /\
    length (provenance_chain (db (serve calls this)))
    = (length (provenance_chain (db this)) + length calls)%nat.
Proof.
  induction calls as [|c rest IH]; intros this Hclean Hids Hfresh Hlinked Hcursor.
  - cbn. split; [exact Hlinked | lia].
  - inversion Hclean as [|? ? Hc Hrest]; subst.
    inversion Hids as [|? ? Hnotin Hnodup]; subst.
    destruct (create_clean c this Hc (Hfresh _ (or_introl eq_refl)))
      as (row & h & record & Ha & Hrow & _).
    destruct (appended_linked _ _ _ _ Hlinked Hcursor Ha) as (Hl' & Hc' & Hlen).
    destruct Ha as (_ & He & _ & _ & Hcrypto).
    cbn [serve]. set (this' := fst (create c this)) in *.
    destruct (IH this') as (Hfinal & Hcount).
    + rewrite Hcrypto. exact Hrest.
    + exact Hnodup.
    + intros id Hid. rewrite He, has_event_id_app, has_event_id_one.
      rewrite (Hfresh id (or_intror Hid)). cbn [orb].
      destruct (String.eqb_spec (EventRow.event_id row) id) as [Heq|]; [|reflexivity].
      exfalso; apply Hnotin. change (In (uuidv4 (env c)) (event_ids rest)).
      rewrite <- Hrow, Heq. exact Hid.
    + exact Hl'.
    + exact Hc'.
    + split; [exact Hfinal|]. rewrite Hcount, Hlen. cbn [length]. lia.
Qed.

(** C1. After any number of creations on an empty store during which
    nothing failed (distinct ids from [uuidv4] included), the links read in
    position order are as many as the creations; the first one has no
    previous hash and position 1; each later one carries the hash of the
    one before it; the positions are 1, 2, ..., N; and
    [verifyProvenanceChain] resolves with [isValid = true] and no issue. *)
Theorem chain_of_clean_creations :
  forall (device : ATECC608) (err : option Error) (calls : list Call),
    Forall (no_injected_failure device) calls ->
    NoDup (event_ids calls) ->
    let this := serve calls (startup err empty_database device) in
    let links := order_by_chain_position (provenance_chain (db this)) in
    length links = length calls /\
    (forall first, nth_error links 0 = Some first ->
                   ChainRow.previous_hash first = None /\
                   ChainRow.chain_position first = 1%Z) /\
    (forall i a b, nth_error links i = Some a -> nth_error links (S i) = Some b ->
                   ChainRow.previous_hash b = Some (ChainRow.current_hash a)) /\
    map ChainRow.chain_position links = map Z.of_nat (seq 1 (length calls)) /\
    snd (verifyProvenanceChain None (db this))
    = Resolved {| isValid := true; totalEvents := length calls; issues := [] |}.
Proof.
  intros device err calls Hclean Hids this links.
  destruct (startup_empty err device) as (He & Hc & Hl & Hdev).
  destruct (serve_clean calls (startup err empty_database device)) as (Hlinked & Hlen).
  - rewrite Hdev. exact Hclean.
  - exact Hids.
  - intros id _. rewrite He. reflexivity.
  - rewrite Hc. exact I.
  - rewrite Hc, Hl. reflexivity.
  - rewrite Hc in Hlen. cbn [length plus] in Hlen.
    fold this in Hlinked, Hlen.
    assert (Hlinks : links = provenance_chain (db this)).
    { apply (linked_ordered _ _ _ Hlinked). }
    split; [now rewrite Hlinks|]. split; [|split; [|split]].
    + rewrite Hlinks. intros first Hfirst.
      destruct (provenance_chain (db this)) as [|r rest]; [discriminate|].
      cbn in Hfirst; injection Hfirst as <-. destruct Hlinked as (Hp & Hq & _). auto.
    + rewrite Hlinks. intros i a b. apply (linked_adjacent _ _ _ _ _ _ Hlinked).
    + rewrite Hlinks, <- Hlen. apply (linked_position_list _ None 1 Hlinked).
    + rewrite verifyProvenanceChain_run. cbn [snd]. fold links.
      rewrite Hlinks, (linked_check_rows _ _ _ Hlinked), Hlen. reflexivity.
Qed.

End Clean.

(** ** Creations during which something fails *)

Section Failures.

Context {rt : Runtime}.

(** [signData] throws exactly when the software signer throws after the
    hardware path, if it was tried at all, has thrown too. *)
Lemma signData_rejects (c : ATECC608) (io : SignerIO) (data : string) (e : Error) :
  signData c io data = Rejected e <->
  ec_sign io data = inr e /\
  (initialized c = false \/ exists e', i2c_sign io (sha256_hex data) = inr e').
Proof.
  unfold signData, hardwareSign, softwareSign.
  destruct (initialized c); [destruct (i2c_sign io (sha256_hex data)) as [s|e'] eqn:Hi2c|];
    destruct (ec_sign io data) as [s'|e''] eqn:Hec; split;
    try discriminate;
    try (intros [Hd _]; discriminate);
    try (intros [_ [Hd|[x Hd]]]; discriminate).
  - intros Hr; injection Hr as ->. split; [reflexivity | right; eexists; reflexivity].
  - intros [Hr _]; injection Hr as ->. reflexivity.
  - intros Hr; injection Hr as ->. split; [reflexivity | left; reflexivity].
  - intros [Hr _]; injection Hr as ->. reflexivity.
Qed.

(** C9. When the signer fails totally in [createProvenanceRecord] and the
    store then takes the writes, the call resolves: it returns a record
    with [signed = false], no signature and no hardware/software tag in its
    signature metadata, and that record's row has been appended to [events]
    with a NULL signature, and linked. *)
Theorem signer_failure_yields_unsigned_record :
  forall (this : ProvenanceTracker) (env env' : Env) (eventType : string)
         (triggerData : JSON) (imageData : ImageData) (rtc rtc' : string),
    getPreciseTimestamp env = inl rtc ->
    signer_fails (crypto this) (signer env) ->
    getPreciseTimestamp env' = inl rtc' ->
    logEvent_err env' = None -> max_pos_err env' = None -> insert_err env' = None ->
    has_event_id (uuidv4 env') (events (db this)) = false ->
    let r := createProvenanceRecord env env' eventType triggerData imageData this in
    exists record,
      snd r = Resolved record /\
      ProvenanceRecord.signed record = false /\
      ProvenanceRecord.eventId record = uuidv4 env' /\
      DbRecord.signature (ProvenanceRecord.dbRecord record) = None /\
      get_property (DbRecord.signatureInfo (ProvenanceRecord.dbRecord record)) "hardware"
      = Resolved None /\
      let row := event_row_of (CURRENT_TIMESTAMP env') (ProvenanceRecord.dbRecord record) in
      EventRow.event_id row = ProvenanceRecord.eventId record /\
      EventRow.signature row = None /\
      appended row (ProvenanceRecord.currentHash record) this (fst r).
Proof.
  intros this env env' eventType triggerData imageData rtc rtc'
         Hrtc Hsign Hrtc' Hlog Hmax Hins Hfresh r; subst r.
  rewrite createProvenanceRecord_run, Hrtc. cbn zeta.
  match goal with
  | |- context [signData ?d ?io ?data] => destruct (Hsign data) as (e & He); rewrite He
  end.
  rewrite createUnsignedRecord_run, Hrtc'.
  match goal with
  | |- context [persist ?en ?id ?h ?rec ?sg ?t] =>
      destruct (persist_ok en id h rec sg t eq_refl Hlog Hmax Hins Hfresh) as (Ha & Hres);
      set (r := persist en id h rec sg t) in *
  end.
  eexists. split; [exact Hres|]. cbn.
  split; [reflexivity|]. split; [reflexivity|]. split; [reflexivity|].
  split; [reflexivity|]. split; [reflexivity|]. split; [reflexivity|]. exact Ha.
Qed.

(** C4 (what the code does). When the event row has been written and
    [addToProvenanceChain] then fails, the [catch] block runs
    [createUnsignedRecord]: with the store taking the writes again, a second
    event row is written for the same trigger under a new id, that second
    row is linked, the cursor moves to its hash, and the call resolves with
    the second record. The first row stays in [events] without a link. *)
Theorem chain_append_failure_is_retried :
  forall (this : ProvenanceTracker) (env env' : Env) (eventType : string)
         (triggerData : JSON) (imageData : ImageData) (rtc rtc' : string)
         (signatureInfo : SignatureInfo),
    getPreciseTimestamp env = inl rtc ->
    signData (crypto this) (signer env)
             (dataToSign_of (new_eventData env rtc eventType triggerData imageData
                                           (lastHash this)))
    = Resolved signatureInfo ->
    logEvent_err env = None ->
    has_event_id (uuidv4 env) (events (db this)) = false ->
    max_pos_err env <> None \/ insert_err env <> None ->
    getPreciseTimestamp env' = inl rtc' ->
    logEvent_err env' = None -> max_pos_err env' = None -> insert_err env' = None ->
    uuidv4 env' <> uuidv4 env ->
    has_event_id (uuidv4 env') (events (db this)) = false ->
    let r := createProvenanceRecord env env' eventType triggerData imageData this in
    exists record row row',
      snd r = Resolved record /\
      ProvenanceRecord.signed record = false /\
      ProvenanceRecord.eventId record = uuidv4 env' /\
      EventRow.event_id row = uuidv4 env /\
      EventRow.event_id row' = uuidv4 env' /\
      events (db (fst r)) = (events (db this) ++ [row; row'])%list /\
      provenance_chain (db (fst r)) =
        (provenance_chain (db this)
           ++ [next_link (provenance_chain (db this)) (uuidv4 env') (lastHash this)
                         (ProvenanceRecord.currentHash record)])%list /\
      lastHash (fst r) = Some (ProvenanceRecord.currentHash record).
Proof.
  intros this env env' eventType triggerData imageData rtc rtc' signatureInfo
         Hrtc Hsign Hlog Hfresh Hfail Hrtc' Hlog' Hmax' Hins' Hneq Hfresh' r; subst r.
  rewrite createProvenanceRecord_run, Hrtc. cbn zeta. rewrite Hsign.
  match goal with
  | |- context [persist ?en ?id ?h ?rec ?sg ?t] =>
      destruct (persist_orphan en id h rec sg t eq_refl Hlog Hfresh Hfail)
        as (Ho & (e & Hrej));
      set (r := persist en id h rec sg t) in *
  end.
  rewrite Hrej. destruct Ho as (_ & He & Hc & Hl & Hcr).
  rewrite createUnsignedRecord_run, Hrtc'.
  assert (Hfresh2 : has_event_id (uuidv4 env') (events (db (fst r))) = false).
  { rewrite He, has_event_id_app, Hfresh', has_event_id_one. cbn.
    apply String.eqb_neq. intros Heq; apply Hneq; symmetry; exact Heq. }
  match goal with
  | |- context [persist ?en ?id ?h ?rec false ?t] =>
      destruct (persist_ok en id h rec false t eq_refl Hlog' Hmax' Hins' Hfresh2)
        as (Ha & Hres);
      set (r' := persist en id h rec false t) in *
  end.
  destruct Ha as (_ & He' & Hc' & Hl' & _).
  eexists; eexists; eexists.
  split; [exact Hres|]. cbn [ProvenanceRecord.signed ProvenanceRecord.eventId
                              ProvenanceRecord.currentHash].
  split; [reflexivity|]. split; [reflexivity|].
  split; [|split; [|split; [|split]]].
  4:{ rewrite Hc', Hc, Hl. reflexivity. }
  3:{ rewrite He', He, <- app_assoc. reflexivity. }
  - reflexivity.
  - reflexivity.
  - exact Hl'.
Qed.

(** The sibling path: in [createUnsignedRecord] the same failure is fatal.
    The call rejects, the event row stays without a link, nothing more is
    written and the cursor does not move. *)
Lemma createUnsignedRecord_append_failure_is_fatal
    (this : ProvenanceTracker) (env : Env) (eventType : string)
    (triggerData : JSON) (imageData : ImageData) (rtc : string) :
  getPreciseTimestamp env = inl rtc ->
  logEvent_err env = None ->
  has_event_id (uuidv4 env) (events (db this)) = false ->
  max_pos_err env <> None \/ insert_err env <> None ->
  let r := createUnsignedRecord env eventType triggerData imageData this in
  (exists e, snd r = Rejected e) /\
  orphaned (event_row_of (CURRENT_TIMESTAMP env)
                         (unsigned_dbRecord env rtc eventType triggerData imageData))
           this (fst r).
Proof.
  intros Hrtc Hlog Hfresh Hfail r; subst r.
  rewrite createUnsignedRecord_run, Hrtc.
  match goal with
  | |- context [persist ?en ?id ?h ?rec ?sg ?t] =>
      destruct (persist_orphan en id h rec sg t eq_refl Hlog Hfresh Hfail) as (Ho & Hrej)
  end.
  split; [exact Hrej | exact Ho].
Qed.

End Failures.

(** ** [verifyEvent] *)

Lemma joined_e (e : EventRow.t) (p : option ChainRow.t) : JoinedRow.e (joined e p) = e.
Proof. destruct p; reflexivity. Qed.

Lemma left_join_covers (es : list EventRow.t) (ps : list ChainRow.t) (e : EventRow.t) :
  In e es -> exists r, In r (left_join es ps) /\ JoinedRow.e r = e.
Proof.
  intros He. unfold left_join.
  destruct (filter (fun p => String.eqb (EventRow.event_id e) (ChainRow.event_id p)) ps)
    as [|p0 matches] eqn:Hf.
  - exists (joined e None). split; [|reflexivity].
    apply in_flat_map. exists e. split; [exact He|]. rewrite Hf. left; reflexivity.
  - exists (joined e (Some p0)). split; [|reflexivity].
    apply in_flat_map. exists e. split; [exact He|]. rewrite Hf. left; reflexivity.
Qed.

Section Verification.

Context {rt : Runtime}.

Lemma verifySignature_settles (c : ATECC608) (random : Q) (data : string) (si : JSON) (e : Error) :
  verifySignature c random data si <> Uncaught e.
Proof.
  unfold verifySignature, verifySignature_routine, get_property.
  destruct si; try destruct (truthy _ && initialized c); discriminate.
Qed.

Lemma verifyEvent_run (err : option Error) (random : Q) (eventId : string)
    (this : ProvenanceTracker) :
  snd (verifyEvent err random eventId this) =
  match snd (getEventById err eventId (db this)) with
  | Resolved None => Resolved event_not_found
  | Resolved (Some ev) =>
      if not_string (EventRow.signature (JoinedRow.e (Event.row ev)))
      then Resolved (event_not_signed ev)
      else
        match verifySignature (crypto this) random
                (dataToSign_of (originalData ev)) (Event.signature_info ev) with
        | Resolved isValid =>
            Resolved {| valid := isValid; reason := None; event := Some ev;
                        signatureInfo := Some (Event.signature_info ev); error := None |}
        | Rejected e =>
            Resolved {| valid := false; reason := Some "Verification failed";
                        event := None; signatureInfo := None; error := Some e |}
        | Uncaught e => Uncaught e
        end
  | Rejected e =>
      Resolved {| valid := false; reason := Some "Verification failed";
                  event := None; signatureInfo := None; error := Some e |}
  | Uncaught e => Uncaught e
  end.
Proof.
  unfold verifyEvent, try_catch, this_db. unfold bind at 1.
  destruct (getEventById err eventId (db this)) as [d' [[ev|]|e|e]]; cbn [snd]; try reflexivity.
  destruct (not_string _); [reflexivity|].
  unfold bind, gets, await, ret. cbn [crypto].
  change (JSON_stringify (JObject (EventData_members ?x))) with (dataToSign_of x).
  destruct (verifySignature _ _ _ _); reflexivity.
Qed.

(** C6. [verifyEvent] never rejects. When the read succeeds and no event
    carries the id, it resolves with the not-found result; when the events
    carrying the id (at most one, by the UNIQUE constraint) have a NULL
    signature and well-formed JSON columns, it resolves with [valid = false],
    reason 'Event not signed', and the event. *)
Theorem verifyEvent_missing_or_unsigned :
  forall (this : ProvenanceTracker) (err : option Error) (random : Q) (eventId : string),
    let r := verifyEvent err random eventId this in
    (forall e, snd r <> Rejected e) /\
    (err = None ->
     has_event_id eventId (events (db this)) = false ->
     snd r = Resolved event_not_found) /\
    (err = None ->
     has_event_id eventId (events (db this)) = true ->
     (forall e, In e (events (db this)) -> EventRow.event_id e = eventId ->
                EventRow.signature e = None /\ json_columns_parse e) ->
     exists ev,
       snd r = Resolved (event_not_signed ev) /\
       In (JoinedRow.e (Event.row ev)) (events (db this)) /\
       EventRow.event_id (JoinedRow.e (Event.row ev)) = eventId).
Proof.
  intros this err random eventId r; subst r. rewrite verifyEvent_run. split; [|split].
  - intros e. destruct (snd (getEventById err eventId (db this))) as [[ev|]|e'|e'];
      try discriminate.
    destruct (not_string _); [discriminate|].
    destruct (verifySignature _ _ _ _); discriminate.
  - intros -> Hmissing. rewrite getEventById_run.
    destruct (filter _ _) as [|row rows] eqn:Hf; [reflexivity|].
    assert (Hin : In row (filter (fun r => String.eqb (EventRow.event_id (JoinedRow.e r)) eventId)
                                 (left_join (events (db this)) (provenance_chain (db this))))).
    { rewrite Hf; left; reflexivity. }
    apply filter_In in Hin. destruct Hin as (Hjoin & Hid). apply String.eqb_eq in Hid.
    destruct (In_left_join _ _ _ Hjoin) as (He & _).
    rewrite <- Hid, (has_event_id_In _ _ He) in Hmissing. discriminate.
  - intros -> Hpresent Hunsigned. rewrite getEventById_run.
    apply existsb_exists in Hpresent. destruct Hpresent as (e & He & Heq).
    apply String.eqb_eq in Heq.
    destruct (left_join_covers _ (provenance_chain (db this)) _ He) as (r & Hr & Hre).
    destruct (filter _ _) as [|row rows] eqn:Hf.
    { assert (Hin : In r (filter (fun r => String.eqb (EventRow.event_id (JoinedRow.e r)) eventId)
                                 (left_join (events (db this)) (provenance_chain (db this))))).
      { apply filter_In. split; [exact Hr|]. rewrite Hre. apply String.eqb_eq, Heq. }
      rewrite Hf in Hin. contradiction. }
    assert (Hin : In row (filter (fun r => String.eqb (EventRow.event_id (JoinedRow.e r)) eventId)
                                 (left_join (events (db this)) (provenance_chain (db this))))).
    { rewrite Hf; left; reflexivity. }
    apply filter_In in Hin. destruct Hin as (Hjoin & Hid). apply String.eqb_eq in Hid.
    destruct (In_left_join _ _ _ Hjoin) as (Hrow & _).
    destruct (Hunsigned _ Hrow Hid) as (Hsig & Htd & Hsi).
    unfold parse_row.
    destruct (JSON_parse (or_string (EventRow.trigger_data _) _)) as [td|]; [|contradiction].
    destruct (JSON_parse (or_string (EventRow.signature_info _) _)) as [si|]; [|contradiction].
    cbn [Event.row]. rewrite Hsig. cbn [not_string].
    eexists. split; [reflexivity|]. cbn [Event.row]. split; assumption.
Qed.

End Verification.

(** ** Edits of the stored rows *)

Lemma strict_neq_true (a : option string) (b : string) :
  strict_neq a b = true <-> a <> Some b.
Proof.
  unfold strict_neq; destruct a as [s|].
  - destruct (String.eqb_spec s b) as [->|Hne]; cbn; split; intros Hx; congruence.
  - split; [discriminate | reflexivity].
Qed.

Lemma strict_neq_false (a : option string) (b : string) :
  strict_neq a b = false <-> a = Some b.
Proof.
  unfold strict_neq; destruct a as [s|].
  - destruct (String.eqb_spec s b) as [->|Hne]; cbn; split; intros Hx; congruence.
  - split; discriminate.
Qed.

Lemma walk_valid_follows (rest : list ChainRow.t) :
  forall prev, fst (walk prev rest (true, [])) = true -> follows prev rest.
Proof.
  induction rest as [|cur rest IH]; intros prev Hvalid; [exact I|].
  cbn [walk] in Hvalid. rewrite walk_from in Hvalid. cbn [fst] in Hvalid.
  apply andb_prop in Hvalid. destruct Hvalid as (Hlink & Hrest).
  unfold check_link in Hlink.
  destruct (strict_neq _ _) eqn:Hneq; [discriminate|].
  apply strict_neq_false in Hneq. split; [exact Hneq | apply IH, Hrest].
Qed.

Lemma follows_clean_walk (rest : list ChainRow.t) :
  forall prev acc, follows prev rest -> walk prev rest acc = acc.
Proof.
  induction rest as [|cur rest IH]; intros prev acc Hf; [reflexivity|].
  destruct Hf as (Hp & Hrest). cbn [walk]. unfold check_link.
  apply strict_neq_false in Hp. rewrite Hp. apply IH, Hrest.
Qed.

(** One link given another [previous_hash]: the loop reports that link. *)
Lemma walk_previous_hash_edited (rest : list ChainRow.t) :
  forall (prev : ChainRow.t) (n : nat) (a b : ChainRow.t) (w : option string)
         (acc : bool * list Issue),
    follows prev rest ->
    nth_error (prev :: rest) n = Some a ->
    nth_error rest n = Some b ->
    w <> Some (ChainRow.current_hash a) ->
    walk prev (update_nth n (with_previous_hash w) rest) acc
    = (false, (snd acc ++ [broken_at a (with_previous_hash w b)])%list).
Proof.
  induction rest as [|r rest IH]; intros prev n a b w acc Hf Ha Hb Hw.
  - destruct n; discriminate.
  - destruct Hf as (Hp & Hrest). destruct n as [|n].
    + cbn in Ha, Hb. injection Ha as <-. injection Hb as <-.
      cbn [update_nth walk]. unfold check_link at 1.
      cbn [with_previous_hash ChainRow.previous_hash ChainRow.current_hash].
      apply strict_neq_true in Hw. rewrite Hw.
      apply follows_clean_walk.
      destruct rest as [|c rest']; [exact I|]. exact Hrest.
    + cbn in Ha, Hb. cbn [update_nth walk]. unfold check_link at 1.
      apply strict_neq_false in Hp. rewrite Hp.
      apply (IH r n a b w acc Hrest Ha Hb Hw).
Qed.

(** One link given another [current_hash]: the loop reports the next link. *)
Lemma walk_current_hash_edited (rest : list ChainRow.t) :
  forall (prev : ChainRow.t) (n : nat) (a b : ChainRow.t) (h : string)
         (acc : bool * list Issue),
    follows prev rest ->
    nth_error rest n = Some a ->
    nth_error rest (S n) = Some b ->
    h <> ChainRow.current_hash a ->
    walk prev (update_nth n (with_current_hash h) rest) acc
    = (false, (snd acc ++ [broken_at (with_current_hash h a) b])%list).
Proof.
  induction rest as [|r rest IH]; intros prev n a b h acc Hf Ha Hb Hh.
  - destruct n; discriminate.
  - destruct Hf as (Hp & Hrest). destruct n as [|n].
    + cbn in Ha. injection Ha as <-. cbn in Hb.
      destruct rest as [|c rest']; [discriminate|]. cbn in Hb. injection Hb as <-.
      destruct Hrest as (Hc & Hrest').
      cbn [update_nth walk]. unfold check_link at 2.
      cbn [with_current_hash ChainRow.previous_hash].
      apply strict_neq_false in Hp. rewrite Hp.
      unfold check_link.
      cbn [with_current_hash ChainRow.current_hash].
      assert (Hneq : strict_neq (ChainRow.previous_hash c) h = true).
      { apply strict_neq_true. rewrite Hc. intros Heq; injection Heq as Heq.
        apply Hh; symmetry; exact Heq. }
      rewrite Hneq. apply follows_clean_walk. exact Hrest'.
    + cbn in Ha, Hb. cbn [update_nth walk]. unfold check_link at 1.
      apply strict_neq_false in Hp. rewrite Hp.
      apply (IH r n a b h acc Hrest Ha Hb Hh).
Qed.

(** The last link given another [current_hash]: no iteration reads it. *)
Lemma walk_last_current_hash_edited (rest : list ChainRow.t) :
  forall (prev : ChainRow.t) (n : nat) (a : ChainRow.t) (h : string)
         (acc : bool * list Issue),
    nth_error rest n = Some a ->
    nth_error rest (S n) = None ->
    walk prev (update_nth n (with_current_hash h) rest) acc = walk prev rest acc.
Proof.
  induction rest as [|r rest IH]; intros prev n a h acc Ha Hlast;
    [destruct n; discriminate|].
  destruct n as [|n].
  - cbn in Hlast. destruct rest as [|c rest']; [|discriminate]. reflexivity.
  - cbn in Ha, Hlast. cbn [update_nth walk]. apply (IH r n a h _ Ha Hlast).
Qed.

(** The loop reads the link before the first iteration for its
    [current_hash] only. *)
Lemma walk_from_current_hash (prev prev' : ChainRow.t) (rest : list ChainRow.t)
    (acc : bool * list Issue) :
  ChainRow.current_hash prev = ChainRow.current_hash prev' ->
  walk prev rest acc = walk prev' rest acc.
Proof.
  intros Hsame. destruct rest as [|cur rest]; [reflexivity|].
  cbn [walk]. unfold check_link. rewrite Hsame. reflexivity.
Qed.

Lemma map_update_nth {A B : Type} (g : A -> B) (f : A -> A) (l : list A) :
  (forall x, g (f x) = g x) -> forall n, map g (update_nth n f l) = map g l.
Proof.
  intros Hg. induction l as [|x rest IH]; intros n; destruct n; cbn; try reflexivity.
  - now rewrite Hg.
  - now rewrite IH.
Qed.

Lemma length_update_nth {A : Type} (f : A -> A) (l : list A) :
  forall n, length (update_nth n f l) = length l.
Proof.
  induction l as [|x rest IH]; intros n; destruct n; cbn; try reflexivity. now rewrite IH.
Qed.

Lemma sorted_ordered (rows : list ChainRow.t) :
  StronglySorted Z.le (map ChainRow.chain_position rows) ->
  order_by_chain_position rows = rows.
Proof.
  induction rows as [|r rest IH]; intros Hs; [reflexivity|].
  cbn [map] in Hs. apply StronglySorted_inv in Hs. destruct Hs as (Hrest & Hall).
  unfold order_by_chain_position in *; cbn [fold_right]. rewrite (IH Hrest).
  apply insert_by_position_head. intros x Hx.
  rewrite Forall_forall in Hall. apply Hall, in_map, Hx.
Qed.

(** C2 (as amended). [verifyProvenanceChain] reads the chain table only:
    whatever column of whatever event record is overwritten, it answers as
    before. What it reports is an edit of a stored link hash that a later
    comparison reads. On a chain stored in position order that it reports
    valid, overwriting the [current_hash] of a link that has a successor
    with another value, nothing else being recomputed, yields exactly one
    issue, at the position of the next link; overwriting the
    [previous_hash] of a link that has a predecessor yields exactly one
    issue, at the position of that link itself. The two hashes that no
    comparison reads can be overwritten unnoticed: after an edit of the
    [current_hash] of the last link (the only link of a one-link chain
    included), or of the [previous_hash] of the first link, the answer is
    the one given before the edit. *)
Theorem tampering_shows_only_in_link_hashes :
  forall (d : ProvenanceDatabase),
    (forall (err : option Error) (n : nat) (ed : EventEdit),
        snd (verifyProvenanceChain err (tamper_event n ed d))
        = snd (verifyProvenanceChain err d)) /\
    (forall (status : ChainStatus) (n : nat) (a b : ChainRow.t),
        stored_in_position_order d ->
        snd (verifyProvenanceChain None d) = Resolved status ->
        isValid status = true ->
        nth_error (provenance_chain d) n = Some a ->
        nth_error (provenance_chain d) (S n) = Some b ->
        (forall h, h <> ChainRow.current_hash a ->
           snd (verifyProvenanceChain None (tamper_link n (with_current_hash h) d))
           = Resolved {| isValid := false;
                         totalEvents := totalEvents status;
                         issues := [ {| position := ChainRow.chain_position b;
                                        issue := "Hash chain broken";
                                        expected := h;
                                        actual := ChainRow.previous_hash b |} ] |}) /\
        (forall w, w <> Some (ChainRow.current_hash a) ->
           snd (verifyProvenanceChain None (tamper_link (S n) (with_previous_hash w) d))
           = Resolved {| isValid := false;
                         totalEvents := totalEvents status;
                         issues := [ {| position := ChainRow.chain_position b;
                                        issue := "Hash chain broken";
                                        expected := ChainRow.current_hash a;
                                        actual := w |} ] |})) /\
    (forall (n : nat) (a : ChainRow.t) (h : string),
        stored_in_position_order d ->
        nth_error (provenance_chain d) n = Some a ->
        nth_error (provenance_chain d) (S n) = None ->
        snd (verifyProvenanceChain None (tamper_link n (with_current_hash h) d))
        = snd (verifyProvenanceChain None d)) /\
    (forall (w : option string),
        stored_in_position_order d ->
        snd (verifyProvenanceChain None (tamper_link 0 (with_previous_hash w) d))
        = snd (verifyProvenanceChain None d)).
Proof.
  intros d.
  assert (Hsame : stored_in_position_order d ->
                  forall f m,
                    (forall x, ChainRow.chain_position (f x) = ChainRow.chain_position x) ->
                    order_by_chain_position (update_nth m f (provenance_chain d))
                    = update_nth m f (provenance_chain d)).
  { intros Hsorted f m Hf. apply sorted_ordered.
    rewrite (map_update_nth _ _ _ Hf). exact Hsorted. }
  split; [|split; [|split]].
  - intros err n ed. rewrite !verifyProvenanceChain_run. reflexivity.
  - intros status n a b Hsorted Hstatus Hvalid Ha Hb. clear Hsame.
    rewrite verifyProvenanceChain_run in Hstatus. cbn [snd] in Hstatus.
    injection Hstatus as <-. cbn [isValid totalEvents] in *.
    unfold stored_in_position_order in Hsorted.
    rewrite (sorted_ordered _ Hsorted) in *.
    assert (Hsame : forall f m,
               (forall x, ChainRow.chain_position (f x) = ChainRow.chain_position x) ->
               order_by_chain_position (update_nth m f (provenance_chain d))
               = update_nth m f (provenance_chain d)).
    { intros f m Hf. apply sorted_ordered. rewrite (map_update_nth _ _ _ Hf). exact Hsorted. }
    destruct (provenance_chain d) as [|first rest] eqn:Hrows; [destruct n; discriminate|].
    cbn [check_rows] in Hvalid. apply walk_valid_follows in Hvalid.
    split.
    + intros h Hh. rewrite verifyProvenanceChain_run.
      cbn [snd tamper_link provenance_chain]. rewrite Hrows.
      rewrite (Hsame (with_current_hash h) n) by reflexivity.
      rewrite length_update_nth.
      destruct n as [|n].
      * cbn in Ha. injection Ha as <-. cbn in Hb.
        destruct rest as [|c rest']; [discriminate|]. cbn in Hb. injection Hb as <-.
        destruct Hvalid as (Hc & Hrest').
        cbn [update_nth check_rows walk]. unfold check_link.
        cbn [with_current_hash ChainRow.current_hash].
        assert (Hneq : strict_neq (ChainRow.previous_hash c) h = true).
        { apply strict_neq_true. rewrite Hc. intros Heq; injection Heq as Heq.
          apply Hh; symmetry; exact Heq. }
        rewrite Hneq, (follows_clean_walk _ _ _ Hrest'). reflexivity.
      * cbn in Ha, Hb. cbn [update_nth check_rows].
        rewrite (walk_current_hash_edited _ _ _ _ _ _ _ Hvalid Ha Hb Hh). reflexivity.
    + intros w Hw. rewrite verifyProvenanceChain_run.
      cbn [snd tamper_link provenance_chain]. rewrite Hrows.
      rewrite (Hsame (with_previous_hash w) (S n)) by reflexivity.
      rewrite length_update_nth.
      cbn [update_nth check_rows]. cbn in Hb.
      rewrite (walk_previous_hash_edited _ _ _ _ _ _ _ Hvalid Ha Hb Hw). reflexivity.
  - intros n a h Hsorted Ha Hlast. rewrite !verifyProvenanceChain_run.
    cbn [snd tamper_link provenance_chain].
    rewrite (Hsame Hsorted (with_current_hash h) n) by reflexivity.
    rewrite (sorted_ordered _ Hsorted), length_update_nth.
    destruct (provenance_chain d) as [|first rest]; [destruct n; discriminate|].
    destruct n as [|n].
    + cbn in Hlast. destruct rest as [|c rest']; [|discriminate]. reflexivity.
    + cbn in Ha, Hlast. cbn [update_nth check_rows].
      rewrite (walk_last_current_hash_edited _ _ _ _ h _ Ha Hlast). reflexivity.
  - intros w Hsorted. rewrite !verifyProvenanceChain_run.
    cbn [snd tamper_link provenance_chain].
    rewrite (Hsame Hsorted (with_previous_hash w) 0%nat) by reflexivity.
    rewrite (sorted_ordered _ Hsorted), length_update_nth.
    destruct (provenance_chain d) as [|first rest]; [reflexivity|].
    cbn [update_nth check_rows].
    rewrite (walk_from_current_hash (with_previous_hash w first) first) by reflexivity.
    reflexivity.
Qed.

(* ================================================================== *)
(** * The statements on a concrete run *)
(* ================================================================== *)

Lemma chain_of_clean_creations_witness :
  Forall (@no_injected_failure example_runtime absent_chip) [call_A; call_B] /\
  NoDup (event_ids [call_A; call_B]) /\
  map ChainRow.chain_position
      (order_by_chain_position (provenance_chain (db after_A_B))) = [1%Z; 2%Z] /\
  snd (verifyProvenanceChain None (db after_A_B))
  = Resolved {| isValid := true; totalEvents := 2; issues := [] |}.
Proof.
  assert (Hclean : Forall (@no_injected_failure example_runtime absent_chip) [call_A; call_B]).
  { repeat constructor; try (eexists; reflexivity); intros data; eexists; reflexivity. }
  assert (Hids : NoDup (event_ids [call_A; call_B])).
  { repeat constructor; cbn; intuition discriminate. }
  split; [exact Hclean|]. split; [exact Hids|].
  destruct (@chain_of_clean_creations example_runtime absent_chip None [call_A; call_B]
              Hclean Hids) as (_ & _ & _ & Hpos & Hvalid).
  split; [exact Hpos | exact Hvalid].
Defined.

Lemma verifyProvenanceChain_valid_iff_no_issue_witness :
  exists status,
    snd (verifyProvenanceChain None (db after_A_B)) = Resolved status /\
    (isValid status = true <-> issues status = []).
Proof.
  destruct (verifyProvenanceChain_valid_iff_no_issue None (db after_A_B))
    as (_ & _ & _ & _ & Hres & Hiff).
  destruct (Hres eq_refl) as (status & Hstatus).
  exists status. split; [exact Hstatus | exact (Hiff status Hstatus)].
Defined.

Lemma current_hash_recomputed_from_store_witness :
  @JSON_parse example_runtime "" = None /\
  Forall (fun c => @roundtrips example_runtime (triggerData c)) [call_A; call_B] /\
  exists ev h,
    snd (@getEventById example_runtime None "id-b" (db after_A_B)) = Resolved (Some ev) /\
    JoinedRow.current_hash (Event.row ev) = Some h /\
    JoinedRow.chain_position (Event.row ev) = Some 2%Z /\
    @recompute_hash example_runtime ev = h.
Proof.
  assert (Hempty : @JSON_parse example_runtime "" = None) by reflexivity.
  assert (Hcalls : Forall (fun c => @roundtrips example_runtime (triggerData c))
                          [call_A; call_B]).
  { repeat constructor. }
  split; [exact Hempty|]. split; [exact Hcalls|].
  eexists; eexists.
  split; [vm_compute; reflexivity|]. split; [reflexivity|]. split; [reflexivity|].
  destruct (@current_hash_recomputed_from_store example_runtime absent_chip None
              [call_A; call_B] Hempty Hcalls) as (_ & Hre).
  apply (Hre "id-b"); reflexivity.
Defined.

(** ** Creations that overlap *)

Lemma uninterrupted_await_in_try {S A B : Type} (body : Stretch S B) (m : M S A)
    (rest : A -> Stretch S B) (handler : Error -> Stretch S B) (s : S) :
  body s = await_in_try m rest handler s ->
  uninterrupted body s =
  match m s with
  | (s', Resolved a) => uninterrupted (rest a) s'
  | (s', Rejected e) => uninterrupted (handler e) s'
  | (s', Uncaught e) => (s', Uncaught e)
  end.
Proof.
  unfold uninterrupted, await_in_try. intros ->.
  destruct (m s) as (s' & [a|e|e]); cbn [settle]; reflexivity.
Qed.

Ltac resume_at_once := erewrite uninterrupted_await_in_try by reflexivity.

Section Uninterrupted.

Context {rt : Runtime}.

Lemma uninterrupted_createUnsignedRecord (env : Env) (eventType : string)
    (triggerData : JSON) (imageData : ImageData) (this : ProvenanceTracker) :
  uninterrupted (InFlight.createUnsignedRecord env eventType triggerData imageData) this
  = createUnsignedRecord env eventType triggerData imageData this.
Proof.
  unfold InFlight.createUnsignedRecord, createUnsignedRecord.
  cbv zeta. resume_at_once.
  unfold try_catch, bind, call, gets, ret, throw, set_lastHash, modify, settled.
  destruct (getPreciseTimestamp env) as [rtcTimestamp|e]; [|reflexivity].
  resume_at_once.
  destruct (this_db (logEvent _ _ _) this) as (s1 & [u|e|e]); try reflexivity.
  resume_at_once.
  destruct (this_db (addToProvenanceChain _ _ _ _ _) s1) as (s2 & [position|e|e]);
    reflexivity.
Qed.

(** A call in flight that nothing interrupts is the call as the engine
    section has it. *)
Lemma uninterrupted_createProvenanceRecord (env env' : Env) (eventType : string)
    (triggerData : JSON) (imageData : ImageData) (this : ProvenanceTracker) :
  uninterrupted (InFlight.createProvenanceRecord env env' eventType triggerData imageData)
                this
  = createProvenanceRecord env env' eventType triggerData imageData this.
Proof.
  unfold InFlight.createProvenanceRecord, createProvenanceRecord.
  cbv zeta. resume_at_once.
  unfold try_catch, bind, call, gets, ret, throw, set_lastHash, modify, await.
  destruct (getPreciseTimestamp env) as [rtcTimestamp|e];
    [|apply uninterrupted_createUnsignedRecord].
  resume_at_once.
  destruct (signData _ _ _) as [signatureInfo|e|e];
    [|apply uninterrupted_createUnsignedRecord|reflexivity].
  resume_at_once.
  destruct (this_db (logEvent _ _ _) this) as (s1 & [u|e|e]);
    [|apply uninterrupted_createUnsignedRecord|reflexivity].
  resume_at_once.
  destruct (this_db (addToProvenanceChain _ _ _ _ _) s1) as (s2 & [position|e|e]);
    [reflexivity|apply uninterrupted_createUnsignedRecord|reflexivity].
Qed.

(** One call in flight, resumed until it has settled, leaves what [create]
    leaves. *)
Lemma settle_create (c : Call) (this : ProvenanceTracker) :
  settle (InFlight.create c) this = create c this.
Proof.
  unfold InFlight.create, create. cbn [settle].
  apply (uninterrupted_createProvenanceRecord (env c) (env' c)).
Qed.

End Uninterrupted.

(** C5 (fails on the code). Two triggers, A and B, on a new store, nothing
    failing. B arrives while A waits for its INSERT into the chain table:
    B builds [eventData] with [previousHash: this.lastHash], still null, and
    calls the signer; A goes on and sets [this.lastHash] to its hash; B goes
    on, and hands [this.lastHash], read a second time, to
    [addToProvenanceChain]. Both calls resolve with signed records. The
    link stored for B has the hash of A as [previous_hash], whereas its
    [current_hash] was computed over [previousHash: null]: recomputed from
    the stored row and link, the hash is not the stored one. The chain is
    reported valid all the same. Served one after the other, the same two
    calls leave the store of [after_A_B]. *)
Theorem overlapping_creation_stores_a_hash_that_does_not_recompute :
  let started := @startup example_runtime None empty_database absent_chip in
  let calls := [@InFlight.create example_runtime call_A;
                @InFlight.create example_runtime call_B] in
  let overlapped := event_loop second_reads_before_first_advances calls started in
  fst (event_loop one_after_the_other calls started) = after_A_B /\
  (exists a b ev,
      snd overlapped = [Settled (Resolved a); Settled (Resolved b)] /\
      ProvenanceRecord.signed a = true /\
      ProvenanceRecord.signed b = true /\
      ProvenanceRecord.eventId b = "id-b" /\
      snd (@getEventById example_runtime None "id-b" (db (fst overlapped)))
      = Resolved (Some ev) /\
      JoinedRow.chain_position (Event.row ev) = Some 2%Z /\
      JoinedRow.previous_hash (Event.row ev) = Some (ProvenanceRecord.currentHash a) /\
      JoinedRow.current_hash (Event.row ev) = Some (ProvenanceRecord.currentHash b) /\
      @calculateEventHash example_runtime
        (stored_eventData (JoinedRow.e (Event.row ev)) (Event.trigger_data ev) None)
        (EventRow.signature (JoinedRow.e (Event.row ev)))
      = ProvenanceRecord.currentHash b /\
      @recompute_hash example_runtime ev <> ProvenanceRecord.currentHash b) /\
  snd (verifyProvenanceChain None (db (fst overlapped)))
  = Resolved {| isValid := true; totalEvents := 2; issues := [] |}.
Proof.
  cbv zeta. split; [vm_compute; reflexivity|]. split; [|vm_compute; reflexivity].
  eexists; eexists; eexists.
  split; [vm_compute; reflexivity|].
  repeat (split; [vm_compute; reflexivity|]).
  vm_compute. discriminate.
Qed.

Lemma verifyEvent_missing_or_unsigned_witness :
  has_event_id "id-zz" (events (db after_signer_dead)) = false /\
  snd (@verifyEvent example_runtime None (1 # 2) "id-zz" after_signer_dead)
  = Resolved event_not_found /\
  has_event_id "id-b2" (events (db after_signer_dead)) = true /\
  exists ev,
    snd (@verifyEvent example_runtime None (1 # 2) "id-b2" after_signer_dead)
    = Resolved (event_not_signed ev).
Proof.
  destruct (@verifyEvent_missing_or_unsigned example_runtime after_signer_dead None
              (1 # 2) "id-zz") as (_ & Hmissing & _).
  destruct (@verifyEvent_missing_or_unsigned example_runtime after_signer_dead None
              (1 # 2) "id-b2") as (_ & _ & Hunsigned).
  split; [reflexivity|]. split; [exact (Hmissing eq_refl eq_refl)|]. split; [reflexivity|].
  destruct (Hunsigned eq_refl eq_refl) as (ev & Hev & _).
  - intros e He Hid. vm_compute in He. destruct He as [<-|[<-|[]]].
    + discriminate Hid.
    + split; [reflexivity|]. split; vm_compute; discriminate.
  - exists ev. exact Hev.
Defined.

Lemma signer_failure_yields_unsigned_record_witness :
  @signer_fails example_runtime (crypto after_A) dead_signer /\
  exists record,
    snd (@create example_runtime call_B_signer_dead after_A) = Resolved record /\
    ProvenanceRecord.signed record = false /\
    ProvenanceRecord.eventId record = "id-b2" /\
    DbRecord.signature (ProvenanceRecord.dbRecord record) = None.
Proof.
  assert (Hdead : @signer_fails example_runtime (crypto after_A) dead_signer).
  { intros data; eexists; reflexivity. }
  split; [exact Hdead|].
  destruct (@signer_failure_yields_unsigned_record example_runtime after_A
              (env call_B_signer_dead) (env' call_B_signer_dead)
              "motion_detection" manual_trigger frame
              "2024-05-01T10:00:00.000Z" "2024-05-01T10:00:00.000Z"
              eq_refl Hdead eq_refl eq_refl eq_refl eq_refl eq_refl)
    as (record & Hres & Hsigned & Hid & Hsig & _).
  exists record. split; [exact Hres|]. split; [exact Hsigned|]. split; [exact Hid | exact Hsig].
Defined.

Lemma chain_append_failure_is_retried_witness :
  exists record,
    snd (@create example_runtime call_B_chain_hiccup after_A) = Resolved record /\
    ProvenanceRecord.signed record = false /\
    ProvenanceRecord.eventId record = "id-b2" /\
    map EventRow.event_id
        (events (db (fst (@create example_runtime call_B_chain_hiccup after_A))))
    = ["id-a"; "id-b"; "id-b2"] /\
    map ChainRow.event_id
        (provenance_chain (db (fst (@create example_runtime call_B_chain_hiccup after_A))))
    = ["id-a"; "id-b2"] /\
    lastHash (fst (@create example_runtime call_B_chain_hiccup after_A))
    = Some (ProvenanceRecord.currentHash record).
Proof.
  destruct (@chain_append_failure_is_retried example_runtime after_A
              (env call_B_chain_hiccup) (env' call_B_chain_hiccup)
              "motion_detection" manual_trigger frame
              "2024-05-01T10:00:00.000Z" "2024-05-01T10:00:00.000Z"
              {| si_signature := "3046022100"; si_algorithm := "ECDSA-SHA256";
                 si_keyId := "SOFTWARE-FALLBACK"; si_hardware := false |}
              eq_refl eq_refl eq_refl eq_refl
              (or_intror (fun Hx : Some "SQLITE_IOERR: disk I/O error" = None =>
                            eq_ind (Some "SQLITE_IOERR: disk I/O error")
                                   (fun o => match o with Some _ => True | None => False end)
                                   I None Hx))
              eq_refl eq_refl eq_refl eq_refl)
    as (record & row & row' & Hres & Hsigned & Hid & Hrow & Hrow' & He & Hc & Hl).
  - vm_compute; discriminate.
  - reflexivity.
  - change (@create example_runtime call_B_chain_hiccup after_A)
      with (@createProvenanceRecord example_runtime
              (env call_B_chain_hiccup) (env' call_B_chain_hiccup)
              "motion_detection" manual_trigger frame after_A).
    exists record. split; [exact Hres|]. split; [exact Hsigned|]. split; [exact Hid|].
    split; [|split; [|exact Hl]].
    + rewrite He, map_app. cbn [map]. rewrite Hrow, Hrow'. reflexivity.
    + rewrite Hc, map_app. reflexivity.
Defined.

(** C2 (as stated) fails: in the store left by two creations, which
    [verifyProvenanceChain] reports valid, the image hash of the first
    event record is overwritten and no link is touched; the chain is still
    reported valid, with no issue at all. *)
Lemma event_tampering_goes_unreported :
  snd (verifyProvenanceChain None (db after_A_B))
  = Resolved {| isValid := true; totalEvents := 2; issues := [] |} /\
  events (tamper_event 0 (SET_image_hash (Some "sha256(forged)")) (db after_A_B))
  <> events (db after_A_B) /\
  provenance_chain (tamper_event 0 (SET_image_hash (Some "sha256(forged)")) (db after_A_B))
  = provenance_chain (db after_A_B) /\
  exists status,
    snd (verifyProvenanceChain
           None (tamper_event 0 (SET_image_hash (Some "sha256(forged)")) (db after_A_B)))
    = Resolved status /\
    isValid status = true /\
    issues status = [] /\
    ~ (exists i, issues status = [i]).
Proof.
  split; [reflexivity|]. split; [vm_compute; discriminate|]. split; [reflexivity|].
  eexists. split; [reflexivity|]. split; [reflexivity|]. split; [reflexivity|].
  intros [i Hi]. discriminate Hi.
Qed.

Lemma tampering_shows_only_in_link_hashes_witness :
  stored_in_position_order (db after_A_B) /\
  exists a b,
    nth_error (provenance_chain (db after_A_B)) 0 = Some a /\
    nth_error (provenance_chain (db after_A_B)) 1 = Some b /\
    nth_error (provenance_chain (db after_A_B)) 2 = None /\
    snd (verifyProvenanceChain
           None (tamper_link 1 (with_previous_hash (Some "wrong")) (db after_A_B)))
    = Resolved {| isValid := false;
                  totalEvents := 2;
                  issues := [ {| position := 2;
                                 issue := "Hash chain broken";
                                 expected := ChainRow.current_hash a;
                                 actual := Some "wrong" |} ] |} /\
    snd (verifyProvenanceChain
           None (tamper_link 0 (with_current_hash "forged") (db after_A_B)))
    = Resolved {| isValid := false;
                  totalEvents := 2;
                  issues := [ {| position := 2;
                                 issue := "Hash chain broken";
                                 expected := "forged";
                                 actual := Some (ChainRow.current_hash a) |} ] |} /\
    snd (verifyProvenanceChain
           None (tamper_link 1 (with_current_hash "forged") (db after_A_B)))
    = Resolved {| isValid := true; totalEvents := 2; issues := [] |} /\
    snd (verifyProvenanceChain
           None (tamper_event 1 (SET_signature None) (db after_A_B)))
    = snd (verifyProvenanceChain None (db after_A_B)).
Proof.
  assert (Hsorted : stored_in_position_order (db after_A_B)).
  { unfold stored_in_position_order. vm_compute.
    repeat constructor; discriminate. }
  split; [exact Hsorted|].
  destruct (tampering_shows_only_in_link_hashes (db after_A_B))
    as (Hevents & Hlinks & Hlast & _).
  eexists; eexists. split; [reflexivity|]. split; [reflexivity|]. split; [reflexivity|].
  match goal with
  | |- context [ChainRow.current_hash ?a] =>
      destruct (Hlinks {| isValid := true; totalEvents := 2; issues := [] |} 0%nat a
                  {| ChainRow.event_id := "id-b";
                     ChainRow.previous_hash := Some (ChainRow.current_hash a);
                     ChainRow.current_hash :=
                       match nth_error (provenance_chain (db after_A_B)) 1 with
                       | Some b => ChainRow.current_hash b
                       | None => ""
                       end;
                     ChainRow.chain_position := 2 |}
                  Hsorted eq_refl eq_refl eq_refl eq_refl) as (Hcur & Hprev)
  end.
  split; [apply Hprev; vm_compute; discriminate|].
  split; [apply Hcur; vm_compute; discriminate|].
  split; [|apply Hevents].
  match goal with
  | |- context [tamper_link 1 (with_current_hash ?h) ?d] =>
      match eval vm_compute in (nth_error (provenance_chain d) 1) with
      | Some ?b => exact (Hlast 1%nat b h Hsorted eq_refl eq_refl)
      end
  end.
Defined.

(** ** Start-up after a failed creation *)

Lemma insert_newest_first_In (r x : JoinedRow.t) (sorted : list JoinedRow.t) :
  In x (insert_newest_first r sorted) -> x = r \/ In x sorted.
Proof.
  induction sorted as [|y rest IH]; cbn [insert_newest_first].
  - intros [<-|[]]; left; reflexivity.
  - destruct (Z.leb _ _).
    + intros [<-|Hin]; [left; reflexivity | right; exact Hin].
    + intros [<-|Hin]; [right; left; reflexivity|].
      destruct (IH Hin) as [->|Hrest]; [left; reflexivity | right; right; exact Hrest].
Qed.

Lemma order_by_created_at_desc_In (rows : list JoinedRow.t) (x : JoinedRow.t) :
  In x (order_by_created_at_desc rows) -> In x rows.
Proof.
  induction rows as [|r rest IH]; [intros []|].
  unfold order_by_created_at_desc in *; cbn [fold_right]. intros Hin.
  destruct (insert_newest_first_In _ _ _ Hin) as [->|Hrest];
    [left; reflexivity | right; apply IH, Hrest].
Qed.

(** The row that is strictly newer than every other row comes first. *)
Lemma newest_row_first (rows : list JoinedRow.t) (r0 : JoinedRow.t) :
  In r0 rows ->
  (forall r, In r rows ->
             r = r0 \/ (EventRow.created_at (JoinedRow.e r)
                        < EventRow.created_at (JoinedRow.e r0))%Z) ->
  exists rest, order_by_created_at_desc rows = r0 :: rest.
Proof.
  induction rows as [|x xs IH]; intros Hin Hnewest; [contradiction|].
  unfold order_by_created_at_desc in *; cbn [fold_right].
  destruct (Hnewest x (or_introl eq_refl)) as [->|Hlt].
  - destruct (fold_right insert_newest_first [] xs) as [|y ys] eqn:Hsorted.
    + exists []; reflexivity.
    + cbn [insert_newest_first].
      assert (Hy : In y xs).
      { apply order_by_created_at_desc_In. unfold order_by_created_at_desc.
        rewrite Hsorted; left; reflexivity. }
      destruct (Hnewest y (or_intror Hy)) as [->|Hlt].
      * rewrite Z.leb_refl. eexists; reflexivity.
      * destruct (Z.leb_spec (EventRow.created_at (JoinedRow.e y))
                             (EventRow.created_at (JoinedRow.e r0))); [|lia].
        eexists; reflexivity.
  - destruct Hin as [->|Hin]; [lia|].
    destruct (IH Hin (fun r Hr => Hnewest r (or_intror Hr))) as (rest & Hrest).
    fold (order_by_created_at_desc xs). fold (order_by_created_at_desc xs) in Hrest.
    rewrite Hrest. cbn [insert_newest_first].
    destruct (Z.leb_spec (EventRow.created_at (JoinedRow.e r0))
                         (EventRow.created_at (JoinedRow.e x))); [lia|].
    eexists; reflexivity.
Qed.

Lemma insert_by_position_nonempty (r : ChainRow.t) (sorted : list ChainRow.t) :
  insert_by_position r sorted <> [].
Proof. destruct sorted as [|x rest]; cbn; [|destruct (Z.leb _ _)]; discriminate. Qed.

Lemma tail_hash_of_nonempty (rows : list ChainRow.t) :
  rows <> [] -> tail_hash rows <> None.
Proof.
  intros Hne. unfold tail_hash.
  destruct (rev (order_by_chain_position rows)) as [|r rest] eqn:Hrev; [|discriminate].
  exfalso. apply (f_equal (@rev _)) in Hrev. rewrite rev_involutive in Hrev. cbn in Hrev.
  destruct rows as [|x xs]; [contradiction|].
  unfold order_by_chain_position in Hrev; cbn [fold_right] in Hrev.
  apply (insert_by_position_nonempty _ _ Hrev).
Qed.

Section Startup.

Context {rt : Runtime}.

(** C8 (what the code does). [initialize] seeds the cursor from the newest
    event row, not from the chain table. When the newest event row has no
    link (the chain append failed after the event was written) the joined
    [current_hash] that [getEvents(1, 0)] returns for it is NULL, and a
    tracker started on that database is left with a null cursor although
    the chain has a tail. *)
Theorem cursor_lost_when_newest_event_has_no_link :
  forall (d : ProvenanceDatabase) (device : ATECC608) (e : EventRow.t),
    In e (events d) ->
    (forall e', In e' (events d) ->
                e' = e \/ (EventRow.created_at e' < EventRow.created_at e)%Z) ->
    (forall p, In p (provenance_chain d) -> ChainRow.event_id p <> EventRow.event_id e) ->
    provenance_chain d <> [] ->
    lastHash (startup None d device) = None /\
    tail_hash (provenance_chain (db (startup None d device))) <> None.
Proof.
  intros d device e He Hnewest Hnolink Hchain.
  assert (Hrow : In (joined e None) (left_join (events d) (provenance_chain d))).
  { unfold left_join. apply in_flat_map. exists e. split; [exact He|].
    destruct (filter _ _) as [|p ps] eqn:Hf; [left; reflexivity|].
    assert (Hp : In p (filter (fun p => String.eqb (EventRow.event_id e) (ChainRow.event_id p))
                              (provenance_chain d))).
    { rewrite Hf; left; reflexivity. }
    apply filter_In in Hp. destruct Hp as (Hp & Heq). apply String.eqb_eq in Heq.
    exfalso. apply (Hnolink p Hp). symmetry; exact Heq. }
  assert (Hfirst : exists rest,
             order_by_created_at_desc (left_join (events d) (provenance_chain d))
             = joined e None :: rest).
  { apply newest_row_first; [exact Hrow|].
    intros r Hr. destruct (In_left_join _ _ _ Hr) as (Hre & Hlink).
    destruct (Hnewest _ Hre) as [Heq|Hlt]; [|right; exact Hlt].
    left. destruct Hlink as [Hnone|(p & Hp & Hid & _)].
    - rewrite Hnone, Heq. reflexivity.
    - exfalso. apply (Hnolink p Hp). rewrite <- Hid, Heq. reflexivity. }
  destruct Hfirst as (rest & Hfirst).
  unfold startup, initialize, new_ProvenanceTracker, getEvents, try_catch.
  change (negb (is_row_count 1 && is_row_count 0)) with false.
  change (@LIMIT JoinedRow.t 1) with (@firstn JoinedRow.t 1).
  change (@OFFSET JoinedRow.t 0) with (@skipn JoinedRow.t 0).
  run_monad. rewrite Hfirst. cbn [skipn firstn map parse_rows joined JoinedRow.e
                                  JoinedRow.current_hash JoinedRow.chain_position].
  destruct (parse_row _) as [ev|] eqn:Hparse; run_monad.
  - destruct (parse_row_fields _ _ Hparse) as (Hev & _). rewrite Hev.
    cbn [JoinedRow.current_hash]. split; [reflexivity | apply tail_hash_of_nonempty, Hchain].
  - split; [reflexivity | apply tail_hash_of_nonempty, Hchain].
Qed.

End Startup.

Lemma cursor_lost_when_newest_event_has_no_link_witness :
  map EventRow.event_id (events (db (@after_chain_down example_runtime absent_chip)))
  = ["id-a"; "id-b"; "id-b2"] /\
  map ChainRow.event_id (provenance_chain (db (@after_chain_down example_runtime absent_chip)))
  = ["id-a"] /\
  lastHash (@after_chain_down example_runtime absent_chip)
  = tail_hash (provenance_chain (db (@after_chain_down example_runtime absent_chip))) /\
  lastHash (@startup example_runtime None
                     (db (@after_chain_down example_runtime absent_chip)) absent_chip)
  = None /\
  tail_hash (provenance_chain (db (@after_chain_down example_runtime absent_chip))) <> None.
Proof.
  split; [reflexivity|]. split; [reflexivity|]. split; [reflexivity|].
  destruct (@cursor_lost_when_newest_event_has_no_link example_runtime
              (db (@after_chain_down example_runtime absent_chip)) absent_chip
              (nth 2 (events (db (@after_chain_down example_runtime absent_chip)))
                   (event_row_of 0 (@unsigned_dbRecord example_runtime (quiet "" 0) "" ""
                                                       JNull frame))))
    as (Hcursor & Htail).
  - vm_compute. right; right; left; reflexivity.
  - intros e' He'. vm_compute in He'. destruct He' as [<-|[<-|[<-|[]]]].
    + right; vm_compute; reflexivity.
    + right; vm_compute; reflexivity.
    + left; vm_compute; reflexivity.
  - intros p Hp. vm_compute in Hp. destruct Hp as [<-|[]]. vm_compute. discriminate.
  - vm_compute. discriminate.
  - split; [exact Hcursor | exact Htail].
Defined.

(** What follows from it: the next creation, during which nothing fails,
    is appended at position 2 with a null [previous_hash], and the chain
    that was valid before the restart is reported broken there. *)
Lemma chain_broken_after_restart :
  let this := @after_chain_down example_runtime absent_chip in
  let restarted := @startup example_runtime None (db this) absent_chip in
  snd (verifyProvenanceChain None (db this))
  = Resolved {| isValid := true; totalEvents := 1; issues := [] |} /\
  exists h,
    tail_hash (provenance_chain (db this)) = Some h /\
    snd (verifyProvenanceChain None (db (@serve example_runtime [call_C] restarted)))
    = Resolved {| isValid := false;
                  totalEvents := 2;
                  issues := [ {| position := 2;
                                 issue := "Hash chain broken";
                                 expected := h;
                                 actual := None |} ] |}.
Proof.
  cbv zeta. split; [vm_compute; reflexivity|].
  eexists. split; vm_compute; reflexivity.
Qed.

(* ================================================================== *)
(** * More properties of the store and of the engine *)
(* ================================================================== *)

(** ** Appending a link *)

Lemma max_chain_position_attained (rows : list ChainRow.t) :
  forall m, max_chain_position rows = Some m ->
            exists p, In p rows /\ ChainRow.chain_position p = m.
Proof.
  induction rows as [|r rest IH]; intros m Hm; [discriminate|].
  cbn [max_chain_position] in Hm.
  destruct (max_chain_position rest) as [m'|].
  - injection Hm as <-. destruct (IH m' eq_refl) as (p & Hp & Hpos).
    destruct (Z.max_spec (ChainRow.chain_position r) m') as [(_ & ->)|(_ & ->)].
    + exists p. split; [right; exact Hp | exact Hpos].
    + exists r. split; [left; reflexivity | reflexivity].
  - injection Hm as <-. exists r. split; [left; reflexivity | reflexivity].
Qed.

Lemma max_chain_position_bounds (rows : list ChainRow.t) :
  forall p, In p rows ->
            exists m, max_chain_position rows = Some m /\ (ChainRow.chain_position p <= m)%Z.
Proof.
  induction rows as [|r rest IH]; intros p Hin; [contradiction|].
  cbn [max_chain_position]. destruct Hin as [<-|Hin].
  - destruct (max_chain_position rest) as [m|]; eexists; split; try reflexivity; lia.
  - destruct (IH p Hin) as (m & Hm & Hle). rewrite Hm.
    eexists; split; [reflexivity | lia].
Qed.

(** X1. On a chain table whose positions are safe integers (below 2^53
    in magnitude, where the numbers of JavaScript count without rounding), a
    link that [addToProvenanceChain] inserts gets a position above every
    stored position (position 1 on an empty table), is the only row added,
    and the events table is left alone; when the call rejects, neither
    table has changed. *)
Theorem addToProvenanceChain_position_is_new :
  forall (get_err run_err : option Error) (eventId : string) (previousHash : option string)
         (currentHash : string) (d : ProvenanceDatabase),
    safe_positions d ->
    let r := addToProvenanceChain get_err run_err eventId previousHash currentHash d in
    events (fst r) = events d /\
    (forall position,
        snd r = Resolved position ->
        provenance_chain (fst r)
        = (provenance_chain d
             ++ [{| ChainRow.event_id := eventId;
                    ChainRow.previous_hash := previousHash;
                    ChainRow.current_hash := currentHash;
                    ChainRow.chain_position := position |}])%list /\
        (forall p, In p (provenance_chain d) -> (ChainRow.chain_position p < position)%Z) /\
        (provenance_chain d = [] -> position = 1%Z) /\
        (position <= 9007199254740992)%Z) /\
    (forall e, snd r = Rejected e -> provenance_chain (fst r) = provenance_chain d) /\
    (forall e, snd r <> Uncaught e).
Proof.
  intros get_err run_err eventId previousHash currentHash d Hsafe r; subst r.
  run_monad.
  destruct get_err as [e|]; run_monad.
  { split; [reflexivity|]. split; [discriminate|]. split; [reflexivity | discriminate]. }
  destruct run_err as [e|]; run_monad.
  { split; [reflexivity|]. split; [discriminate|]. split; [reflexivity | discriminate]. }
  split; [reflexivity|]. split; [|split; discriminate].
  intros position Hpos. injection Hpos as <-. split; [reflexivity|]. split; [|split].
  - intros p Hp. destruct (max_chain_position_bounds _ _ Hp) as (m & Hm & Hle).
    rewrite Hm. unfold or_zero. destruct (Z.eqb_spec m 0); lia.
  - intros ->. reflexivity.
  - destruct (max_chain_position (provenance_chain d)) as [m|] eqn:Hm; [|cbn; lia].
    destruct (max_chain_position_attained _ _ Hm) as (p & Hp & <-).
    pose proof (Hsafe p Hp) as Hbound. unfold isSafeInteger in Hbound.
    unfold or_zero. destruct (Z.eqb_spec (ChainRow.chain_position p) 0); lia.
Qed.

Lemma addToProvenanceChain_position_is_new_witness :
  safe_positions gapped_database /\
  snd (addToProvenanceChain None None "id-c" None "h3" gapped_database) = Resolved 4%Z /\
  forall p, In p (provenance_chain gapped_database) -> (ChainRow.chain_position p < 4)%Z.
Proof.
  assert (Hsafe : safe_positions gapped_database).
  { intros p Hp. cbn in Hp. destruct Hp as [<-|[<-|[]]]; unfold isSafeInteger; cbn; lia. }
  split; [exact Hsafe|].
  destruct (addToProvenanceChain_position_is_new None None "id-c" None "h3" gapped_database
              Hsafe)
    as (_ & Hres & _).
  split; [reflexivity|]. apply (Hres 4%Z eq_refl).
Defined.

(** ** Writing an event and reading it back *)

Lemma has_event_id_false (eventId : string) (rows : list EventRow.t) :
  has_event_id eventId rows = false ->
  forall e, In e rows -> EventRow.event_id e <> eventId.
Proof.
  intros Hfresh e He Heq. rewrite <- Heq, (has_event_id_In _ _ He) in Hfresh. discriminate.
Qed.

Lemma left_join_app (es es' : list EventRow.t) (ps : list ChainRow.t) :
  left_join (es ++ es') ps = (left_join es ps ++ left_join es' ps)%list.
Proof. unfold left_join. apply flat_map_app. Qed.

Lemma filter_none {A : Type} (f : A -> bool) (l : list A) :
  (forall x, In x l -> f x = false) -> filter f l = [].
Proof.
  induction l as [|x rest IH]; intros Hall; [reflexivity|].
  cbn. rewrite (Hall x (or_introl eq_refl)). apply IH. intros y Hy. apply Hall. right; exact Hy.
Qed.

Lemma filter_all {A : Type} (f : A -> bool) (l : list A) :
  (forall x, In x l -> f x = true) -> filter f l = l.
Proof.
  induction l as [|x rest IH]; intros Hall; [reflexivity|].
  cbn. rewrite (Hall x (or_introl eq_refl)). f_equal. apply IH.
  intros y Hy. apply Hall. right; exact Hy.
Qed.

(** The rows of the join that carry an id no stored event has: none. *)
Lemma left_join_without_id (eventId : string) (es : list EventRow.t) (ps : list ChainRow.t) :
  has_event_id eventId es = false ->
  filter (fun r => String.eqb (EventRow.event_id (JoinedRow.e r)) eventId) (left_join es ps) = [].
Proof.
  intros Hfresh. apply filter_none. intros r Hr.
  destruct (In_left_join _ _ _ Hr) as (He & _).
  apply String.eqb_neq. apply (has_event_id_false _ _ Hfresh _ He).
Qed.

(** The rows of the join for one event: all of them carry that event. *)
Lemma left_join_one (e : EventRow.t) (ps : list ChainRow.t) :
  exists p rest,
    left_join [e] ps = joined e p :: rest /\
    (forall r, In r (joined e p :: rest) -> JoinedRow.e r = e) /\
    ((forall q, In q ps -> ChainRow.event_id q <> EventRow.event_id e) -> p = None).
Proof.
  unfold left_join. cbn [flat_map]. rewrite app_nil_r.
  destruct (filter _ ps) as [|p0 matches] eqn:Hf.
  - exists None, []. split; [reflexivity|]. split; [|reflexivity].
    intros r [<-|[]]. reflexivity.
  - exists (Some p0), (map (fun p => joined e (Some p)) matches).
    split; [reflexivity|]. split.
    + intros r Hr. change (In r (map (fun p => joined e (Some p)) (p0 :: matches))) in Hr.
      apply in_map_iff in Hr. destruct Hr as (p & <- & _). reflexivity.
    + intros Hnone. exfalso.
      assert (Hp : In p0 (filter (fun p => String.eqb (EventRow.event_id e) (ChainRow.event_id p))
                                 ps)).
      { rewrite Hf; left; reflexivity. }
      apply filter_In in Hp. destruct Hp as (Hp & Heq). apply String.eqb_eq in Heq.
      apply (Hnone p0 Hp). symmetry; exact Heq.
Qed.

Section RoundTrip.

Context {rt : Runtime}.

(** X2. [logEvent] resolves exactly when sqlite3 reports no I/O error and
    no stored event carries the id; otherwise it rejects and both tables
    are as before. After it has resolved, [getEventById] finds the event:
    the columns are those of the record, the two JSON columns parse back
    to the record's trigger payload and signature metadata (for values that
    survive [JSON.parse(JSON.stringify(..))]), and the link columns are
    NULL when no link carries the id; and a second [logEvent] under the
    same id rejects without touching the tables. *)
Theorem logEvent_then_getEventById :
  forall (err : option Error) (now : Z) (eventData : DbRecord.t) (d : ProvenanceDatabase),
    let r := logEvent err now eventData d in
    let eventId := DbRecord.eventId eventData in
    (snd r = Resolved tt <-> err = None /\ has_event_id eventId (events d) = false) /\
    provenance_chain (fst r) = provenance_chain d /\
    (snd r <> Resolved tt -> (exists e, snd r = Rejected e) /\ events (fst r) = events d) /\
    (snd r = Resolved tt ->
     events (fst r) = (events d ++ [event_row_of now eventData])%list /\
     (forall err' now' eventData',
         DbRecord.eventId eventData' = eventId ->
         (exists e, snd (logEvent err' now' eventData' (fst r)) = Rejected e) /\
         events (fst (logEvent err' now' eventData' (fst r))) = events (fst r) /\
         provenance_chain (fst (logEvent err' now' eventData' (fst r)))
         = provenance_chain (fst r)) /\
     (JSON_parse "" = None ->
      roundtrips (DbRecord.triggerData eventData) ->
      roundtrips (DbRecord.signatureInfo eventData) ->
      exists ev,
        snd (getEventById None eventId (fst r)) = Resolved (Some ev) /\
        JoinedRow.e (Event.row ev) = event_row_of now eventData /\
        Event.trigger_data ev = DbRecord.triggerData eventData /\
        Event.signature_info ev = DbRecord.signatureInfo eventData /\
        Event.verification_status ev = DbRecord.verificationStatus eventData /\
        ((forall q, In q (provenance_chain d) -> ChainRow.event_id q <> eventId) ->
         JoinedRow.current_hash (Event.row ev) = None /\
         JoinedRow.chain_position (Event.row ev) = None))).
Proof.
  intros err now eventData d r eventId; subst r eventId.
  unfold logEvent at 1 2 3 4 5 6; run_monad.
  destruct err as [e|]; run_monad.
  { split; [split; [discriminate | intros [Hx _]; discriminate]|].
    split; [reflexivity|]. split; [|discriminate].
    intros _. split; [eexists; reflexivity | reflexivity]. }
  destruct (has_event_id (DbRecord.eventId eventData) (events d)) eqn:Hfresh; run_monad.
  { split; [split; [discriminate | intros [_ Hx]; discriminate]|].
    split; [reflexivity|]. split; [|discriminate].
    intros _. split; [eexists; reflexivity | reflexivity]. }
  split; [split; [intros _; split; reflexivity | reflexivity]|].
  split; [reflexivity|]. split; [intros Hx; contradiction Hx; reflexivity|].
  intros _. split; [reflexivity|]. split.
  - intros err' now' eventData' Hid. unfold logEvent; run_monad.
    destruct err' as [e|]; run_monad.
    { split; [eexists; reflexivity | split; reflexivity]. }
    rewrite Hid, has_event_id_app, has_event_id_one. cbn [event_row_of EventRow.event_id].
    rewrite String.eqb_refl, orb_true_r. run_monad.
    split; [eexists; reflexivity | split; reflexivity].
  - intros Hempty Htd Hsi. rewrite getEventById_run.
    cbn [events provenance_chain]. rewrite left_join_app, filter_app.
    rewrite (left_join_without_id _ _ _ Hfresh). cbn [app].
    destruct (left_join_one (event_row_of now eventData) (provenance_chain d))
      as (p & rest & Hjoin & Hrows & Hnone).
    rewrite Hjoin, filter_all.
    2:{ intros x Hx. rewrite (Hrows x Hx). apply String.eqb_refl. }
    unfold parse_row. rewrite joined_e.
    cbn [event_row_of EventRow.trigger_data EventRow.signature_info
         EventRow.verification_status].
    rewrite (or_string_stringify Hempty _ Htd), Htd.
    rewrite (or_string_stringify Hempty _ Hsi), Hsi.
    eexists. split; [reflexivity|]. cbn [Event.row Event.trigger_data Event.signature_info
                                          Event.verification_status].
    rewrite joined_e.
    split; [reflexivity|]. split; [reflexivity|]. split; [reflexivity|]. split.
    + destruct (DbRecord.verificationStatus eventData); reflexivity.
    + intros Hq. rewrite (Hnone Hq). split; reflexivity.
Qed.

End RoundTrip.

(** ** What creations keep true, whatever fails *)

Lemma written_row_signed {rt : Runtime} (env : Env) (rtc eventType : string)
    (triggerData : JSON) (imageData : ImageData) (si : SignatureInfo) (now : Z) :
  written_row (event_row_of now (signed_dbRecord env rtc eventType triggerData imageData si)).
Proof. reflexivity. Qed.

Lemma written_row_unsigned {rt : Runtime} (env : Env) (rtc eventType : string)
    (triggerData : JSON) (imageData : ImageData) (now : Z) :
  written_row (event_row_of now (unsigned_dbRecord env rtc eventType triggerData imageData)).
Proof. reflexivity. Qed.

Section Shape.

Context {rt : Runtime}.

Lemma createUnsignedRecord_shape (env : Env) (eventType : string) (triggerData : JSON)
    (imageData : ImageData) (this : ProvenanceTracker) :
  let final := fst (createUnsignedRecord env eventType triggerData imageData this) in
  pass_without_link this final \/ pass_with_link this final.
Proof.
  cbv zeta. rewrite createUnsignedRecord_run.
  destruct (getPreciseTimestamp env) as [rtc|e]; [|left; left; repeat split].
  match goal with
  | |- context [persist ?en ?id ?h ?rec ?sg ?t] =>
      destruct (persist_cases en id h rec sg t eq_refl) as [[Hu _]|[[Ho _]|[Ha _]]]
  end.
  - left; left; exact Hu.
  - left; right; eexists; split; [apply written_row_unsigned | exact Ho].
  - right; eexists; eexists; split; [apply written_row_unsigned | exact Ha].
Qed.

Lemma create_shape (c : Call) (this : ProvenanceTracker) :
  creation_shape this (fst (create c this)).
Proof.
  unfold create, creation_shape. rewrite createProvenanceRecord_run.
  destruct (getPreciseTimestamp (env c)) as [rtc|e].
  2:{ right; exists this. split; [left; repeat split | apply createUnsignedRecord_shape]. }
  cbn zeta. destruct (signData _ _ _) as [si|e|e].
  2:{ right; exists this. split; [left; repeat split | apply createUnsignedRecord_shape]. }
  2:{ right; exists this. split; [left; repeat split | left; left; repeat split]. }
  match goal with
  | |- context [persist ?en ?id ?h ?rec ?sg ?t] =>
      pose proof (persist_cases en id h rec sg t eq_refl) as Hcases;
      cbv zeta in Hcases;
      set (r := persist en id h rec sg t) in *
  end.
  destruct Hcases as [[Hu (e & He)]|[[Ho (e & He)]|[Ha Hres]]].
  - rewrite He. right; exists (fst r). split; [left; exact Hu|].
    apply createUnsignedRecord_shape.
  - rewrite He. right; exists (fst r).
    split; [right; eexists; split; [apply written_row_signed | exact Ho]|].
    apply createUnsignedRecord_shape.
  - rewrite Hres. left. eexists; eexists; split; [apply written_row_signed | exact Ha].
Qed.

End Shape.

Lemma NoDup_event_ids_app (rows : list EventRow.t) (row : EventRow.t) :
  NoDup (map EventRow.event_id rows) ->
  has_event_id (EventRow.event_id row) rows = false ->
  NoDup (map EventRow.event_id (rows ++ [row])).
Proof.
  intros Hnd Hfresh. rewrite map_app. cbn [map].
  apply NoDup_app; [exact Hnd | repeat constructor; intros [] |].
  intros x Hx Hx'. destruct Hx' as [<-|[]].
  apply in_map_iff in Hx. destruct Hx as (e & He & Hin).
  apply (has_event_id_false _ _ Hfresh e Hin He).
Qed.

Lemma pass_without_link_intact (this mid : ProvenanceTracker) :
  chain_intact this -> pass_without_link this mid -> chain_intact mid.
Proof.
  intros (Hlinked & Hcursor & Hids & Hnde & Hndc & Hrows) [Hu|(row & Hrow & Ho)].
  - destruct Hu as (He & Hc & Hl & _). unfold chain_intact. rewrite He, Hc, Hl.
    repeat split; assumption.
  - destruct Ho as (Hfresh & He & Hc & Hl & _). unfold chain_intact. rewrite He, Hc, Hl.
    split; [exact Hlinked|]. split; [exact Hcursor|]. split; [|split; [|split]].
    + intros p Hp. rewrite has_event_id_app, (Hids p Hp). reflexivity.
    + apply NoDup_event_ids_app; assumption.
    + exact Hndc.
    + apply Forall_app. split; [exact Hrows | repeat constructor; exact Hrow].
Qed.

Lemma pass_with_link_intact (this final : ProvenanceTracker) :
  chain_intact this -> pass_with_link this final -> chain_intact final.
Proof.
  intros (Hlinked & Hcursor & Hids & Hnde & Hndc & Hrows) (row & h & Hrow & Ha).
  destruct (appended_linked _ _ _ _ Hlinked Hcursor Ha) as (Hl' & Hc' & _).
  destruct Ha as (Hfresh & He & Hc & Hl & _). unfold chain_intact.
  split; [exact Hl'|]. split; [exact Hc'|]. rewrite He, Hc.
  split; [|split; [|split]].
  - intros p Hp. rewrite has_event_id_app. apply in_app_or in Hp.
    destruct Hp as [Hp|[<-|[]]].
    + rewrite (Hids p Hp). reflexivity.
    + cbn [next_link ChainRow.event_id]. rewrite has_event_id_one, String.eqb_refl.
      apply orb_true_r.
  - apply NoDup_event_ids_app; assumption.
  - rewrite map_app. cbn [map next_link ChainRow.event_id].
    apply NoDup_app; [exact Hndc | repeat constructor; intros [] |].
    intros x Hx Hx'. destruct Hx' as [<-|[]].
    apply in_map_iff in Hx. destruct Hx as (p & Hp & Hin).
    rewrite <- Hp, (Hids p Hin) in Hfresh. discriminate.
  - apply Forall_app. split; [exact Hrows | repeat constructor; exact Hrow].
Qed.

Lemma creation_shape_intact (this final : ProvenanceTracker) :
  chain_intact this -> creation_shape this final -> chain_intact final.
Proof.
  intros Hthis [Hlink|(mid & Hfirst & [Hsecond|Hsecond])].
  - apply (pass_with_link_intact _ _ Hthis Hlink).
  - apply (pass_without_link_intact _ _ (pass_without_link_intact _ _ Hthis Hfirst) Hsecond).
  - apply (pass_with_link_intact _ _ (pass_without_link_intact _ _ Hthis Hfirst) Hsecond).
Qed.

(** Rows are only ever added, at the end: at most two event rows and one
    link per call. *)
Lemma creation_shape_appends (this final : ProvenanceTracker) :
  creation_shape this final ->
  exists new_events new_links,
    events (db final) = (events (db this) ++ new_events)%list /\
    provenance_chain (db final) = (provenance_chain (db this) ++ new_links)%list /\
    (length new_events <= 2)%nat /\ (length new_links <= 1)%nat /\
    (length new_links <= length new_events)%nat /\
    crypto final = crypto this.
Proof.
  assert (Hwithout : forall a b, pass_without_link a b ->
             exists ne, events (db b) = (events (db a) ++ ne)%list /\
                        provenance_chain (db b) = provenance_chain (db a) /\
                        (length ne <= 1)%nat /\ crypto b = crypto a).
  { intros a b [(He & Hc & _ & Hcr)|(row & _ & (_ & He & Hc & _ & Hcr))].
    - exists []. rewrite app_nil_r. repeat split; auto.
    - exists [row]. repeat split; auto. }
  assert (Hwith : forall a b, pass_with_link a b ->
             exists row link, events (db b) = (events (db a) ++ [row])%list /\
                              provenance_chain (db b) = (provenance_chain (db a) ++ [link])%list /\
                              crypto b = crypto a).
  { intros a b (row & h & _ & (_ & He & Hc & _ & Hcr)). eexists; eexists; eauto. }
  intros [Hlink|(mid & Hfirst & [Hsecond|Hsecond])].
  - destruct (Hwith _ _ Hlink) as (row & link & He & Hc & Hcr).
    exists [row], [link]. cbn. repeat split; auto.
  - destruct (Hwithout _ _ Hfirst) as (ne1 & He1 & Hc1 & Hn1 & Hcr1).
    destruct (Hwithout _ _ Hsecond) as (ne2 & He2 & Hc2 & Hn2 & Hcr2).
    exists (ne1 ++ ne2)%list, []. rewrite He2, He1, Hc2, Hc1, app_nil_r, app_assoc, length_app.
    cbn. repeat split; try lia. congruence.
  - destruct (Hwithout _ _ Hfirst) as (ne1 & He1 & Hc1 & Hn1 & Hcr1).
    destruct (Hwith _ _ Hsecond) as (row & link & He2 & Hc2 & Hcr2).
    exists (ne1 ++ [row])%list, [link]. rewrite He2, He1, Hc2, Hc1, app_assoc, length_app.
    cbn. repeat split; try lia. congruence.
Qed.

Lemma last_hash_is_tail_hash (rows : list ChainRow.t) (prev : option string) (pos : Z) :
  linked prev pos rows -> last_hash rows = tail_hash rows.
Proof.
  intros Hl. unfold tail_hash. rewrite (linked_ordered _ _ _ Hl). unfold last_hash.
  destruct (rev rows) as [|r l] eqn:Hrev.
  - apply (f_equal (@rev _)) in Hrev. rewrite rev_involutive in Hrev. subst rows. reflexivity.
  - apply (f_equal (@rev _)) in Hrev. rewrite rev_involutive in Hrev. subst rows.
    cbn [rev]. apply last_hash_from_app.
Qed.

Section WhateverFails.

Context {rt : Runtime}.

Lemma serve_intact (calls : list Call) :
  forall this, chain_intact this -> chain_intact (serve calls this).
Proof.
  induction calls as [|c rest IH]; intros this Hthis; [exact Hthis|].
  cbn [serve]. apply IH. apply (creation_shape_intact _ _ Hthis (create_shape c this)).
Qed.

Lemma startup_empty_intact (err : option Error) (device : ATECC608) :
  chain_intact (startup err empty_database device).
Proof.
  destruct (startup_empty err device) as (He & Hc & Hl & _).
  unfold chain_intact. rewrite He, Hc, Hl.
  repeat split; try constructor; intros; contradiction.
Qed.

(** X3. Serving triggers one after the other from an empty store keeps the
    chain valid whatever fails on the way (clock, signer, any of the three
    statements, an id that [uuidv4] repeats): [verifyProvenanceChain]
    resolves with [isValid = true] and no issue, the positions are
    1, 2, ..., the cursor of the running tracker is the hash of the tail,
    every link belongs to a stored event, and no id occurs twice in either
    table. *)
Theorem chain_valid_whatever_fails :
  forall (device : ATECC608) (err : option Error) (calls : list Call),
    let this := serve calls (startup err empty_database device) in
    let links := provenance_chain (db this) in
    snd (verifyProvenanceChain None (db this))
    = Resolved {| isValid := true; totalEvents := length links; issues := [] |} /\
    map ChainRow.chain_position links = map Z.of_nat (seq 1 (length links)) /\
    lastHash this = tail_hash links /\
    (forall p, In p links -> has_event_id (ChainRow.event_id p) (events (db this)) = true) /\
    NoDup (map EventRow.event_id (events (db this))) /\
    NoDup (map ChainRow.event_id links).
Proof.
  intros device err calls this links.
  assert (Hintact : chain_intact this).
  { apply serve_intact, startup_empty_intact. }
  destruct Hintact as (Hlinked & Hcursor & Hids & Hnde & Hndc & _).
  fold links in Hlinked, Hcursor, Hids, Hndc.
  split; [|split; [|split; [|split; [|split]]]]; try assumption.
  - rewrite verifyProvenanceChain_run. cbn [snd]. fold links.
    rewrite (linked_ordered _ _ _ Hlinked), (linked_check_rows _ _ _ Hlinked). reflexivity.
  - apply (linked_position_list _ None 1 Hlinked).
  - rewrite Hcursor. apply (last_hash_is_tail_hash _ _ _ Hlinked).
Qed.

Lemma serve_appends (calls : list Call) :
  forall this,
  exists new_events new_links,
    events (db (serve calls this)) = (events (db this) ++ new_events)%list /\
    provenance_chain (db (serve calls this)) = (provenance_chain (db this) ++ new_links)%list /\
    (length new_events <= 2 * length calls)%nat /\
    (length new_links <= length calls)%nat /\
    (length new_links <= length new_events)%nat /\
    crypto (serve calls this) = crypto this.
Proof.
  induction calls as [|c rest IH]; intros this.
  - exists [], []. cbn. rewrite !app_nil_r. repeat split; lia.
  - cbn [serve].
    destruct (creation_shape_appends _ _ (create_shape c this))
      as (ne & nl & He & Hc & Hne & Hnl & Hle & Hcr).
    destruct (IH (fst (create c this))) as (ne' & nl' & He' & Hc' & Hne' & Hnl' & Hle' & Hcr').
    exists (ne ++ ne')%list, (nl ++ nl')%list.
    rewrite He', He, Hc', Hc, !app_assoc, !length_app. cbn [length].
    repeat split; try lia. congruence.
Qed.

(** X4. Creations only append. Whatever the tables hold and whatever
    fails, after any number of calls served one after the other the rows
    that were stored are still there, unchanged and in the same order,
    followed by the new ones: at most two event rows and one link per call,
    and never more new links than new event rows. *)
Theorem creations_only_append :
  forall (calls : list Call) (this : ProvenanceTracker),
  exists new_events new_links,
    events (db (serve calls this)) = (events (db this) ++ new_events)%list /\
    provenance_chain (db (serve calls this)) = (provenance_chain (db this) ++ new_links)%list /\
    (length new_events <= 2 * length calls)%nat /\
    (length new_links <= length calls)%nat /\
    (length new_links <= length new_events)%nat.
Proof.
  intros calls this.
  destruct (serve_appends calls this) as (ne & nl & He & Hc & Hne & Hnl & Hle & _).
  exists ne, nl. repeat split; assumption.
Qed.

End WhateverFails.

(** ** Counting events *)

Lemma NoDup_map_filter {A B : Type} (g : A -> B) (f : A -> bool) (l : list A) :
  NoDup (map g l) -> NoDup (map g (filter f l)).
Proof.
  induction l as [|x rest IH]; intros Hnd; [constructor|].
  cbn [map] in Hnd. inversion Hnd as [|? ? Hnotin Hrest]; subst.
  cbn [filter]. destruct (f x); [|apply IH, Hrest].
  cbn [map]. constructor; [|apply IH, Hrest].
  intros Hin. apply Hnotin. apply in_map_iff in Hin. destruct Hin as (y & Hy & Hin).
  apply filter_In in Hin. destruct Hin as (Hin & _).
  apply in_map_iff. exists y. split; assumption.
Qed.

Lemma has_link_true (ps : list ChainRow.t) (e : EventRow.t) :
  has_link ps e = true <-> In (EventRow.event_id e) (map ChainRow.event_id ps).
Proof.
  unfold has_link. rewrite existsb_exists. split.
  - intros (p & Hp & Heq). apply String.eqb_eq in Heq. apply in_map_iff.
    exists p. split; [symmetry; exact Heq | exact Hp].
  - intros Hin. apply in_map_iff in Hin. destruct Hin as (p & Heq & Hp).
    exists p. split; [exact Hp | apply String.eqb_eq; symmetry; exact Heq].
Qed.

(** In a store in which ids are not repeated and every link has its
    event, the events that have a link are as many as the links. *)
Lemma linked_events_count (es : list EventRow.t) (ps : list ChainRow.t) :
  NoDup (map EventRow.event_id es) ->
  NoDup (map ChainRow.event_id ps) ->
  (forall p, In p ps -> has_event_id (ChainRow.event_id p) es = true) ->
  length (filter (has_link ps) es) = length ps.
Proof.
  intros Hnde Hndc Hids.
  rewrite <- (length_map EventRow.event_id (filter (has_link ps) es)).
  rewrite <- (length_map ChainRow.event_id ps).
  apply Nat.le_antisymm.
  - apply NoDup_incl_length; [apply NoDup_map_filter, Hnde|].
    intros x Hx. apply in_map_iff in Hx. destruct Hx as (e & <- & He).
    apply filter_In in He. destruct He as (_ & Hlink). apply has_link_true, Hlink.
  - apply NoDup_incl_length; [exact Hndc|].
    intros x Hx. pose proof Hx as Hx'. apply in_map_iff in Hx. destruct Hx as (p & <- & Hp).
    specialize (Hids p Hp). apply existsb_exists in Hids. destruct Hids as (e & He & Heq).
    apply String.eqb_eq in Heq. apply in_map_iff. exists e. split; [exact Heq|].
    apply filter_In. split; [exact He|]. apply has_link_true. rewrite Heq. exact Hx'.
Qed.

Lemma orphans_count (this : ProvenanceTracker) :
  chain_intact this ->
  (length (orphans (db this)) + length (provenance_chain (db this))
   = length (events (db this)))%nat.
Proof.
  intros (_ & _ & Hids & Hnde & Hndc & _). unfold orphans.
  rewrite <- (linked_events_count _ _ Hnde Hndc Hids).
  rewrite Nat.add_comm. apply filter_length.
Qed.

Section Statistics.

Context {rt : Runtime}.

(** X5. On every store that creations served one after the other have
    filled from an empty one, whatever failed on the way, [getStatistics]
    (its three queries succeeding) reports as many verified events as
    signed events: the [verification_status] column only repeats whether a
    signature was stored. The total is the number of links plus the number
    of events without a link, and at most twice the number of calls. The
    call leaves the database as it was. *)
Theorem statistics_of_a_served_store :
  forall (device : ATECC608) (err : option Error) (calls : list Call),
    let this := serve calls (startup err empty_database device) in
    let r := getStatistics None None None (db this) in
    fst r = db this /\
    exists stats,
      snd r = Resolved stats /\
      verified_events stats = signed_events stats /\
      (signed_events stats <= total_events stats)%nat /\
      total_events stats
      = (length (orphans (db this)) + length (provenance_chain (db this)))%nat /\
      (total_events stats <= 2 * length calls)%nat.
Proof.
  intros device err calls this r; subst r. cbn [getStatistics fst snd].
  split; [reflexivity|]. eexists. split; [reflexivity|].
  cbn [total_events signed_events verified_events]. unfold count_events.
  assert (Hintact : chain_intact this) by apply serve_intact, startup_empty_intact.
  split; [|split; [|split]].
  - destruct Hintact as (_ & _ & _ & _ & _ & Hrows).
    f_equal. apply filter_ext_in. intros e He.
    rewrite Forall_forall in Hrows. symmetry. apply (Hrows e He).
  - rewrite (filter_all (fun _ => true)) by reflexivity. apply filter_length_le.
  - rewrite (filter_all (fun _ => true)) by reflexivity. symmetry.
    apply (orphans_count _ Hintact).
  - rewrite (filter_all (fun _ => true)) by reflexivity.
    destruct (serve_appends calls (startup err empty_database device))
      as (ne & nl & He & _ & Hne & _).
    fold this in He. rewrite He.
    destruct (startup_empty err device) as (He0 & _). rewrite He0. cbn [app]. exact Hne.
Qed.

End Statistics.

(** ** The chain status *)

Lemma getProvenanceChainStatus_run (toFixed1 : nat -> nat -> string) (io : StatusIO)
    (this : ProvenanceTracker) :
  snd (getProvenanceChainStatus toFixed1 io this) =
  match snd (verifyProvenanceChain (chain_err io) (db this)) with
  | Resolved chainStatus =>
      match snd (getStatistics (total_err io) (signed_err io) (verified_err io) (db this)) with
      | Resolved stats =>
          Resolved (Report (isValid chainStatus)
                           (total_events stats) (signed_events stats) (verified_events stats)
                           (if Nat.ltb 0 (total_events stats)
                            then JString (toFixed1 (signed_events stats) (total_events stats))
                            else JNumber "0")
                           (issues chainStatus))
      | Rejected e => Resolved (NoReport false e)
      | Uncaught e => Uncaught e
      end
  | Rejected e => Resolved (NoReport false e)
  | Uncaught e => Uncaught e
  end /\
  events (db (fst (getProvenanceChainStatus toFixed1 io this))) = events (db this) /\
  provenance_chain (db (fst (getProvenanceChainStatus toFixed1 io this)))
  = provenance_chain (db this) /\
  lastHash (fst (getProvenanceChainStatus toFixed1 io this)) = lastHash this.
Proof.
  unfold getProvenanceChainStatus, try_catch, this_db. unfold bind at 1.
  rewrite verifyProvenanceChain_run. cbn [fst snd].
  destruct (chain_err io) as [e|]; [repeat split|].
  unfold bind at 1. unfold getStatistics. cbn [fst snd db events provenance_chain statements].
  destruct (total_err io) as [e|]; [repeat split|].
  destruct (signed_err io) as [e|]; [repeat split|].
  destruct (verified_err io) as [e|]; repeat split.
Qed.

(** What the two reads of the chain status give on a served store. *)
Lemma served_store_reads {rt : Runtime}
    (device : ATECC608) (err : option Error) (calls : list Call) :
  let this := serve calls (startup err empty_database device) in
  snd (verifyProvenanceChain None (db this))
  = Resolved {| isValid := true;
                totalEvents := length (provenance_chain (db this));
                issues := [] |} /\
  exists stats,
    snd (getStatistics None None None (db this)) = Resolved stats /\
    verified_events stats = signed_events stats /\
    total_events stats = length (events (db this)) /\
    length (events (db this))
    = (length (orphans (db this)) + length (provenance_chain (db this)))%nat.
Proof.
  intros this.
  assert (Hintact : chain_intact this) by apply serve_intact, startup_empty_intact.
  split.
  - destruct Hintact as (Hlinked & _).
    rewrite verifyProvenanceChain_run. cbn [snd].
    rewrite (linked_ordered _ _ _ Hlinked), (linked_check_rows _ _ _ Hlinked). reflexivity.
  - eexists. split; [reflexivity|]. cbn [total_events signed_events verified_events].
    unfold count_events. split; [|split].
    + destruct Hintact as (_ & _ & _ & _ & _ & Hrows).
      f_equal. apply filter_ext_in. intros e He.
      rewrite Forall_forall in Hrows. symmetry. apply (Hrows e He).
    + rewrite (filter_all (fun _ => true)) by reflexivity. reflexivity.
    + symmetry. apply (orphans_count _ Hintact).
Qed.

Section Status.

Context {rt : Runtime}.

(** X6. [getProvenanceChainStatus] never rejects and changes neither table
    nor the cursor: a failing read is returned as
    [{chainValid: false, error}]. On every store that creations served one
    after the other have filled from an empty one, whatever failed on the
    way, the report (its reads succeeding) says [chainValid = true] with no
    issue; events that were left without a link show in it only in that
    [totalEvents], which counts event rows, exceeds the number of links by
    their number. *)
Theorem chain_status_of_a_served_store :
  forall (toFixed1 : nat -> nat -> string) (io : StatusIO) (this : ProvenanceTracker),
    let r := getProvenanceChainStatus toFixed1 io this in
    (exists report, snd r = Resolved report) /\
    events (db (fst r)) = events (db this) /\
    provenance_chain (db (fst r)) = provenance_chain (db this) /\
    lastHash (fst r) = lastHash this /\
    (forall e, chain_err io = Some e -> snd r = Resolved (NoReport false e)) /\
    (forall (device : ATECC608) (err : option Error) (calls : list Call),
        this = serve calls (startup err empty_database device) ->
        chain_err io = None -> total_err io = None ->
        signed_err io = None -> verified_err io = None ->
        exists signed rate,
          snd r = Resolved (Report true (length (events (db this))) signed signed rate []) /\
          length (events (db this))
          = (length (orphans (db this)) + length (provenance_chain (db this)))%nat).
Proof.
  intros toFixed1 io this r; subst r.
  destruct (getProvenanceChainStatus_run toFixed1 io this) as (Hrun & He & Hc & Hl).
  split; [|split; [exact He|split; [exact Hc|split; [exact Hl|split]]]].
  - rewrite Hrun, verifyProvenanceChain_run. cbn [snd]. unfold getStatistics.
    destruct (chain_err io); [eexists; reflexivity|].
    destruct (total_err io); [eexists; reflexivity|].
    destruct (signed_err io); [eexists; reflexivity|].
    destruct (verified_err io); eexists; reflexivity.
  - intros e Herr. rewrite Hrun, verifyProvenanceChain_run, Herr. reflexivity.
  - intros device err calls Hthis Hchain Htotal Hsigned Hverified.
    rewrite Hrun, Hchain, Htotal, Hsigned, Hverified. rewrite Hthis.
    destruct (served_store_reads device err calls) as (Hvalid & Hstats).
    rewrite Hvalid. cbn [isValid issues].
    destruct Hstats as (stats & Hres & Hsame & Htot & Horph).
    rewrite Hres, Hsame, Htot. eexists; eexists. split; [reflexivity | exact Horph].
Qed.

End Status.

(** ** Signing *)

Section Signing.

Context {rt : Runtime}.

(** X7. [signData] tags a signature as made in hardware exactly when the
    device is initialised and the chip answered the sign command; in every
    other case in which it resolves, the signature is the one of the
    software path and is tagged as such. It rejects only if the software
    path throws, and so never fails while the software signer works. *)
Theorem signData_tags_what_signed :
  forall (c : ATECC608) (io : SignerIO) (data : string),
    (forall si,
        signData c io data = Resolved si ->
        si_algorithm si = "ECDSA-SHA256" /\
        (si_hardware si = true <->
         initialized c = true /\ exists s, i2c_sign io (sha256_hex data) = inl s) /\
        (si_hardware si = true ->
         si_keyId si = "ATECC608-SLOT0" /\
         i2c_sign io (sha256_hex data) = inl (si_signature si)) /\
        (si_hardware si = false ->
         si_keyId si = "SOFTWARE-FALLBACK" /\
         ec_sign io data = inl (si_signature si))) /\
    (forall e, signData c io data = Rejected e -> ec_sign io data = inr e) /\
    (forall e, signData c io data <> Uncaught e) /\
    (forall s, ec_sign io data = inl s -> exists si, signData c io data = Resolved si).
Proof.
  intros c io data. unfold signData, hardwareSign, softwareSign.
  destruct (initialized c);
    [destruct (i2c_sign io (sha256_hex data)) as [s|e'] eqn:Hi2c|];
    destruct (ec_sign io data) as [s'|e''] eqn:Hec.
  all: repeat split; intros;
    repeat match goal with
           | H : Resolved _ = Resolved _ |- _ => injection H as <-
           | H : Rejected _ = Rejected _ |- _ => injection H as <-
           | H : exists _, _ |- _ => destruct H
           | H : _ /\ _ |- _ => destruct H
           end;
    cbn in *; try discriminate; try reflexivity; try congruence;
    try (eexists; reflexivity); try (split; [reflexivity | eexists; reflexivity]).
Qed.

End Signing.

Lemma signData_tags_what_signed_witness :
  exists si,
    @signData example_runtime {| initialized := true |} software_signer "data" = Resolved si /\
    si_hardware si = false /\
    si_keyId si = "SOFTWARE-FALLBACK" /\
    ec_sign software_signer "data" = inl (si_signature si).
Proof.
  eexists. split; [reflexivity|]. split; [reflexivity|].
  destruct (@signData_tags_what_signed example_runtime {| initialized := true |}
              software_signer "data") as (Hres & _).
  destruct (Hres _ eq_refl) as (_ & _ & _ & Hsoft).
  apply Hsoft. reflexivity.
Defined.

(** ** Listing events *)

Lemma insert_newest_first_In_inv (r x : JoinedRow.t) (sorted : list JoinedRow.t) :
  x = r \/ In x sorted -> In x (insert_newest_first r sorted).
Proof.
  induction sorted as [|y rest IH]; cbn [insert_newest_first].
  - intros [->|[]]; left; reflexivity.
  - destruct (Z.leb _ _).
    + intros [->|Hin]; [left; reflexivity | right; exact Hin].
    + intros [->|[->|Hin]].
      * right; apply IH; left; reflexivity.
      * left; reflexivity.
      * right; apply IH; right; exact Hin.
Qed.

Lemma insert_newest_first_sorted (r : JoinedRow.t) (sorted : list JoinedRow.t) :
  StronglySorted newer_row sorted -> StronglySorted newer_row (insert_newest_first r sorted).
Proof.
  induction sorted as [|y rest IH]; intros Hs; cbn [insert_newest_first].
  - repeat constructor.
  - apply StronglySorted_inv in Hs. destruct Hs as (Hrest & Hall).
    destruct (Z.leb_spec (EventRow.created_at (JoinedRow.e y))
                         (EventRow.created_at (JoinedRow.e r))) as [Hle|Hlt].
    + constructor; [constructor; assumption|].
      constructor; [exact Hle|].
      rewrite Forall_forall in Hall |- *. intros z Hz. specialize (Hall z Hz).
      unfold newer_row in *. lia.
    + constructor; [apply IH, Hrest|].
      rewrite Forall_forall in Hall |- *. intros z Hz.
      destruct (insert_newest_first_In _ _ _ Hz) as [->|Hin].
      * unfold newer_row. lia.
      * apply Hall, Hin.
Qed.

Lemma order_by_created_at_desc_sorted (rows : list JoinedRow.t) :
  StronglySorted newer_row (order_by_created_at_desc rows).
Proof.
  induction rows as [|r rest IH]; [constructor|].
  unfold order_by_created_at_desc in *; cbn [fold_right].
  apply insert_newest_first_sorted, IH.
Qed.

Lemma In_firstn_to_In {A : Type} (l : list A) :
  forall n x, In x (firstn n l) -> In x l.
Proof.
  induction l as [|y rest IH]; intros n x; destruct n; cbn; try tauto.
  intros [->|Hin]; [left; reflexivity | right; apply (IH n), Hin].
Qed.

Lemma In_skipn_to_In {A : Type} (l : list A) :
  forall n x, In x (skipn n l) -> In x l.
Proof.
  induction l as [|y rest IH]; intros n x; destruct n; cbn; try tauto.
  intros Hin; right; apply (IH n), Hin.
Qed.

Lemma StronglySorted_skipn {A : Type} (R : A -> A -> Prop) (l : list A) :
  forall n, StronglySorted R l -> StronglySorted R (skipn n l).
Proof.
  induction l as [|x rest IH]; intros n Hs; destruct n; cbn; try assumption.
  apply IH. apply StronglySorted_inv in Hs. apply Hs.
Qed.

Lemma StronglySorted_firstn {A : Type} (R : A -> A -> Prop) (l : list A) :
  forall n, StronglySorted R l -> StronglySorted R (firstn n l).
Proof.
  induction l as [|x rest IH]; intros n Hs; destruct n; cbn; try constructor.
  - apply IH. apply StronglySorted_inv in Hs. apply Hs.
  - apply StronglySorted_inv in Hs. destruct Hs as (_ & Hall).
    rewrite Forall_forall in Hall |- *. intros y Hy. apply Hall.
    apply (In_firstn_to_In _ _ _ Hy).
Qed.

Lemma StronglySorted_map {A B : Type} (R : A -> A -> Prop) (S : B -> B -> Prop)
    (g : B -> A) (l : list B) :
  (forall a b, R (g a) (g b) -> S a b) ->
  StronglySorted R (map g l) -> StronglySorted S l.
Proof.
  intros HRS. induction l as [|x rest IH]; intros Hs; [constructor|].
  cbn [map] in Hs. apply StronglySorted_inv in Hs. destruct Hs as (Hrest & Hall).
  constructor; [apply IH, Hrest|].
  rewrite Forall_forall in Hall |- *. intros y Hy. apply HRS, Hall, in_map, Hy.
Qed.

Lemma StronglySorted_map_to {A B : Type} (R : A -> A -> Prop) (S : B -> B -> Prop)
    (g : A -> B) (l : list A) :
  (forall a b, R a b -> S (g a) (g b)) ->
  StronglySorted R l -> StronglySorted S (map g l).
Proof.
  intros HRS. induction l as [|x rest IH]; intros Hs; [constructor|].
  apply StronglySorted_inv in Hs. destruct Hs as (Hrest & Hall). cbn [map].
  constructor; [apply IH, Hrest|].
  rewrite Forall_forall in Hall |- *. intros y Hy.
  apply in_map_iff in Hy. destruct Hy as (z & <- & Hz). apply HRS, Hall, Hz.
Qed.

Section Listing.

Context {rt : Runtime}.

Lemma parse_rows_rows (rows : list JoinedRow.t) :
  forall evs, parse_rows rows = Some evs -> map Event.row evs = rows.
Proof.
  induction rows as [|r rest IH]; intros evs Hparse; cbn [parse_rows] in Hparse.
  - injection Hparse as <-. reflexivity.
  - destruct (parse_row r) as [ev|] eqn:Hev; [|discriminate].
    destruct (parse_rows rest) as [evs'|]; [|discriminate].
    injection Hparse as <-. cbn [map].
    destruct (parse_row_fields _ _ Hev) as (-> & _). f_equal. apply IH. reflexivity.
Qed.

Lemma parse_rows_firstn_skipn (rows : list JoinedRow.t) :
  forall n evs,
    parse_rows rows = Some evs ->
    parse_rows (firstn n rows) = Some (firstn n evs) /\
    parse_rows (skipn n rows) = Some (skipn n evs).
Proof.
  induction rows as [|r rest IH]; intros n evs Hparse; cbn [parse_rows] in Hparse.
  - injection Hparse as <-. destruct n; split; reflexivity.
  - destruct (parse_row r) as [ev|] eqn:Hev; [|discriminate].
    destruct (parse_rows rest) as [evs'|] eqn:Hrest; [|discriminate].
    injection Hparse as <-. destruct n as [|n].
    + cbn [firstn skipn parse_rows]. rewrite Hev, Hrest. split; reflexivity.
    + destruct (IH n evs' eq_refl) as (Hf & Hs).
      cbn [firstn skipn parse_rows]. rewrite Hev, Hf. split; [reflexivity | exact Hs].
Qed.

Lemma LIMIT_nonneg {A : Type} (limit : Z) (rows : list A) :
  (0 <= limit)%Z -> LIMIT limit rows = firstn (Z.to_nat limit) rows.
Proof.
  intros Hl. unfold LIMIT. destruct (Z.ltb_spec limit 0); [lia | reflexivity].
Qed.

Lemma LIMIT_negative {A : Type} (limit : Z) (rows : list A) :
  (limit < 0)%Z -> LIMIT limit rows = rows.
Proof.
  intros Hl. unfold LIMIT. destruct (Z.ltb_spec limit 0); [reflexivity | lia].
Qed.

Lemma OFFSET_nonneg {A : Type} (offset : Z) (rows : list A) :
  (0 <= offset)%Z -> OFFSET offset rows = skipn (Z.to_nat offset) rows.
Proof.
  intros Ho. unfold OFFSET. destruct (Z.ltb_spec offset 0); [lia | reflexivity].
Qed.

Lemma OFFSET_negative {A : Type} (offset : Z) (rows : list A) :
  (offset < 0)%Z -> OFFSET offset rows = rows.
Proof.
  intros Ho. unfold OFFSET. destruct (Z.ltb_spec offset 0); [reflexivity | lia].
Qed.

Lemma is_row_count_bounds (v : Z) :
  is_row_count v = true <-> (-9223372036854775808 < v < 9223372036854775808)%Z.
Proof.
  unfold is_row_count. rewrite andb_true_iff, !Z.ltb_lt. reflexivity.
Qed.

Lemma StronglySorted_LIMIT {A : Type} (R : A -> A -> Prop) (limit : Z) (l : list A) :
  StronglySorted R l -> StronglySorted R (LIMIT limit l).
Proof.
  intros Hs. unfold LIMIT. destruct (limit <? 0)%Z; [exact Hs | apply StronglySorted_firstn, Hs].
Qed.

Lemma StronglySorted_OFFSET {A : Type} (R : A -> A -> Prop) (offset : Z) (l : list A) :
  StronglySorted R l -> StronglySorted R (OFFSET offset l).
Proof.
  intros Hs. unfold OFFSET. destruct (offset <? 0)%Z; [exact Hs | apply StronglySorted_skipn, Hs].
Qed.

Lemma In_LIMIT_OFFSET {A : Type} (limit offset : Z) (l : list A) (x : A) :
  In x (LIMIT limit (OFFSET offset l)) -> In x l.
Proof.
  unfold LIMIT, OFFSET. intros Hin.
  destruct (limit <? 0)%Z; [|apply In_firstn_to_In in Hin];
    (destruct (offset <? 0)%Z; [exact Hin | apply In_skipn_to_In in Hin; exact Hin]).
Qed.

Lemma getEvents_run (limit offset : Z) (d : ProvenanceDatabase) :
  snd (getEvents None limit offset d) =
  if negb (is_row_count limit && is_row_count offset) then Rejected SQLITE_MISMATCH
  else
    match parse_rows
            (map without_previous_hash
                 (LIMIT limit
                        (OFFSET offset
                                (order_by_created_at_desc
                                   (left_join (events d) (provenance_chain d)))))) with
    | Some evs => Resolved evs
    | None => Uncaught SyntaxError
    end.
Proof.
  unfold getEvents; run_monad.
  destruct (negb (is_row_count limit && is_row_count offset)); run_monad; [reflexivity|].
  change (fun r : JoinedRow.t =>
            {| JoinedRow.e := JoinedRow.e r;
               JoinedRow.current_hash := JoinedRow.current_hash r;
               JoinedRow.previous_hash := None;
               JoinedRow.chain_position := JoinedRow.chain_position r |})
    with without_previous_hash.
  destruct (parse_rows _); reflexivity.
Qed.

(** X8. [getEvents(limit, offset)] with the integers its callers pass, of
    either sign. A number that SQLite cannot take for a 64-bit row count
    makes the call reject with SQLITE_MISMATCH. A negative offset skips
    nothing. A page that the call resolves with is listed newest first, each
    entry built on a stored event row and carrying no [previous_hash]. With
    a limit that is not negative the page holds at most [limit] events, and
    pages fit together: the page of [a] events at that offset is the first
    part of the page of [a + b] events and the page of [b] events at
    [offset + a] is the rest. A negative limit is no limit: the listing
    then holds every row from the offset on, so that each page at that
    offset is its first part, however many events the page asks for. *)
Theorem getEvents_pages :
  forall (limit offset : Z) (d : ProvenanceDatabase),
    (is_row_count limit && is_row_count offset = false ->
     snd (getEvents None limit offset d) = Rejected SQLITE_MISMATCH) /\
    ((offset < 0)%Z -> is_row_count offset = true ->
     snd (getEvents None limit offset d) = snd (getEvents None limit 0 d)) /\
    (forall evs : list Event.t,
        snd (getEvents None limit offset d) = Resolved evs ->
        ((0 <= limit)%Z -> (Z.of_nat (length evs) <= limit)%Z) /\
        ((limit < 0)%Z ->
         forall n, (0 <= n)%Z -> is_row_count n = true ->
                   snd (getEvents None n offset d) = Resolved (firstn (Z.to_nat n) evs)) /\
        newest_first evs /\
        (forall ev, In ev evs ->
                    In (JoinedRow.e (Event.row ev)) (events d) /\
                    JoinedRow.previous_hash (Event.row ev) = None) /\
        (forall a b, (0 <= a)%Z -> (0 <= b)%Z -> limit = (a + b)%Z ->
                     (0 <= offset)%Z -> is_row_count (offset + a) = true ->
                     snd (getEvents None a offset d) = Resolved (firstn (Z.to_nat a) evs) /\
                     snd (getEvents None b (offset + a) d)
                     = Resolved (skipn (Z.to_nat a) evs))).
Proof.
  intros limit offset d.
  set (sorted := order_by_created_at_desc (left_join (events d) (provenance_chain d))).
  split; [|split].
  - intros Hcount. rewrite getEvents_run, Hcount. reflexivity.
  - intros Hneg Hcount. rewrite !getEvents_run. rewrite Hcount.
    change (is_row_count 0) with true.
    rewrite (OFFSET_negative _ _ Hneg), (OFFSET_nonneg 0) by lia. reflexivity.
  - intros evs. rewrite getEvents_run. fold sorted.
    destruct (is_row_count limit && is_row_count offset) eqn:Hcount; [|discriminate].
    apply andb_prop in Hcount. destruct Hcount as (Hlimit & Hoffset).
    cbn [negb].
    destruct (parse_rows _) as [evs'|] eqn:Hparse; [|discriminate].
    intros Hevs; injection Hevs as ->.
    pose proof (parse_rows_rows _ _ Hparse) as Hrows.
    apply is_row_count_bounds in Hlimit.
    split; [|split; [|split; [|split]]].
    + intros Hl. rewrite (LIMIT_nonneg _ _ Hl) in Hrows.
      rewrite <- (length_map Event.row), Hrows, length_map.
      pose proof (firstn_le_length (Z.to_nat limit) (OFFSET offset sorted)). lia.
    + intros Hl n Hn Hcount. rewrite getEvents_run. fold sorted.
      rewrite Hcount, Hoffset. cbn [andb negb].
      rewrite (LIMIT_negative _ _ Hl) in Hparse. rewrite (LIMIT_nonneg _ _ Hn).
      destruct (parse_rows_firstn_skipn _ (Z.to_nat n) _ Hparse) as (Hf & _).
      rewrite firstn_map in Hf. rewrite Hf. reflexivity.
    + unfold newest_first.
      apply (StronglySorted_map newer_row _ Event.row); [intros a b Hab; exact Hab|].
      rewrite Hrows.
      apply (StronglySorted_map_to newer_row); [intros a b Hab; exact Hab|].
      apply StronglySorted_LIMIT, StronglySorted_OFFSET, order_by_created_at_desc_sorted.
    + intros ev Hev. apply (in_map Event.row) in Hev. rewrite Hrows in Hev.
      apply in_map_iff in Hev. destruct Hev as (r & Hr & Hin). rewrite <- Hr.
      split; [|reflexivity]. cbn [without_previous_hash JoinedRow.e].
      apply In_LIMIT_OFFSET in Hin.
      apply order_by_created_at_desc_In in Hin.
      destruct (In_left_join _ _ _ Hin) as (He & _). exact He.
    + intros a b Ha Hb -> Ho Hcount. rewrite !getEvents_run. fold sorted.
      assert (Hca : is_row_count a = true) by (apply is_row_count_bounds; lia).
      assert (Hcb : is_row_count b = true) by (apply is_row_count_bounds; lia).
      rewrite Hca, Hcb, Hoffset, Hcount. cbn [andb negb].
      rewrite (LIMIT_nonneg (a + b)) in Hparse by lia.
      rewrite (LIMIT_nonneg a), (LIMIT_nonneg b) by lia.
      rewrite (OFFSET_nonneg offset) in Hparse |- * by lia.
      rewrite (OFFSET_nonneg (offset + a)) by lia.
      destruct (parse_rows_firstn_skipn _ (Z.to_nat a) _ Hparse) as (Hf & Hs).
      rewrite firstn_map in Hf. rewrite skipn_map in Hs.
      rewrite firstn_firstn, Nat.min_l in Hf by lia.
      rewrite Hf. split; [reflexivity|].
      replace (firstn (Z.to_nat b) (skipn (Z.to_nat (offset + a)) sorted))
        with (skipn (Z.to_nat a) (firstn (Z.to_nat (a + b)) (skipn (Z.to_nat offset) sorted))).
      * rewrite Hs. reflexivity.
      * rewrite !Z2Nat.inj_add by lia.
        rewrite <- firstn_skipn_comm, skipn_skipn. f_equal. f_equal. lia.
Qed.

End Listing.

(** ** Verifying an event whose signed columns were edited *)

Lemma edit_signed_text (ed : EventEdit) (e : EventRow.t) :
  edits_signed_text ed = true ->
  EventRow.event_id (edit_event ed e) = EventRow.event_id e /\
  EventRow.trigger_data (edit_event ed e) = EventRow.trigger_data e /\
  EventRow.signature (edit_event ed e) = EventRow.signature e /\
  EventRow.signature_info (edit_event ed e) = EventRow.signature_info e.
Proof.
  destruct ed; cbn; try discriminate; intros _; repeat split.
Qed.

Lemma Forall2_filter {A : Type} (R : A -> A -> Prop) (f : A -> bool) (l l' : list A) :
  (forall a b, R a b -> f b = f a) ->
  Forall2 R l l' -> Forall2 R (filter f l) (filter f l').
Proof.
  intros Hf HR. induction HR as [|a b l l' Hab _ IH]; [constructor|].
  cbn [filter]. rewrite (Hf a b Hab). destruct (f a); [constructor; assumption | exact IH].
Qed.

Lemma left_join_edited (ed : EventEdit) (ps : list ChainRow.t) (es : list EventRow.t) :
  edits_signed_text ed = true ->
  forall n,
    Forall2 same_but_signed_text (left_join es ps)
            (left_join (update_nth n (edit_event ed) es) ps).
Proof.
  intros Hed.
  assert (Hrefl : forall l : list JoinedRow.t, Forall2 same_but_signed_text l l).
  { induction l; constructor; [repeat split | assumption]. }
  induction es as [|e rest IH]; intros n; [destruct n; constructor|].
  destruct n as [|n]; cbn [update_nth]; unfold left_join; cbn [flat_map];
    apply Forall2_app.
  - destruct (edit_signed_text ed e Hed) as (Hid & Htd & Hsg & Hsi). rewrite Hid.
    destruct (filter _ ps) as [|p matches].
    + constructor; [|constructor]. unfold same_but_signed_text. rewrite !joined_e.
      repeat split; assumption.
    + generalize (p :: matches). intros l. induction l as [|q l IHl]; [constructor|].
      cbn [map]. constructor; [|exact IHl].
      unfold same_but_signed_text. rewrite !joined_e. repeat split; assumption.
  - apply Hrefl.
  - apply Hrefl.
  - apply IH.
Qed.

Section Blind.

Context {rt : Runtime}.

Lemma getEventById_edited (err : option Error) (eventId : string) (n : nat) (ed : EventEdit)
    (d : ProvenanceDatabase) :
  edits_signed_text ed = true ->
  match snd (getEventById err eventId d),
        snd (getEventById err eventId (tamper_event n ed d)) with
  | Resolved None, Resolved None => True
  | Resolved (Some ev), Resolved (Some ev') =>
      same_but_signed_text (Event.row ev) (Event.row ev') /\
      Event.signature_info ev' = Event.signature_info ev
  | Rejected e, Rejected e' => e' = e
  | Uncaught e, Uncaught e' => e' = e
  | _, _ => False
  end.
Proof.
  intros Hed. destruct err as [e|].
  { unfold getEventById; run_monad. reflexivity. }
  rewrite !getEventById_run. cbn [tamper_event events provenance_chain].
  pose proof (Forall2_filter same_but_signed_text
                (fun r => String.eqb (EventRow.event_id (JoinedRow.e r)) eventId)
                _ _
                (fun a b (Hab : same_but_signed_text a b) =>
                   f_equal (fun s => String.eqb s eventId) (proj1 Hab))
                (left_join_edited ed (provenance_chain d) (events d) Hed n)) as Hrows.
  destruct Hrows as [|row row' rows rows' Hrow _]; [exact I|].
  destruct Hrow as (Hid & Htd & Hsg & Hsi).
  unfold parse_row. rewrite Htd, Hsi.
  destruct (JSON_parse (or_string (EventRow.trigger_data _) _)); [|reflexivity].
  destruct (JSON_parse (or_string (EventRow.signature_info _) _)); [|reflexivity].
  cbn [Event.row Event.signature_info]. split; [repeat split; assumption | reflexivity].
Qed.

(** X9. [verifyEvent] gives the same verdict after a signed text column of
    a stored event (timestamp, rtc_timestamp, event_type or image_hash)
    has been overwritten in the database: the same [valid], [reason],
    [signatureInfo] and [error], whatever the row, the new value, the
    device and the draw of [Math.random()]. Neither verification routine
    reads the data it is given. *)
Theorem verifyEvent_blind_to_signed_columns :
  forall (err : option Error) (random : Q) (eventId : string) (n : nat) (ed : EventEdit)
         (this : ProvenanceTracker),
    edits_signed_text ed = true ->
    let r := snd (verifyEvent err random eventId this) in
    let r' := snd (verifyEvent err random eventId (on_database (tamper_event n ed) this)) in
    (forall v, r = Resolved v ->
               exists v', r' = Resolved v' /\
                          valid v' = valid v /\ reason v' = reason v /\
                          signatureInfo v' = signatureInfo v /\ error v' = error v) /\
    (forall e, r = Uncaught e -> r' = Uncaught e).
Proof.
  intros err random eventId n ed this Hed r r'; subst r r'.
  rewrite !verifyEvent_run. cbn [on_database db crypto].
  pose proof (getEventById_edited err eventId n ed (db this) Hed) as Hget.
  destruct (snd (getEventById err eventId (db this))) as [[ev|]|e|e];
    destruct (snd (getEventById err eventId (tamper_event n ed (db this))))
      as [[ev'|]|e'|e']; try contradiction.
  - destruct Hget as ((_ & _ & Hsg & _) & Hsi). rewrite Hsg, Hsi.
    destruct (not_string _).
    + split; [|discriminate]. intros v Hv. injection Hv as <-.
      eexists. split; [reflexivity|]. repeat split.
    + unfold verifySignature.
      destruct (verifySignature_routine (crypto this) (Event.signature_info ev))
        as [[|]|e|e].
      * split; [|discriminate]. intros v Hv. injection Hv as <-.
        eexists. split; [reflexivity|]. repeat split.
      * split; [|discriminate]. intros v Hv. injection Hv as <-.
        eexists. split; [reflexivity|]. repeat split.
      * split; [|discriminate]. intros v Hv. injection Hv as <-.
        eexists. split; [reflexivity|]. repeat split.
      * split; [discriminate|]. intros e0 He0. exact He0.
  - split; [|discriminate]. intros v Hv. injection Hv as <-.
    eexists. split; [reflexivity|]. repeat split.
  - subst e'. split; [|discriminate]. intros v Hv. injection Hv as <-.
    eexists. split; [reflexivity|]. repeat split.
  - subst e'. split; [discriminate|]. intros e0 He0. exact He0.
Qed.

End Blind.


(** ** Start-up on a store whose newest event is linked *)

Lemma filter_unique_id (ps : list ChainRow.t) (p : ChainRow.t) :
  NoDup (map ChainRow.event_id ps) -> In p ps ->
  filter (fun q => String.eqb (ChainRow.event_id p) (ChainRow.event_id q)) ps = [p].
Proof.
  induction ps as [|q rest IH]; intros Hnd Hin; [contradiction|].
  cbn [map] in Hnd. apply NoDup_cons_iff in Hnd. destruct Hnd as (Hq & Hnd).
  cbn [filter]. destruct Hin as [->|Hin].
  - rewrite String.eqb_refl. f_equal. apply filter_none. intros x Hx.
    apply String.eqb_neq. intros Heq. apply Hq. rewrite Heq. apply in_map, Hx.
  - destruct (String.eqb_spec (ChainRow.event_id p) (ChainRow.event_id q)) as [Heq|_].
    + exfalso. apply Hq. rewrite <- Heq. apply in_map, Hin.
    + apply IH; assumption.
Qed.

Lemma last_hash_of_last_position (rows : list ChainRow.t) (p : ChainRow.t) :
  forall (prev : option string) (pos : Z),
    linked prev pos rows -> In p rows ->
    ChainRow.chain_position p = (pos + Z.of_nat (length rows) - 1)%Z ->
    last_hash_from prev rows = Some (ChainRow.current_hash p).
Proof.
  induction rows as [|r rest IH]; intros prev pos Hl Hin Hpos; [contradiction|].
  destruct Hl as (_ & Hr & Hrest). cbn [last_hash_from].
  destruct Hin as [->|Hin].
  - destruct rest as [|x rest]; [reflexivity|]. cbn [length] in Hpos. lia.
  - apply (IH _ (pos + 1)%Z Hrest Hin). cbn [length] in Hpos. lia.
Qed.

Section Resume.

Context {rt : Runtime}.

Lemma startup_at_newest_row (d : ProvenanceDatabase) (device : ATECC608)
    (e : EventRow.t) (p : ChainRow.t) :
  In e (events d) ->
  (forall e', In e' (events d) ->
              e' = e \/ (EventRow.created_at e' < EventRow.created_at e)%Z) ->
  json_columns_parse e ->
  filter (fun q => String.eqb (EventRow.event_id e) (ChainRow.event_id q))
         (provenance_chain d) = [p] ->
  lastHash (startup None d device) = Some (ChainRow.current_hash p).
Proof.
  intros He Hnewest (Htd & Hsi) Hp.
  assert (Hrow : In (joined e (Some p)) (left_join (events d) (provenance_chain d))).
  { unfold left_join. apply in_flat_map. exists e. split; [exact He|].
    rewrite Hp. left; reflexivity. }
  assert (Hfirst : exists rest,
             order_by_created_at_desc (left_join (events d) (provenance_chain d))
             = joined e (Some p) :: rest).
  { apply newest_row_first; [exact Hrow|].
    intros r Hr. unfold left_join in Hr. apply in_flat_map in Hr.
    destruct Hr as (e' & He' & Hr).
    destruct (Hnewest e' He') as [->|Hlt].
    - left. rewrite Hp in Hr. destruct Hr as [<-|[]]. reflexivity.
    - right. rewrite joined_e.
      assert (Here : JoinedRow.e r = e').
      { destruct (filter (fun q => String.eqb (EventRow.event_id e') _) _) as [|q qs].
        - destruct Hr as [<-|[]]. apply joined_e.
        - apply in_map_iff in Hr. destruct Hr as (x & <- & _). apply joined_e. }
      rewrite Here. exact Hlt. }
  destruct Hfirst as (rest & Hfirst).
  unfold startup, initialize, new_ProvenanceTracker, getEvents, try_catch.
  change (negb (is_row_count 1 && is_row_count 0)) with false.
  change (@LIMIT JoinedRow.t 1) with (@firstn JoinedRow.t 1).
  change (@OFFSET JoinedRow.t 0) with (@skipn JoinedRow.t 0).
  run_monad. rewrite Hfirst.
  cbn [skipn firstn map parse_rows]. unfold parse_row.
  cbn [JoinedRow.e]. rewrite !joined_e.
  destruct (JSON_parse (or_string (EventRow.trigger_data e) _)); [|contradiction].
  destruct (JSON_parse (or_string (EventRow.signature_info e) _)); [|contradiction].
  run_monad. reflexivity.
Qed.

(** X10. On a store that creations served one after the other have filled
    from an empty one, whatever failed on the way: when the event row that
    is strictly newest by [created_at] has a link and its JSON columns
    parse, a tracker started on the database takes the hash of that link as
    its cursor; and when that link is the one of highest position, the
    restarted tracker resumes with the cursor the running tracker had. *)
Theorem restart_resumes_at_newest_event :
  forall (device device' : ATECC608) (err : option Error) (calls : list Call)
         (e : EventRow.t) (p : ChainRow.t),
    let this := serve calls (startup err empty_database device) in
    In e (events (db this)) ->
    (forall e', In e' (events (db this)) ->
                e' = e \/ (EventRow.created_at e' < EventRow.created_at e)%Z) ->
    json_columns_parse e ->
    In p (provenance_chain (db this)) ->
    ChainRow.event_id p = EventRow.event_id e ->
    lastHash (startup None (db this) device') = Some (ChainRow.current_hash p) /\
    (ChainRow.chain_position p = Z.of_nat (length (provenance_chain (db this))) ->
     lastHash (startup None (db this) device') = lastHash this).
Proof.
  intros device device' err calls e p this He Hnewest Hjson Hp Hid.
  assert (Hintact : chain_intact this) by apply serve_intact, startup_empty_intact.
  destruct Hintact as (Hlinked & Hcursor & _ & _ & Hndc & _).
  assert (Hstart : lastHash (startup None (db this) device')
                   = Some (ChainRow.current_hash p)).
  { apply (startup_at_newest_row _ _ e p He Hnewest Hjson).
    rewrite <- Hid. apply filter_unique_id; assumption. }
  split; [exact Hstart|].
  intros Hlast. rewrite Hstart, Hcursor. symmetry.
  apply (last_hash_of_last_position _ _ None 1 Hlinked Hp). lia.
Qed.

End Resume.

(** ** The unsigned path *)

Section Unsigned.

Context {rt : Runtime}.

(** X11. [createUnsignedRecord] is all or nothing for the chain. It
    resolves exactly when the clock answers, no statement fails and the id
    is new; the record then says [signed: false] with a null signature,
    its event row and its link (carrying the cursor, at the next position)
    are the only rows added, and the cursor becomes the record's hash.
    When it rejects, no link was written and the cursor has not moved; at
    most one event row, without a signature, was added. *)
Theorem createUnsignedRecord_outcomes :
  forall (env : Env) (eventType : string) (triggerData : JSON) (imageData : ImageData)
         (this : ProvenanceTracker),
    let r := createUnsignedRecord env eventType triggerData imageData this in
    ((exists record, snd r = Resolved record) <->
     (exists rtc, getPreciseTimestamp env = inl rtc) /\
     logEvent_err env = None /\
     has_event_id (uuidv4 env) (events (db this)) = false /\
     max_pos_err env = None /\ insert_err env = None) /\
    (forall record,
        snd r = Resolved record ->
        ProvenanceRecord.signed record = false /\
        ProvenanceRecord.eventId record = uuidv4 env /\
        DbRecord.signature (ProvenanceRecord.dbRecord record) = None /\
        DbRecord.signatureInfo (ProvenanceRecord.dbRecord record) = unsigned_signatureInfo /\
        DbRecord.verificationStatus (ProvenanceRecord.dbRecord record) = false /\
        appended (event_row_of (CURRENT_TIMESTAMP env) (ProvenanceRecord.dbRecord record))
                 (ProvenanceRecord.currentHash record) this (fst r)) /\
    (forall e,
        snd r = Rejected e ->
        lastHash (fst r) = lastHash this /\
        provenance_chain (db (fst r)) = provenance_chain (db this) /\
        (events (db (fst r)) = events (db this) \/
         exists row, EventRow.signature row = None /\
                     events (db (fst r)) = (events (db this) ++ [row])%list)) /\
    (forall e, snd r <> Uncaught e).
Proof.
  intros env eventType triggerData imageData this r; subst r.
  rewrite createUnsignedRecord_run.
  destruct (getPreciseTimestamp env) as [rtc|e0].
  2:{ cbn [fst snd]. split; [split; [intros (x & Hx); discriminate
                                    | intros ((x & Hx) & _); discriminate]|].
      split; [discriminate|]. split; [|discriminate].
      intros e _. split; [reflexivity|]. split; [reflexivity | left; reflexivity]. }
  match goal with
  | |- context [persist ?en ?id ?h ?rec ?sg ?t] =>
      pose proof (persist_cases en id h rec sg t eq_refl) as Hcases;
      pose proof (fun H1 H2 H3 H4 => persist_ok en id h rec sg t eq_refl H1 H2 H3 H4) as Hok;
      cbv zeta in Hcases, Hok;
      set (r := persist en id h rec sg t) in *
  end.
  split.
  - split.
    + intros (record & Hrecord). split; [eexists; reflexivity|].
      subst r. revert Hrecord. run_monad.
      destruct (logEvent_err env); run_monad; [discriminate|].
      destruct (has_event_id _ _); run_monad; [discriminate|].
      destruct (max_pos_err env); run_monad; [discriminate|].
      destruct (insert_err env); run_monad; [discriminate|].
      intros _. repeat split.
    + intros (_ & Hlog & Hfresh & Hmax & Hins).
      destruct (Hok Hlog Hmax Hins Hfresh) as (_ & Hres). eexists; exact Hres.
  - destruct Hcases as [[Hu (e & He)]|[[Ho (e & He)]|[Ha Hres]]].
    + rewrite He. split; [discriminate|]. split; [|discriminate].
      intros e' _. destruct Hu as (Hev & Hch & Hl & _).
      split; [exact Hl|]. split; [exact Hch | left; exact Hev].
    + rewrite He. split; [discriminate|]. split; [|discriminate].
      intros e' _. destruct Ho as (_ & Hev & Hch & Hl & _).
      split; [exact Hl|]. split; [exact Hch|]. right. eexists. split; [|exact Hev]. reflexivity.
    + rewrite Hres. split; [|split; discriminate].
      intros record Hrecord. injection Hrecord as <-.
      cbn [ProvenanceRecord.signed ProvenanceRecord.eventId ProvenanceRecord.dbRecord
           ProvenanceRecord.currentHash unsigned_dbRecord DbRecord.signature
           DbRecord.signatureInfo DbRecord.verificationStatus].
      repeat (split; [reflexivity|]). exact Ha.
Qed.

End Unsigned.

(** ** What a creation returns *)

Section Returned.

Context {rt : Runtime}.




End Returned.

(** ** The properties above on the example run *)

Lemma logEvent_then_getEventById_witness :
  snd (logEvent None 100 manual_record empty_database) = Resolved tt /\
  exists ev,
    snd (@getEventById example_runtime None "id-a"
           (fst (logEvent None 100 manual_record empty_database)))
    = Resolved (Some ev) /\
    Event.trigger_data ev = manual_trigger /\
    Event.signature_info ev = fallback_signature /\
    JoinedRow.current_hash (Event.row ev) = None.
Proof.
  destruct (@logEvent_then_getEventById example_runtime None 100 manual_record empty_database)
    as (Hres & _ & _ & Hafter).
  assert (Hok : snd (logEvent None 100 manual_record empty_database) = Resolved tt).
  { apply Hres. split; reflexivity. }
  split; [exact Hok|].
  destruct (Hafter Hok) as (_ & _ & Hget).
  destruct Hget as (ev & Hev & _ & Htd & Hsi & _ & Hlink);
    [reflexivity | reflexivity | reflexivity |].
  exists ev. split; [exact Hev|]. split; [exact Htd|]. split; [exact Hsi|].
  apply Hlink. intros q [].
Defined.

Lemma chain_valid_whatever_fails_witness :
  exists p,
    In p (provenance_chain
            (db (@serve example_runtime [call_A; call_B_chain_down]
                   (@startup example_runtime None empty_database absent_chip)))) /\
    ChainRow.event_id p = "id-a" /\
    has_event_id (ChainRow.event_id p)
      (events (db (@serve example_runtime [call_A; call_B_chain_down]
                     (@startup example_runtime None empty_database absent_chip)))) = true.
Proof.
  destruct (@chain_valid_whatever_fails example_runtime absent_chip None
              [call_A; call_B_chain_down]) as (_ & _ & _ & Hids & _).
  let links := eval vm_compute in
                 (provenance_chain
                    (db (@serve example_runtime [call_A; call_B_chain_down]
                           (@startup example_runtime None empty_database absent_chip)))) in
  match links with
  | ?p :: _ =>
      assert (Hp : In p (provenance_chain
                           (db (@serve example_runtime [call_A; call_B_chain_down]
                                  (@startup example_runtime None empty_database absent_chip)))))
        by (vm_compute; left; reflexivity);
      exists p
  end.
  split; [exact Hp|]. split; [reflexivity | exact (Hids _ Hp)].
Defined.

Lemma statistics_of_a_served_store_witness :
  exists stats,
    snd (getStatistics None None None (db (@after_chain_down example_runtime absent_chip)))
    = Resolved stats /\
    total_events stats = 3%nat /\
    verified_events stats = signed_events stats /\
    length (orphans (db (@after_chain_down example_runtime absent_chip))) = 2%nat.
Proof.
  destruct (@statistics_of_a_served_store example_runtime absent_chip None
              [call_A; call_B_chain_down]) as (_ & stats & Hres & Hsame & _ & Htotal & _).
  exists stats. split; [exact Hres|]. split; [|split; [exact Hsame | reflexivity]].
  rewrite Htotal. reflexivity.
Defined.

Lemma chain_status_of_a_served_store_witness :
  exists signed rate,
    snd (getProvenanceChainStatus example_toFixed1 all_reads_succeed
           (@serve example_runtime [call_A; call_B_chain_down]
              (@startup example_runtime None empty_database absent_chip)))
    = Resolved (Report true
                  (length (events (db (@serve example_runtime [call_A; call_B_chain_down]
                     (@startup example_runtime None empty_database absent_chip)))))
                  signed signed rate []).
Proof.
  destruct (@chain_status_of_a_served_store example_runtime example_toFixed1
              all_reads_succeed
              (@serve example_runtime [call_A; call_B_chain_down]
                 (@startup example_runtime None empty_database absent_chip)))
    as (_ & _ & _ & _ & _ & Hserved).
  destruct (Hserved absent_chip None [call_A; call_B_chain_down]
              eq_refl eq_refl eq_refl eq_refl eq_refl) as (signed & rate & Hres & _).
  exists signed, rate. exact Hres.
Defined.

Lemma getEvents_pages_witness :
  exists evs,
    snd (@getEvents example_runtime None (-1) 0
           (db (@after_chain_down example_runtime absent_chip))) = Resolved evs /\
    map created_at_of evs = [201; 200; 100]%Z /\
    snd (@getEvents example_runtime None 2 0
           (db (@after_chain_down example_runtime absent_chip))) = Resolved (firstn 2 evs) /\
    snd (@getEvents example_runtime None 1 2
           (db (@after_chain_down example_runtime absent_chip)))
    = Resolved (skipn 2 (firstn 3 evs)).
Proof.
  eexists. split; [vm_compute; reflexivity|]. split; [reflexivity|].
  destruct (@getEvents_pages example_runtime (-1) 0
              (db (@after_chain_down example_runtime absent_chip)))
    as (_ & _ & Hall).
  destruct (Hall _ eq_refl) as (_ & Hpages & _).
  split; [exact (Hpages ltac:(lia) 2%Z ltac:(lia) eq_refl)|].
  destruct (@getEvents_pages example_runtime 3 0
              (db (@after_chain_down example_runtime absent_chip)))
    as (_ & _ & Hthree).
  destruct (Hthree _ (Hpages ltac:(lia) 3%Z ltac:(lia) eq_refl)) as (_ & _ & _ & _ & Hsplit).
  exact (proj2 (Hsplit 2%Z 1%Z ltac:(lia) ltac:(lia) eq_refl ltac:(lia) eq_refl)).
Defined.

Lemma verifyEvent_blind_to_signed_columns_witness :
  exists v v',
    snd (@verifyEvent example_runtime None (1 # 2) "id-a" after_A_B) = Resolved v /\
    snd (@verifyEvent example_runtime None (1 # 2) "id-a"
           (on_database (tamper_event 0 (SET_event_type "door_opened")) after_A_B))
    = Resolved v' /\
    valid v = true /\ valid v' = true /\
    option_map (fun ev => EventRow.event_type (JoinedRow.e (Event.row ev))) (event v)
    = Some "motion_detection" /\
    option_map (fun ev => EventRow.event_type (JoinedRow.e (Event.row ev))) (event v')
    = Some "door_opened".
Proof.
  destruct (@verifyEvent_blind_to_signed_columns example_runtime None (1 # 2) "id-a" 0%nat
              (SET_event_type "door_opened") after_A_B eq_refl) as (Hres & _).
  assert (Hv : exists v,
             snd (@verifyEvent example_runtime None (1 # 2) "id-a" after_A_B) = Resolved v /\
             valid v = true /\
             option_map (fun ev => EventRow.event_type (JoinedRow.e (Event.row ev))) (event v)
             = Some "motion_detection").
  { eexists. split; [vm_compute; reflexivity|]. split; reflexivity. }
  destruct Hv as (v & Hv & Hvalid & Htype).
  destruct (Hres v Hv) as (v' & Hv' & Hvalid' & _).
  exists v, v'. split; [exact Hv|]. split; [exact Hv'|]. split; [exact Hvalid|].
  split; [rewrite Hvalid'; exact Hvalid|]. split; [exact Htype|].
  assert (Hv2 : exists w,
             snd (@verifyEvent example_runtime None (1 # 2) "id-a"
                    (on_database (tamper_event 0 (SET_event_type "door_opened")) after_A_B))
             = Resolved w /\
             option_map (fun ev => EventRow.event_type (JoinedRow.e (Event.row ev))) (event w)
             = Some "door_opened").
  { eexists. split; [vm_compute; reflexivity | reflexivity]. }
  destruct Hv2 as (w & Hw & Htype'). rewrite Hv' in Hw. injection Hw as <-. exact Htype'.
Defined.

Lemma restart_resumes_at_newest_event_witness :
  lastHash (@startup example_runtime None
              (db (@serve example_runtime [call_A; call_B]
                     (@startup example_runtime None empty_database absent_chip)))
              absent_chip)
  = lastHash (@serve example_runtime [call_A; call_B]
                (@startup example_runtime None empty_database absent_chip)).
Proof.
  assert (He : exists e p,
             nth_error (events (db (@serve example_runtime [call_A; call_B]
                          (@startup example_runtime None empty_database absent_chip)))) 1
             = Some e /\
             nth_error (provenance_chain (db (@serve example_runtime [call_A; call_B]
                          (@startup example_runtime None empty_database absent_chip)))) 1
             = Some p).
  { eexists; eexists. split; vm_compute; reflexivity. }
  destruct He as (e & p & He & Hp).
  destruct (@restart_resumes_at_newest_event example_runtime absent_chip absent_chip None
              [call_A; call_B] e p) as (_ & Hresume).
  - apply (nth_error_In _ _ He).
  - intros e' He'. vm_compute in He. injection He as <-.
    vm_compute in He'. destruct He' as [<-|[<-|[]]]; [right; reflexivity | left; reflexivity].
  - vm_compute in He. injection He as <-. split; vm_compute; discriminate.
  - apply (nth_error_In _ _ Hp).
  - vm_compute in He, Hp. injection He as <-. injection Hp as <-. reflexivity.
  - apply Hresume. vm_compute in Hp. injection Hp as <-. reflexivity.
Defined.

Lemma createUnsignedRecord_outcomes_witness :
  exists record,
    snd (@createUnsignedRecord example_runtime (quiet "id-b" 200) "motion_detection"
           manual_trigger frame after_A) = Resolved record /\
    ProvenanceRecord.signed record = false /\
    lastHash (fst (@createUnsignedRecord example_runtime (quiet "id-b" 200) "motion_detection"
                     manual_trigger frame after_A))
    = Some (ProvenanceRecord.currentHash record).
Proof.
  destruct (@createUnsignedRecord_outcomes example_runtime (quiet "id-b" 200)
              "motion_detection" manual_trigger frame after_A)
    as (Hiff & Hresolved & _).
  destruct Hiff as (_ & Hif).
  destruct Hif as (record & Hrecord).
  { split; [eexists; reflexivity|]. repeat split. }
  exists record. split; [exact Hrecord|].
  destruct (Hresolved record Hrecord) as (Hsigned & _ & _ & _ & _ & Happ).
  split; [exact Hsigned|]. destruct Happ as (_ & _ & _ & Hcursor & _). exact Hcursor.
Defined.


(* ================================================================== *)
(** * The real-time clock *)
(* ================================================================== *)

Lemma Z_range_In (count : nat) :
  forall lo v, (lo <= v < lo + Z.of_nat count)%Z -> In v (Z_range lo count).
Proof.
  induction count as [|count IH]; intros lo v Hv; [lia|].
  cbn [Z_range]. destruct (Z.eq_dec lo v) as [->|Hne]; [left; reflexivity|].
  right. apply IH. lia.
Qed.

(** A decidable property that holds of every integer of a range, checked
    by running it on each. *)
Lemma Z_range_forallb (P : Z -> bool) (lo : Z) (count : nat) :
  forallb P (Z_range lo count) = true ->
  forall v, (lo <= v < lo + Z.of_nat count)%Z -> P v = true.
Proof.
  intros Hall v Hv. rewrite forallb_forall in Hall. apply Hall, Z_range_In, Hv.
Qed.

Lemma is_byte_range (v : Z) : is_byte v = true <-> (0 <= v <= 255)%Z.
Proof.
  unfold is_byte. rewrite andb_true_iff, !Z.leb_le. reflexivity.
Qed.

Lemma decToBcd_digits (dec : Z) :
  (0 <= dec <= 159)%Z ->
  is_byte (DS3231.decToBcd dec) = true /\
  DS3231.bcdToDec (DS3231.decToBcd dec) = dec /\
  ((dec <= 79)%Z -> bit_and (DS3231.decToBcd dec) 127 = DS3231.decToBcd dec) /\
  ((dec <= 39)%Z -> bit_and (DS3231.decToBcd dec) 63 = DS3231.decToBcd dec) /\
  ((dec <= 19)%Z -> bit_and (DS3231.decToBcd dec) 31 = DS3231.decToBcd dec) /\
  ((dec <= 99)%Z -> is_bcd (DS3231.decToBcd dec) = true).
Proof.
  intros Hdec. split; [|split; [|split; [|split; [|split]]]].
  - apply (Z_range_forallb (fun v => is_byte (DS3231.decToBcd v)) 0 160 ltac:(vm_compute; reflexivity)). lia.
  - apply Z.eqb_eq.
    apply (Z_range_forallb (fun v => (DS3231.bcdToDec (DS3231.decToBcd v) =? v)%Z)
             0 160 ltac:(vm_compute; reflexivity)). lia.
  - intros Hle. apply Z.eqb_eq.
    apply (Z_range_forallb
             (fun v => (bit_and (DS3231.decToBcd v) 127 =? DS3231.decToBcd v)%Z)
             0 80 ltac:(vm_compute; reflexivity)). lia.
  - intros Hle. apply Z.eqb_eq.
    apply (Z_range_forallb
             (fun v => (bit_and (DS3231.decToBcd v) 63 =? DS3231.decToBcd v)%Z)
             0 40 ltac:(vm_compute; reflexivity)). lia.
  - intros Hle. apply Z.eqb_eq.
    apply (Z_range_forallb
             (fun v => (bit_and (DS3231.decToBcd v) 31 =? DS3231.decToBcd v)%Z)
             0 20 ltac:(vm_compute; reflexivity)). lia.
  - intros Hle.
    apply (Z_range_forallb (fun v => is_bcd (DS3231.decToBcd v)) 0 100 ltac:(vm_compute; reflexivity)). lia.
Qed.

(** X13. The two BCD conversions of the clock driver undo each other on
    what the clock stores: a number from 0 to 99 becomes a byte whose two
    nibbles are its decimal digits and converts back to itself, and every
    such byte is the conversion of the number it converts to. Whatever
    byte a register holds, [bcdToDec] gives a number from 0 to 165. *)
Theorem bcd_round_trip :
  (forall dec, (0 <= dec <= 99)%Z ->
               is_byte (DS3231.decToBcd dec) = true /\
               is_bcd (DS3231.decToBcd dec) = true /\
               DS3231.bcdToDec (DS3231.decToBcd dec) = dec) /\
  (forall byte, is_byte byte = true ->
                (0 <= DS3231.bcdToDec byte <= 165)%Z /\
                (is_bcd byte = true ->
                 (DS3231.bcdToDec byte <= 99)%Z /\
                 DS3231.decToBcd (DS3231.bcdToDec byte) = byte)).
Proof.
  split.
  - intros dec Hdec.
    destruct (decToBcd_digits dec ltac:(lia)) as (Hbyte & Hback & _ & _ & _ & Hbcd).
    split; [exact Hbyte|]. split; [apply Hbcd; lia | exact Hback].
  - intros byte Hbyte. unfold is_byte in Hbyte.
    apply andb_prop in Hbyte. destruct Hbyte as (Hlo & Hhi).
    apply Z.leb_le in Hlo. apply Z.leb_le in Hhi.
    pose proof (Z_range_forallb
                  (fun b => (0 <=? DS3231.bcdToDec b)%Z && (DS3231.bcdToDec b <=? 165)%Z
                            && (negb (is_bcd b)
                                || ((DS3231.bcdToDec b <=? 99)%Z
                                    && (DS3231.decToBcd (DS3231.bcdToDec b) =? b)%Z)))
                  0 256 ltac:(vm_compute; reflexivity) byte ltac:(lia)) as Hcheck.
    cbv beta in Hcheck.
    apply andb_prop in Hcheck. destruct Hcheck as (Hrange & Hback).
    apply andb_prop in Hrange. destruct Hrange as (H0 & H165).
    apply Z.leb_le in H0. apply Z.leb_le in H165.
    split; [lia|]. intros Hbcd. rewrite Hbcd in Hback. cbn [negb orb] in Hback.
    apply andb_prop in Hback. destruct Hback as (H99 & Heq).
    apply Z.leb_le in H99. apply Z.eqb_eq in Heq. split; assumption.
Qed.

Lemma bcd_round_trip_witness :
  DS3231.decToBcd 59 = 89%Z /\ DS3231.bcdToDec 89 = 59%Z /\
  DS3231.decToBcd (DS3231.bcdToDec 35) = 35%Z.
Proof.
  destruct bcd_round_trip as (Hdec & Hbyte).
  destruct (Hdec 59%Z ltac:(lia)) as (_ & _ & Hback).
  destruct (Hbyte 35%Z eq_refl) as (_ & Hbcd).
  destruct (Hbcd eq_refl) as (_ & Hback').
  split; [reflexivity|]. split; [exact Hback | exact Hback'].
Defined.

Ltac run_bus :=
  unfold DS3231.this_bus, DS3231.set_initialized, DS3231.set_bus, readByte, writeByte,
    bind, try_catch, await, call, gets, modify, ret, throw;
  cbn [fst snd DS3231.bus DS3231.address DS3231.initialized registers transfers faults].

(** Reading [count] registers in a row over a bus that does not fail. *)
Lemma read_registers_quiet (count : nat) :
  forall (first : Z) (this : DS3231.t) (b : I2CBus),
    DS3231.bus this = Some b ->
    quiet_bus count b ->
    DS3231.read_registers first count this =
    ({| DS3231.address := DS3231.address this;
        DS3231.bus := Some {| registers := registers b;
                              transfers := (count + transfers b)%nat;
                              faults := faults b |};
        DS3231.initialized := DS3231.initialized this |},
     Resolved (map (fun r => (registers b (DS3231.address this) r mod 256)%Z)
                   (Z_range first count))).
Proof.
  induction count as [|count IH]; intros first this b Hbus Hquiet.
  - cbn [DS3231.read_registers Z_range map plus]. unfold ret.
    destruct this as [a bus0 ini]. cbn in Hbus. subst bus0. destruct b. reflexivity.
  - cbn [DS3231.read_registers]. run_bus. rewrite Hbus.
    rewrite (Hquiet (transfers b)) by lia.
    rewrite (IH (first + 1)%Z _ {| registers := registers b;
                                   transfers := S (transfers b);
                                   faults := faults b |}).
    + cbn [DS3231.address DS3231.initialized registers transfers faults Z_range map].
      rewrite Nat.add_succ_r. reflexivity.
    + reflexivity.
    + intros n Hn. cbn [transfers faults] in *. apply Hquiet. lia.
Qed.

Lemma calendar_bytes (date : DS3231.DateFields) :
  calendar_fields date ->
  is_byte (DS3231.decToBcd (DS3231.getSeconds date)) = true /\
  is_byte (DS3231.decToBcd (DS3231.getMinutes date)) = true /\
  is_byte (DS3231.decToBcd (DS3231.getHours date)) = true /\
  is_byte (DS3231.decToBcd (DS3231.getDay date + 1)) = true /\
  is_byte (DS3231.decToBcd (DS3231.getDate date)) = true /\
  is_byte (DS3231.decToBcd (DS3231.getMonth date + 1)) = true /\
  is_byte (DS3231.decToBcd (DS3231.getFullYear date - 2000)) = true.
Proof.
  intros (Hs & Hm & Hh & Hw & Hd & Hmo & Hy).
  repeat split; apply decToBcd_digits; lia.
Qed.

(** What [setTime] leaves on a bus that does not fail. *)
Lemma setTime_quiet (date : DS3231.DateFields) (this : DS3231.t) (b : I2CBus) :
  DS3231.initialized this = true ->
  DS3231.bus this = Some b ->
  calendar_fields date ->
  quiet_bus 7 b ->
  exists b',
    DS3231.setTime date this =
    ({| DS3231.address := DS3231.address this;
        DS3231.bus := Some b';
        DS3231.initialized := true |}, Resolved tt) /\
    transfers b' = (7 + transfers b)%nat /\
    faults b' = faults b /\
    map (registers b' (DS3231.address this)) (Z_range 0 7)
    = [DS3231.decToBcd (DS3231.getSeconds date);
       DS3231.decToBcd (DS3231.getMinutes date);
       DS3231.decToBcd (DS3231.getHours date);
       DS3231.decToBcd (DS3231.getDay date + 1);
       DS3231.decToBcd (DS3231.getDate date);
       DS3231.decToBcd (DS3231.getMonth date + 1);
       DS3231.decToBcd (DS3231.getFullYear date - 2000)] /\
    (forall a r, (a <> DS3231.address this \/ r < 0 \/ 6 < r)%Z ->
                 registers b' a r = registers b a r).
Proof.
  intros Hini Hbus Hdate Hquiet.
  destruct (calendar_bytes date Hdate) as (Hs & Hm & Hh & Hw & Hd & Hmo & Hy).
  unfold DS3231.setTime. rewrite Hini. cbn [negb]. run_bus. rewrite Hbus.
  rewrite Hs, Hm, Hh, Hw, Hd, Hmo, Hy. cbn [negb].
  repeat (rewrite Hquiet by lia;
          cbn [fst snd DS3231.bus DS3231.address DS3231.initialized
               registers transfers faults]).
  rewrite Hini. eexists. split; [reflexivity|].
  cbn [registers transfers faults]. split; [reflexivity|]. split; [reflexivity|]. split.
  - cbn [Z_range map Z.add Pos.add Pos.succ]. rewrite Z.eqb_refl. reflexivity.
  - intros a r Hout.
    destruct (Z.eqb_spec a (DS3231.address this)); cbn [andb]; [|reflexivity].
    repeat match goal with
           | |- context [(r =? ?k)%Z] => destruct (Z.eqb_spec r k); try lia
           end; reflexivity.
Qed.

Section Clock.

Variable now : Z.

(** X14. On an initialized clock whose bus does not fail, [setTime]
    followed by [readTime] gives back the calendar fields of the date that
    was set, for every date from the year 2000 to the year 2159: the date
    read is [new Date(fullYear, month, date, hours, minutes, seconds)] of
    the getters of the date written. The day of the week is stored as
    [getDay() + 1], and no register outside 0..6 is written. *)
Theorem setTime_then_readTime :
  forall (date : DS3231.DateFields) (this : DS3231.t) (b : I2CBus),
    DS3231.initialized this = true ->
    DS3231.bus this = Some b ->
    calendar_fields date ->
    quiet_bus 14 b ->
    snd (DS3231.setTime date this) = Resolved tt /\
    snd (DS3231.readTime now (fst (DS3231.setTime date this)))
    = Resolved (DS3231.new_Date_local (DS3231.getFullYear date) (DS3231.getMonth date)
                  (DS3231.getDate date) (DS3231.getHours date)
                  (DS3231.getMinutes date) (DS3231.getSeconds date)) /\
    exists b',
      DS3231.bus (fst (DS3231.setTime date this)) = Some b' /\
      registers b' (DS3231.address this) 3 = DS3231.decToBcd (DS3231.getDay date + 1) /\
      (forall a r, (a <> DS3231.address this \/ r < 0 \/ 6 < r)%Z ->
                   registers b' a r = registers b a r).
Proof.
  intros date this b Hini Hbus Hdate Hquiet.
  destruct (setTime_quiet date this b Hini Hbus Hdate) as (b' & Hset & Ht & Hf & Hregs & Hout).
  { intros n Hn. apply Hquiet. lia. }
  rewrite Hset. cbn [fst snd]. split; [reflexivity|]. split.
  - unfold DS3231.readTime. cbn [DS3231.initialized negb]. unfold try_catch, bind.
    rewrite (read_registers_quiet 7 0
               {| DS3231.address := DS3231.address this;
                  DS3231.bus := Some b';
                  DS3231.initialized := true |} b' eq_refl).
    2:{ intros n Hn. rewrite Hf. apply Hquiet. lia. }
    cbn [DS3231.address].
    rewrite <- (map_map (registers b' (DS3231.address this)) (fun v => (v mod 256)%Z)).
    rewrite Hregs.
    destruct (calendar_bytes date Hdate) as (Bs & Bm & Bh & Bw & Bd & Bmo & By).
    apply is_byte_range in Bs, Bm, Bh, Bw, Bd, Bmo, By.
    cbn [map]. rewrite !Z.mod_small by lia. cbn [nth snd ret].
    destruct Hdate as (Hs & Hm & Hh & Hw & Hd & Hmo & Hy).
    destruct (decToBcd_digits (DS3231.getSeconds date) ltac:(lia)) as (_ & Hs1 & Hs2 & _).
    destruct (decToBcd_digits (DS3231.getMinutes date) ltac:(lia)) as (_ & Hm1 & Hm2 & _).
    destruct (decToBcd_digits (DS3231.getHours date) ltac:(lia)) as (_ & Hh1 & _ & Hh2 & _).
    destruct (decToBcd_digits (DS3231.getDate date) ltac:(lia)) as (_ & Hd1 & _ & Hd2 & _).
    destruct (decToBcd_digits (DS3231.getMonth date + 1) ltac:(lia))
      as (_ & Hmo1 & _ & _ & Hmo2 & _).
    destruct (decToBcd_digits (DS3231.getFullYear date - 2000) ltac:(lia)) as (_ & Hy1 & _).
    rewrite Hs2, Hm2, Hh2, Hd2, Hmo2 by lia.
    rewrite Hs1, Hm1, Hh1, Hd1, Hmo1, Hy1.
    f_equal. f_equal; lia.
  - exists b'. split; [reflexivity|]. split; [|exact Hout].
    apply (f_equal (fun l => nth 3 l 0%Z)) in Hregs. exact Hregs.
Qed.

End Clock.

Lemma setTime_then_readTime_witness :
  snd (DS3231.readTime 0 (fst (DS3231.setTime example_date example_clock)))
  = Resolved (DS3231.new_Date_local 2024 4 1 23 7 59).
Proof.
  destruct (setTime_then_readTime 0 example_date example_clock
              example_bus eq_refl eq_refl)
    as (_ & Hread & _).
  - unfold calendar_fields, example_date; cbn. lia.
  - intros n _. reflexivity.
  - exact Hread.
Defined.

(** ** Setting a year the clock cannot hold *)

Lemma ToInt32_small (v : Z) :
  (-2147483648 <= v < 2147483648)%Z -> ToInt32 v = v.
Proof.
  intros Hv. unfold ToInt32. rewrite Z.mod_small by lia. lia.
Qed.

Lemma lor_shifted_n (n high low : Z) :
  (0 <= n)%Z -> (0 <= low < 2 ^ n)%Z ->
  Z.lor (Z.shiftl high n) low = (high * 2 ^ n + low)%Z.
Proof.
  intros Hn Hlow.
  assert (Hdisjoint : Z.land (Z.shiftl high n) low = 0%Z).
  { apply Z.bits_inj'. intros k Hk. rewrite Z.land_spec, Z.bits_0.
    destruct (Z.lt_ge_cases k n) as [Hlt|Hge].
    - rewrite Z.shiftl_spec_low by exact Hlt. reflexivity.
    - destruct (Z.eq_dec low 0) as [->|Hne]; [rewrite Z.bits_0; apply andb_false_r|].
      rewrite (Z.bits_above_log2 low k); [apply andb_false_r | lia |].
      apply Z.lt_le_trans with n; [|exact Hge].
      apply Z.log2_lt_pow2; lia. }
  rewrite <- Z.lxor_lor by exact Hdisjoint.
  rewrite <- Z.add_nocarry_lxor by exact Hdisjoint.
  rewrite Z.shiftl_mul_pow2 by lia. reflexivity.
Qed.

Lemma decToBcd_out_of_range (dec : Z) :
  (-273821 <= dec < 0 \/ 160 <= dec <= 273760)%Z ->
  is_byte (DS3231.decToBcd dec) = false.
Proof.
  intros Hdec. unfold DS3231.decToBcd, bit_or, shift_left. change (4 mod 32)%Z with 4%Z.
  assert (Hq : (-27383 <= dec / 10 <= 27376)%Z).
  { split.
    - apply Z.div_le_lower_bound; lia.
    - apply Z.lt_succ_r. apply Z.div_lt_upper_bound; lia. }
  assert (Hsign : (dec < 0 -> dec / 10 < 0)%Z /\ (160 <= dec -> 16 <= dec / 10)%Z).
  { split; intros Hx.
    - apply Z.div_lt_upper_bound; lia.
    - apply Z.div_le_lower_bound; lia. }
  destruct Hsign as (Hnegq & Hbigq).
  assert (Hr : (-9 <= Z.rem dec 10 <= 9)%Z).
  { destruct (Z.le_gt_cases 0 dec) as [Hpos|Hneg].
    - pose proof (Z.rem_bound_pos dec 10 Hpos ltac:(lia)). lia.
    - pose proof (Z.rem_bound_pos (- dec) 10 ltac:(lia) ltac:(lia)) as Hb.
      rewrite Z.rem_opp_l' in Hb. lia. }
  assert (Hshift : Z.shiftl (dec / 10) 4 = (dec / 10 * 16)%Z).
  { rewrite Z.shiftl_mul_pow2 by lia. reflexivity. }
  rewrite (ToInt32_small (dec / 10)) by lia.
  rewrite (ToInt32_small (Z.rem dec 10)) by lia.
  rewrite (ToInt32_small (Z.shiftl (dec / 10) 4)) by (rewrite Hshift; lia).
  rewrite (ToInt32_small (Z.shiftl (dec / 10) 4)) by (rewrite Hshift; lia).
  unfold is_byte. destruct Hdec as [Hneg|Hbig].
  - assert (Hlor : (Z.lor (Z.shiftl (dec / 10) 4) (Z.rem dec 10) < 0)%Z).
    { apply Z.lor_neg. left. apply Z.shiftl_neg. lia. }
    destruct (Z.leb_spec 0 (Z.lor (Z.shiftl (dec / 10) 4) (Z.rem dec 10))); [lia|].
    reflexivity.
  - assert (Hrem : (0 <= Z.rem dec 10 < 10)%Z) by (apply Z.rem_bound_pos; lia).
    rewrite (lor_shifted_n 4) by (change (2 ^ 4)%Z with 16%Z; lia).
    change (2 ^ 4)%Z with 16%Z.
    destruct (Z.leb_spec (dec / 10 * 16 + Z.rem dec 10) 255); [lia|].
    apply andb_false_r.
Qed.

Section Year.

Variable now : Z.

(** X15. [setTime] with a date whose year the clock cannot hold (before
    2000 or after 2159) resolves as if it had worked: the six registers
    from seconds to month are written with the new date, the write of the
    year is refused as not being a byte, the error is swallowed, and the
    year register keeps its old value. A [readTime] after it returns the
    new day and time in the old year. *)
Theorem setTime_year_out_of_range :
  forall (date : DS3231.DateFields) (this : DS3231.t) (b : I2CBus),
    DS3231.initialized this = true ->
    DS3231.bus this = Some b ->
    calendar_fields
      {| DS3231.getSeconds := DS3231.getSeconds date;
         DS3231.getMinutes := DS3231.getMinutes date;
         DS3231.getHours := DS3231.getHours date;
         DS3231.getDay := DS3231.getDay date;
         DS3231.getDate := DS3231.getDate date;
         DS3231.getMonth := DS3231.getMonth date;
         DS3231.getFullYear := 2000 |} ->
    (-271821 <= DS3231.getFullYear date < 2000 \/
     2160 <= DS3231.getFullYear date <= 275760)%Z ->
    quiet_bus 13 b ->
    is_byte (registers b (DS3231.address this) 6) = true ->
    snd (DS3231.setTime date this) = Resolved tt /\
    snd (DS3231.readTime now (fst (DS3231.setTime date this)))
    = Resolved (DS3231.new_Date_local
                  (DS3231.bcdToDec (registers b (DS3231.address this) 6) + 2000)
                  (DS3231.getMonth date) (DS3231.getDate date) (DS3231.getHours date)
                  (DS3231.getMinutes date) (DS3231.getSeconds date)) /\
    exists b',
      DS3231.bus (fst (DS3231.setTime date this)) = Some b' /\
      transfers b' = (6 + transfers b)%nat /\
      registers b' (DS3231.address this) 6 = registers b (DS3231.address this) 6.
Proof.
  intros date this b Hini Hbus Hdate Hyear Hquiet Hold.
  destruct (calendar_bytes _ Hdate) as (Hs & Hm & Hh & Hw & Hd & Hmo & _).
  cbn [DS3231.getSeconds DS3231.getMinutes DS3231.getHours DS3231.getDay DS3231.getDate
       DS3231.getMonth] in Hs, Hm, Hh, Hw, Hd, Hmo.
  assert (Hy : is_byte (DS3231.decToBcd (DS3231.getFullYear date - 2000)) = false).
  { apply decToBcd_out_of_range. lia. }
  assert (Hset : exists b',
             DS3231.setTime date this
             = ({| DS3231.address := DS3231.address this;
                   DS3231.bus := Some b';
                   DS3231.initialized := true |}, Resolved tt) /\
             transfers b' = (6 + transfers b)%nat /\
             faults b' = faults b /\
             map (registers b' (DS3231.address this)) (Z_range 0 7)
             = [DS3231.decToBcd (DS3231.getSeconds date);
                DS3231.decToBcd (DS3231.getMinutes date);
                DS3231.decToBcd (DS3231.getHours date);
                DS3231.decToBcd (DS3231.getDay date + 1);
                DS3231.decToBcd (DS3231.getDate date);
                DS3231.decToBcd (DS3231.getMonth date + 1);
                registers b (DS3231.address this) 6]).
  { unfold DS3231.setTime. rewrite Hini. cbn [negb]. run_bus. rewrite Hbus.
    rewrite Hs, Hm, Hh, Hw, Hd, Hmo, Hy. cbn [negb].
    repeat (rewrite Hquiet by lia;
            cbn [fst snd DS3231.bus DS3231.address DS3231.initialized
                 registers transfers faults]).
    rewrite Hini. eexists. split; [reflexivity|].
    cbn [registers transfers faults]. split; [reflexivity|]. split; [reflexivity|].
    cbn [Z_range map Z.add Pos.add Pos.succ]. rewrite Z.eqb_refl. reflexivity. }
  destruct Hset as (b' & Hset & Ht & Hf & Hregs).
  rewrite Hset. cbn [fst snd]. split; [reflexivity|]. split.
  - unfold DS3231.readTime. cbn [DS3231.initialized negb]. unfold try_catch, bind.
    rewrite (read_registers_quiet 7 0
               {| DS3231.address := DS3231.address this;
                  DS3231.bus := Some b';
                  DS3231.initialized := true |} b' eq_refl).
    2:{ intros n Hn. rewrite Hf. apply Hquiet. lia. }
    cbn [DS3231.address].
    rewrite <- (map_map (registers b' (DS3231.address this)) (fun v => (v mod 256)%Z)).
    rewrite Hregs.
    apply is_byte_range in Hs, Hm, Hh, Hw, Hd, Hmo, Hold.
    cbn [map]. rewrite !Z.mod_small by lia. cbn [nth snd ret].
    destruct Hdate as (Rs & Rm & Rh & Rw & Rd & Rmo & _).
    cbn [DS3231.getSeconds DS3231.getMinutes DS3231.getHours DS3231.getDay DS3231.getDate
         DS3231.getMonth] in Rs, Rm, Rh, Rw, Rd, Rmo.
    destruct (decToBcd_digits (DS3231.getSeconds date) ltac:(lia)) as (_ & Hs1 & Hs2 & _).
    destruct (decToBcd_digits (DS3231.getMinutes date) ltac:(lia)) as (_ & Hm1 & Hm2 & _).
    destruct (decToBcd_digits (DS3231.getHours date) ltac:(lia)) as (_ & Hh1 & _ & Hh2 & _).
    destruct (decToBcd_digits (DS3231.getDate date) ltac:(lia)) as (_ & Hd1 & _ & Hd2 & _).
    destruct (decToBcd_digits (DS3231.getMonth date + 1) ltac:(lia))
      as (_ & Hmo1 & _ & _ & Hmo2 & _).
    rewrite Hs2, Hm2, Hh2, Hd2, Hmo2 by lia.
    rewrite Hs1, Hm1, Hh1, Hd1, Hmo1.
    f_equal. f_equal; lia.
  - exists b'. split; [reflexivity|]. split; [exact Ht|].
    apply (f_equal (fun l => nth 6 l 0%Z)) in Hregs. exact Hregs.
Qed.

End Year.

Lemma setTime_year_out_of_range_witness :
  snd (DS3231.readTime 0 (fst (DS3231.setTime distant_date example_clock)))
  = Resolved (DS3231.new_Date_local 2000 4 1 23 7 59).
Proof.
  destruct (setTime_year_out_of_range 0 distant_date example_clock example_bus
              eq_refl eq_refl) as (_ & Hread & _).
  - unfold calendar_fields, distant_date; cbn. lia.
  - right. unfold distant_date; cbn. lia.
  - intros n _. reflexivity.
  - reflexivity.
  - exact Hread.
Defined.

(** ** The temperature *)

Lemma temperature_bits (msb lsb : Z) :
  is_byte msb = true -> is_byte lsb = true ->
  nonzero (bit_and msb 128) = (128 <=? msb)%Z /\
  (lsb / 64 = (if nonzero (bit_and lsb 128) then 2 else 0)
              + (if nonzero (bit_and lsb 64) then 1 else 0))%Z.
Proof.
  unfold is_byte. intros Hm Hl.
  apply andb_prop in Hm. destruct Hm as (Hm0 & Hm1).
  apply andb_prop in Hl. destruct Hl as (Hl0 & Hl1).
  apply Z.leb_le in Hm0, Hm1, Hl0, Hl1. split.
  - apply Bool.eqb_prop.
    apply (Z_range_forallb (fun m => Bool.eqb (nonzero (bit_and m 128)) (128 <=? m)%Z)
             0 256 ltac:(vm_compute; reflexivity)). lia.
  - apply Z.eqb_eq.
    apply (Z_range_forallb
             (fun l => (l / 64 =? (if nonzero (bit_and l 128) then 2 else 0)
                                  + (if nonzero (bit_and l 64) then 1 else 0))%Z)
             0 256 ltac:(vm_compute; reflexivity)). lia.
Qed.

(** X16. On an initialized clock whose bus does not fail, [getTemperature]
    decodes the two temperature registers as the chip stores them: four
    times the result is the 10-bit two's complement number made of the MSB
    register and the two top bits of the LSB register. The result lies
    between -128 and 127.75 and the six low bits of the LSB register do
    not enter it. *)
Theorem getTemperature_decodes :
  forall (this : DS3231.t) (b : I2CBus),
    DS3231.initialized this = true ->
    DS3231.bus this = Some b ->
    quiet_bus 2 b ->
    let msb := registers b (DS3231.address this) 17 in
    let lsb := registers b (DS3231.address this) 18 in
    is_byte msb = true ->
    is_byte lsb = true ->
    exists t,
      snd (DS3231.getTemperature this) = Resolved t /\
      (t * 4 == inject_Z (twos_complement 10 (msb * 4 + lsb / 64)))%Q /\
      (-128 <= t)%Q /\ (t <= 127 + (3 # 4))%Q.
Proof.
  intros this b Hini Hbus Hquiet msb lsb Hmsb Hlsb.
  destruct (temperature_bits msb lsb Hmsb Hlsb) as (Hneg & Hfrac).
  unfold DS3231.getTemperature. rewrite Hini. cbn [negb]. run_bus. rewrite Hbus.
  repeat (rewrite Hquiet by lia;
          cbn [fst snd DS3231.bus DS3231.address DS3231.initialized
               registers transfers faults]).
  fold msb lsb. eexists. split; [reflexivity|].
  rewrite Hneg. unfold twos_complement. rewrite Hfrac.
  unfold is_byte in Hmsb, Hlsb.
  apply andb_prop in Hmsb. destruct Hmsb as (Hm0 & Hm1).
  apply Z.leb_le in Hm0, Hm1.
  change (2 ^ (10 - 1))%Z with 512%Z. change (2 ^ 10)%Z with 1024%Z.
  destruct (nonzero (bit_and lsb 128)); destruct (nonzero (bit_and lsb 64));
    destruct (Z.leb_spec 128 msb);
    match goal with
    | |- context [(?v <? 512)%Z] => destruct (Z.ltb_spec v 512); try lia
    end;
    unfold Qeq, Qle, Qplus, Qminus, Qopp, Qmult, inject_Z; cbn; repeat split; lia.
Qed.

Lemma getTemperature_decodes_witness :
  exists t, snd (DS3231.getTemperature example_clock) = Resolved t /\
            (t * 4 == inject_Z (-97))%Q.
Proof.
  destruct (getTemperature_decodes example_clock
              example_bus eq_refl eq_refl)
    as (t & Ht & Hval & _).
  - intros n _. reflexivity.
  - reflexivity.
  - reflexivity.
  - exists t. split; [exact Ht | exact Hval].
Defined.

(** ** The timestamp handed to the tracker *)

Lemma read_registers_outcome (count : nat) :
  forall (first : Z) (this : DS3231.t),
    (forall e, snd (DS3231.read_registers first count this) <> Uncaught e) /\
    DS3231.initialized (fst (DS3231.read_registers first count this))
    = DS3231.initialized this /\
    DS3231.address (fst (DS3231.read_registers first count this)) = DS3231.address this.
Proof.
  induction count as [|count IH]; intros first this.
  - cbn. repeat split. discriminate.
  - cbn [DS3231.read_registers]. run_bus.
    destruct (DS3231.bus this) as [b|]; [|cbn; repeat split; discriminate].
    destruct (faults b (transfers b)); cbn [fst snd]; [repeat split; discriminate|].
    match goal with
    | |- context [DS3231.read_registers ?f count ?s] =>
        destruct (IH f s) as (Hu & Hi & Ha);
        destruct (DS3231.read_registers f count s) as [s' [l|e|e]]
    end; cbn [fst snd] in *; repeat split; try discriminate; try assumption.
Qed.

Lemma read_registers_dead (count : nat) (first : Z) (this : DS3231.t) :
  dead_bus this ->
  exists e this',
    DS3231.read_registers first (S count) this = (this', Rejected e) /\
    dead_bus this' /\
    DS3231.initialized this' = DS3231.initialized this.
Proof.
  unfold dead_bus. intros Hdead. cbn [DS3231.read_registers]. run_bus.
  destruct (DS3231.bus this) as [b|] eqn:Hbus.
  - destruct (faults b (transfers b)) as [e|] eqn:Hf; [|contradiction (Hdead _ Hf)].
    eexists; eexists. split; [reflexivity|]. split; [exact Hdead | reflexivity].
  - eexists; eexists. split; [reflexivity|]. rewrite Hbus. split; [exact I | reflexivity].
Qed.

Lemma readTime_outcome (now : Z) (this : DS3231.t) :
  exists d,
    snd (DS3231.readTime now this) = Resolved d /\
    DS3231.initialized (fst (DS3231.readTime now this)) = DS3231.initialized this /\
    (DS3231.initialized this = false ->
     d = DS3231.new_Date now /\ fst (DS3231.readTime now this) = this) /\
    (dead_bus this -> d = DS3231.new_Date now /\ dead_bus (fst (DS3231.readTime now this))).
Proof.
  unfold DS3231.readTime. destruct (DS3231.initialized this) eqn:Hini; cbn [negb].
  2:{ eexists. split; [reflexivity|]. split; [exact Hini|].
      split; [intros _; split; reflexivity|]. intros Hdead. split; [reflexivity | exact Hdead]. }
  unfold try_catch, bind.
  destruct (read_registers_outcome 7 0 this) as (Hu & Hi & _).
  destruct (DS3231.read_registers 0 7 this) as [s' [data|e|e]] eqn:Hread;
    unfold ret; cbn [fst snd] in *.
  - eexists. split; [reflexivity|]. split; [congruence|]. split; [discriminate|].
    intros Hdead. destruct (read_registers_dead 6 0 this Hdead) as (e & s'' & Hrej & _).
    rewrite Hrej in Hread. discriminate.
  - eexists. split; [reflexivity|]. split; [congruence|]. split; [discriminate|].
    intros Hdead. destruct (read_registers_dead 6 0 this Hdead) as (e' & s'' & Hrej & Hd & _).
    rewrite Hrej in Hread. injection Hread as <- _. split; [reflexivity | exact Hd].
  - contradiction (Hu e eq_refl).
Qed.

Lemma getTemperature_outcome (this : DS3231.t) :
  exists t,
    snd (DS3231.getTemperature this) = Resolved t /\
    DS3231.initialized (fst (DS3231.getTemperature this)) = DS3231.initialized this /\
    (DS3231.initialized this = false ->
     t = 25%Q /\ fst (DS3231.getTemperature this) = this) /\
    (dead_bus this -> t = 25%Q).
Proof.
  unfold DS3231.getTemperature, dead_bus.
  destruct (DS3231.initialized this) eqn:Hini; cbn [negb].
  2:{ eexists. split; [reflexivity|]. split; [exact Hini|].
      split; [intros _; split; reflexivity | reflexivity]. }
  run_bus. destruct (DS3231.bus this) as [b|].
  2:{ eexists. split; [reflexivity|]. split; [exact Hini|]. split; [discriminate | reflexivity]. }
  destruct (faults b (transfers b)) as [e|] eqn:Hf; cbn [fst snd DS3231.bus].
  { eexists. split; [reflexivity|]. split; [exact Hini|]. split; [discriminate | reflexivity]. }
  cbn [transfers faults].
  destruct (faults b (S (transfers b))) as [e|]; cbn [fst snd DS3231.initialized].
  { eexists. split; [reflexivity|]. split; [exact Hini|]. split; [discriminate|].
    intros Hdead. contradiction (Hdead _ Hf). }
  eexists. split; [reflexivity|]. split; [exact Hini|]. split; [discriminate|].
  intros Hdead. contradiction (Hdead _ Hf).
Qed.

(** X17. [getPreciseTimestamp] never rejects, and it labels its result by
    the state of the driver, not by where the time came from: [source] is
    'DS3231' and [precision] 'RTC' exactly when the clock was initialized.
    On a clock that was never initialized the result is the system time
    and 25 degrees and the bus is not touched. On an initialized clock
    whose chip no longer answers the result is the system time and 25
    degrees as well, and is still labelled 'DS3231' and 'RTC'. *)
Theorem getPreciseTimestamp_source_label :
  forall (methods : DS3231.DateMethods) (now : Z) (this : DS3231.t),
    let r := DS3231.getPreciseTimestamp methods now this in
    exists ts,
      snd r = Resolved ts /\
      DS3231.iso ts = DS3231.toISOString methods (DS3231.timestamp ts) /\
      (DS3231.source ts = "DS3231" <-> DS3231.initialized this = true) /\
      (DS3231.precision ts = "RTC" <-> DS3231.initialized this = true) /\
      (DS3231.initialized this = false ->
       fst r = this /\
       DS3231.timestamp ts = DS3231.new_Date now /\ DS3231.temperature ts = 25%Q) /\
      (DS3231.initialized this = true -> dead_bus this ->
       DS3231.timestamp ts = DS3231.new_Date now /\ DS3231.temperature ts = 25%Q /\
       DS3231.source ts = "DS3231" /\ DS3231.precision ts = "RTC").
Proof.
  intros methods now this r; subst r.
  unfold DS3231.getPreciseTimestamp, bind, gets, ret.
  destruct (readTime_outcome now this) as (d & Hd & Hi & Hoff & Hdead).
  destruct (DS3231.readTime now this) as [s1 o1]. cbn [fst snd] in *. subst o1.
  destruct (getTemperature_outcome s1) as (t & Ht & Hi' & Hoff' & Hdead').
  destruct (DS3231.getTemperature s1) as [s2 o2]. cbn [fst snd] in *. subst o2.
  eexists. split; [reflexivity|].
  cbn [DS3231.iso DS3231.timestamp DS3231.source DS3231.precision DS3231.temperature].
  rewrite Hi', Hi.
  split; [reflexivity|].
  split; [destruct (DS3231.initialized this); split; intros Hx; congruence|].
  split; [destruct (DS3231.initialized this); split; intros Hx; congruence|].
  split.
  - intros Hini. destruct (Hoff Hini) as (-> & ->).
    destruct (Hoff' Hini) as (-> & ->). repeat split.
  - intros Hini Hbus. destruct (Hdead Hbus) as (-> & Hbus').
    rewrite (Hdead' Hbus'), Hini. repeat split.
Qed.

Lemma getPreciseTimestamp_source_label_witness :
  exists ts,
    snd (DS3231.getPreciseTimestamp example_date_methods 1714604879000 unplugged_clock)
    = Resolved ts /\
    DS3231.timestamp ts = DS3231.new_Date 1714604879000 /\
    DS3231.source ts = "DS3231".
Proof.
  destruct (getPreciseTimestamp_source_label example_date_methods 1714604879000
              unplugged_clock) as (ts & Hts & _ & _ & _ & _ & Hdead).
  destruct (Hdead eq_refl) as (Htime & _ & Hsource & _).
  - intros n. discriminate.
  - exists ts. split; [exact Hts|]. split; [exact Htime | exact Hsource].
Defined.

(** ** Start-up of the clock *)

Lemma status_bits (status : Z) :
  is_byte status = true ->
  is_byte (bit_and status 127) = true /\
  bit_and status 127 = (status mod 128)%Z /\
  (nonzero (bit_and status 128) = false -> (status mod 128)%Z = status).
Proof.
  unfold is_byte at 1. intros Hs. apply andb_prop in Hs. destruct Hs as (H0 & H1).
  apply Z.leb_le in H0, H1.
  pose proof (Z_range_forallb
                (fun s => is_byte (bit_and s 127)
                          && (bit_and s 127 =? s mod 128)%Z
                          && (nonzero (bit_and s 128) || (s mod 128 =? s)%Z))
                0 256 ltac:(vm_compute; reflexivity) status ltac:(lia)) as Hcheck.
  cbv beta in Hcheck.
  apply andb_prop in Hcheck. destruct Hcheck as (Hcheck & Hclear).
  apply andb_prop in Hcheck. destruct Hcheck as (Hbyte & Hmod).
  apply Z.eqb_eq in Hmod. split; [exact Hbyte|]. split; [exact Hmod|].
  intros Hoff. rewrite Hoff in Hclear. apply Z.eqb_eq in Hclear. exact Hclear.
Qed.

(** X18. [initialize] of the clock never rejects. Without the i2c module
    it leaves the driver uninitialized and without a bus. With a bus, the
    driver ends up initialized exactly when no transfer failed: the two
    reads and, if the oscillator-stop flag was set, the write that clears
    it. Then the status register holds its former value without the flag
    (bit 7) and no other register has changed. *)
Theorem clock_initialize :
  forall (i2c : option (I2CBus + Error)) (this : DS3231.t),
    let r := DS3231.initialize i2c this in
    let a := DS3231.address this in
    snd r = Resolved tt /\
    (i2c = None -> DS3231.initialized (fst r) = false /\ DS3231.bus (fst r) = DS3231.bus this) /\
    (forall e, i2c = Some (inr e) ->
               DS3231.initialized (fst r) = false /\ DS3231.bus (fst r) = DS3231.bus this) /\
    (forall b, i2c = Some (inl b) ->
               is_byte (registers b a 15) = true ->
               (DS3231.initialized (fst r) = true <->
                faults b (transfers b) = None /\
                faults b (S (transfers b)) = None /\
                (nonzero (bit_and (registers b a 15) 128) = true ->
                 faults b (S (S (transfers b))) = None)) /\
               (DS3231.initialized (fst r) = true ->
                exists b',
                  DS3231.bus (fst r) = Some b' /\
                  registers b' a 15 = (registers b a 15 mod 128)%Z /\
                  (forall a' r', (a' <> a \/ r' <> 15)%Z ->
                                 registers b' a' r' = registers b a' r'))).
Proof.
  intros i2c this r a; subst r a. unfold DS3231.initialize.
  destruct i2c as [[b|e]|]; run_bus.
  3:{ split; [reflexivity|]. split; [split; reflexivity|]. split; intros; discriminate. }
  2:{ split; [reflexivity|]. split; [discriminate|]. split; [|discriminate].
      intros e' _. split; reflexivity. }
  split.
  { destruct (faults b (transfers b)); cbn [fst snd DS3231.bus transfers faults registers];
      [reflexivity|].
    destruct (faults b (S (transfers b)));
      cbn [fst snd DS3231.bus transfers faults registers]; [reflexivity|].
    destruct (nonzero (bit_and (registers b (DS3231.address this) 15) 128));
      cbn [fst snd DS3231.bus transfers faults registers]; [|reflexivity].
    destruct (negb (is_byte _)); cbn [fst snd]; [reflexivity|].
    destruct (faults b (S (S (transfers b)))); reflexivity. }
  split; [discriminate|]. split; [discriminate|].
  intros b0 Hb Hstatus. injection Hb as <-.
  destruct (status_bits _ Hstatus) as (Hbyte & Hmod & Hclear).
  destruct (faults b (transfers b)) as [e|];
    cbn [fst snd DS3231.bus DS3231.initialized transfers faults registers].
  { split; [split; [discriminate | intros (Hx & _); discriminate] | discriminate]. }
  destruct (faults b (S (transfers b))) as [e|];
    cbn [fst snd DS3231.bus DS3231.initialized transfers faults registers].
  { split; [split; [discriminate | intros (_ & Hx & _); discriminate] | discriminate]. }
  destruct (nonzero (bit_and (registers b (DS3231.address this) 15) 128)) eqn:Hflag;
    cbn [fst snd DS3231.bus DS3231.initialized transfers faults registers].
  - rewrite Hbyte. cbn [negb].
    destruct (faults b (S (S (transfers b)))) as [e|];
      cbn [fst snd DS3231.bus DS3231.initialized transfers faults registers].
    { split; [split; [discriminate | intros (_ & _ & Hx); discriminate (Hx eq_refl)]
             | discriminate]. }
    split; [split; [intros _; repeat split | reflexivity]|].
    intros _. eexists. split; [reflexivity|]. cbn [registers]. split.
    + rewrite !Z.eqb_refl. cbn [andb]. exact Hmod.
    + intros a' r' Hne.
      destruct (Z.eqb_spec a' (DS3231.address this));
        destruct (Z.eqb_spec r' 15); cbn [andb]; try reflexivity. lia.
  - split; [split; [intros _; repeat split; discriminate | reflexivity]|].
    intros _. eexists. split; [reflexivity|]. cbn [registers].
    split; [symmetry; apply Hclear; reflexivity | reflexivity].
Qed.

Lemma clock_initialize_witness :
  exists b',
    DS3231.bus (fst (DS3231.initialize (Some (inl example_bus)) DS3231.new_DS3231)) = Some b' /\
    registers example_bus 104 15 = 136%Z /\
    registers b' 104 15 = 8%Z.
Proof.
  destruct (clock_initialize (Some (inl example_bus)) DS3231.new_DS3231)
    as (_ & _ & _ & Hbus).
  destruct (Hbus example_bus eq_refl eq_refl) as (_ & Hready).
  destruct (Hready eq_refl) as (b' & Hb' & Hstatus & _).
  exists b'. split; [exact Hb'|]. split; [reflexivity | exact Hstatus].
Defined.

(* ================================================================== *)
(** * The accelerometer *)
(* ================================================================== *)

Ltac run_accelerometer :=
  unfold LIS3DH.readAcceleration, LIS3DH.checkInterrupt, LIS3DH.this_bus, LIS3DH.emit_motion,
    readByte, bind, try_catch, await, call, gets, modify, ret, throw;
  cbn [fst snd LIS3DH.bus LIS3DH.address LIS3DH.emitted registers transfers faults].

Lemma lor_shifted (high low : Z) :
  (0 <= low < 256)%Z -> Z.lor (Z.shiftl high 8) low = (high * 256 + low)%Z.
Proof.
  intros Hlow. apply (lor_shifted_n 8); [lia|]. change (2 ^ 8)%Z with 256%Z. exact Hlow.
Qed.

Lemma axis_word (high low : Z) :
  is_byte high = true -> is_byte low = true ->
  bit_or (shift_left high 8) low = (high * 256 + low)%Z.
Proof.
  unfold is_byte. intros Hh Hl.
  apply andb_prop in Hh. destruct Hh as (Hh0 & Hh1).
  apply andb_prop in Hl. destruct Hl as (Hl0 & Hl1).
  apply Z.leb_le in Hh0, Hh1, Hl0, Hl1.
  unfold bit_or, shift_left. change (8 mod 32)%Z with 8%Z.
  rewrite (ToInt32_small high), (ToInt32_small low) by lia.
  assert (Hshift : Z.shiftl high 8 = (high * 256)%Z).
  { rewrite Z.shiftl_mul_pow2 by lia. reflexivity. }
  rewrite (ToInt32_small (Z.shiftl high 8)) by (rewrite Hshift; lia).
  rewrite (ToInt32_small (Z.shiftl high 8)) by (rewrite Hshift; lia).
  apply lor_shifted. lia.
Qed.

Lemma convertToG_range (raw : Z) :
  (0 <= raw <= 65535)%Z ->
  (LIS3DH.convertToG raw == inject_Z (twos_complement 16 raw) / 16384)%Q /\
  (-2 <= LIS3DH.convertToG raw)%Q /\ (LIS3DH.convertToG raw < 2)%Q.
Proof.
  intros Hraw. unfold LIS3DH.convertToG, twos_complement.
  change (2 ^ (16 - 1))%Z with 32768%Z. change (2 ^ 16)%Z with 65536%Z.
  destruct (Z.ltb_spec 32767 raw); destruct (Z.ltb_spec raw 32768); try lia;
    (split; [reflexivity|]);
    unfold Qle, Qlt, Qdiv, Qmult, Qinv, inject_Z; cbn; lia.
Qed.

(** X19. [readAcceleration] never rejects. When the six reads succeed it
    returns, for each axis, the 16-bit two's complement number made of
    the high and the low register divided by 16384, a value from -2
    inclusive to 2 exclusive. When a read fails, or no bus was opened, it
    returns zero on all three axes, which is also what a device at rest
    in free fall would show. *)
Theorem readAcceleration_decodes :
  forall (this : LIS3DH.t),
    (exists acc, snd (LIS3DH.readAcceleration this) = Resolved acc) /\
    (forall b,
        LIS3DH.bus this = Some b ->
        quiet_bus 6 b ->
        (forall r, is_byte (registers b (LIS3DH.address this) r) = true) ->
        let word low := (registers b (LIS3DH.address this) (low + 1) * 256
                         + registers b (LIS3DH.address this) low)%Z in
        exists acc,
          snd (LIS3DH.readAcceleration this) = Resolved acc /\
          (LIS3DH.x acc == inject_Z (twos_complement 16 (word 40%Z)) / 16384)%Q /\
          (LIS3DH.y acc == inject_Z (twos_complement 16 (word 42%Z)) / 16384)%Q /\
          (LIS3DH.z acc == inject_Z (twos_complement 16 (word 44%Z)) / 16384)%Q /\
          (-2 <= LIS3DH.x acc)%Q /\ (LIS3DH.x acc < 2)%Q /\
          (-2 <= LIS3DH.y acc)%Q /\ (LIS3DH.y acc < 2)%Q /\
          (-2 <= LIS3DH.z acc)%Q /\ (LIS3DH.z acc < 2)%Q) /\
    ((LIS3DH.bus this = None \/
      exists b n, LIS3DH.bus this = Some b /\ (n < 6)%nat /\
                  faults b (n + transfers b)%nat <> None) ->
     snd (LIS3DH.readAcceleration this)
     = Resolved {| LIS3DH.x := 0; LIS3DH.y := 0; LIS3DH.z := 0 |}).
Proof.
  intros this. split; [|split].
  - run_accelerometer. destruct (LIS3DH.bus this) as [b|]; [|eexists; reflexivity].
    repeat match goal with
           | |- context [faults b ?n] =>
               destruct (faults b n);
               cbn [fst snd LIS3DH.bus LIS3DH.address LIS3DH.emitted registers transfers faults];
               [eexists; reflexivity|]
           end.
    eexists; reflexivity.
  - intros b Hbus Hquiet Hbytes word. run_accelerometer. rewrite Hbus.
    repeat (rewrite Hquiet by lia;
            cbn [fst snd LIS3DH.bus LIS3DH.address LIS3DH.emitted registers transfers faults]).
    eexists. split; [reflexivity|]. cbn [LIS3DH.x LIS3DH.y LIS3DH.z].
    rewrite !axis_word by apply Hbytes.
    assert (Hword : forall low, (0 <= word low <= 65535)%Z).
    { intros low. subst word. cbv beta.
      pose proof (Hbytes (low + 1)%Z) as Hh. pose proof (Hbytes low) as Hl.
      unfold is_byte in Hh, Hl.
      apply andb_prop in Hh. destruct Hh as (Hh0 & Hh1).
      apply andb_prop in Hl. destruct Hl as (Hl0 & Hl1).
      apply Z.leb_le in Hh0, Hh1, Hl0, Hl1. lia. }
    destruct (convertToG_range (word 40%Z) (Hword _)) as (Hx & Hx0 & Hx1).
    destruct (convertToG_range (word 42%Z) (Hword _)) as (Hy & Hy0 & Hy1).
    destruct (convertToG_range (word 44%Z) (Hword _)) as (Hz & Hz0 & Hz1).
    subst word. cbv beta in *. change (40 + 1)%Z with 41%Z in *.
    change (42 + 1)%Z with 43%Z in *. change (44 + 1)%Z with 45%Z in *.
    repeat split; assumption.
  - intros [Hnone|(b & n & Hbus & Hn & Hfault)]; run_accelerometer.
    + rewrite Hnone. reflexivity.
    + rewrite Hbus.
      repeat match goal with
             | |- context [faults b ?k] =>
                 destruct (faults b k) eqn:?;
                 cbn [fst snd LIS3DH.bus LIS3DH.address LIS3DH.emitted
                      registers transfers faults];
                 [reflexivity|]
             end.
      exfalso. apply Hfault.
      destruct n as [|[|[|[|[|[|n]]]]]]; cbn [plus]; try assumption. lia.
Qed.

Lemma readAcceleration_decodes_witness :
  exists acc,
    snd (LIS3DH.readAcceleration example_accelerometer) = Resolved acc /\
    (LIS3DH.x acc == - (1 # 256))%Q /\ (LIS3DH.z acc == 1)%Q.
Proof.
  destruct (readAcceleration_decodes example_accelerometer) as (_ & Hquiet & _).
  destruct (Hquiet _ eq_refl) as (acc & Hacc & Hx & _ & Hz & _).
  - intros n _. reflexivity.
  - intros r. cbn [example_accelerometer LIS3DH.address registers].
    destruct (r =? 40)%Z; [reflexivity|]. destruct (r =? 41)%Z; [reflexivity|].
    destruct (r =? 45)%Z; [reflexivity|]. destruct (r =? 49)%Z; reflexivity.
  - exists acc. split; [exact Hacc|]. split.
    + rewrite Hx. reflexivity.
    + rewrite Hz. reflexivity.
Defined.

(** X20. One run of the polling callback emits at most one 'motion' event.
    When the read of the interrupt source succeeds, it emits one exactly
    when the IA bit (bit 6) of that register is set; when that read fails
    or no bus was opened, it emits nothing and makes no further transfer.
    The event is emitted before the register is read again to clear the
    interrupt: whenever the callback rejects, the event of this run has
    already been sent. *)
Theorem poll_emits_on_interrupt :
  forall (this : LIS3DH.t),
    let r := LIS3DH.poll this in
    (LIS3DH.emitted (fst r) = LIS3DH.emitted this \/
     exists acc, LIS3DH.emitted (fst r) = (LIS3DH.emitted this ++ [acc])%list) /\
    (forall b, LIS3DH.bus this = Some b ->
               faults b (transfers b) = None ->
               (length (LIS3DH.emitted (fst r)) = S (length (LIS3DH.emitted this)) <->
                nonzero (bit_and (registers b (LIS3DH.address this) 49) 64) = true)) /\
    (forall b e, LIS3DH.bus this = Some b ->
                 faults b (transfers b) = Some e ->
                 snd r = Resolved tt /\
                 LIS3DH.emitted (fst r) = LIS3DH.emitted this /\
                 option_map transfers (LIS3DH.bus (fst r)) = Some (S (transfers b))) /\
    (LIS3DH.bus this = None -> r = (this, Resolved tt)) /\
    (forall e, snd r = Rejected e ->
               exists acc, LIS3DH.emitted (fst r) = (LIS3DH.emitted this ++ [acc])%list) /\
    (forall e, snd r <> Uncaught e).
Proof.
  intros this r; subst r. unfold LIS3DH.poll. run_accelerometer.
  destruct this as [a [b|] log];
    cbn [fst snd LIS3DH.bus LIS3DH.address LIS3DH.emitted registers transfers faults].
  2:{ split; [left; reflexivity|]. split; [discriminate|]. split; [discriminate|].
      split; [reflexivity|]. split; discriminate. }
  destruct (faults b (transfers b)) as [e0|] eqn:Hf0;
    cbn [fst snd LIS3DH.bus LIS3DH.address LIS3DH.emitted registers transfers faults negb].
  { split; [left; reflexivity|]. split; [intros b' Hb Hx; cbn in Hb; injection Hb as <-; congruence|].
    split; [intros b' e Hb _; cbn in Hb; injection Hb as <-; repeat split|].
    split; [discriminate|]. split; discriminate. }
  unfold nonzero.
  destruct (bit_and (registers b a 49) 64 =? 0)%Z eqn:Hbit;
    cbn [fst snd LIS3DH.bus LIS3DH.address LIS3DH.emitted registers transfers faults negb].
  { split; [left; reflexivity|].
    split; [intros b' Hb _; injection Hb as <-; rewrite Hbit;
           split; [intros Hlen; lia | discriminate]|].
    split; [intros b' e Hb Hx; cbn in Hb; injection Hb as <-; congruence|].
    split; [discriminate|]. split; discriminate. }
  repeat match goal with
         | |- context [match faults b ?k with _ => _ end] =>
             destruct (faults b k);
             cbn [fst snd LIS3DH.bus LIS3DH.address LIS3DH.emitted registers transfers faults]
         end;
    (split; [right; eexists; reflexivity|];
     split; [intros b' Hb _; injection Hb as <-; rewrite Hbit;
             split; [reflexivity | intros _; rewrite length_app; cbn; lia]|];
     split; [intros b' e' Hb Hx; cbn in Hb; injection Hb as <-; congruence|];
     split; [discriminate|];
     split; [intros e' He; eexists; reflexivity | discriminate]).
Qed.

Lemma poll_emits_on_interrupt_witness :
  length (LIS3DH.emitted (fst (LIS3DH.poll example_accelerometer))) = 1%nat.
Proof.
  destruct (poll_emits_on_interrupt example_accelerometer) as (_ & Hemit & _).
  apply (Hemit _ eq_refl eq_refl). reflexivity.
Defined.

(* ================================================================== *)
(** * The camera *)
(* ================================================================== *)

Lemma captureMockFrame_outcome (io : CameraCapture.CaptureIO) (this : CameraCapture.t) :
  fst (CameraCapture.captureMockFrame io this) = this /\
  (forall e, snd (CameraCapture.captureMockFrame io this) <> Uncaught e) /\
  ((exists e, snd (CameraCapture.captureMockFrame io this) = Rejected e) <-> mock_fails io) /\
  (forall frame, snd (CameraCapture.captureMockFrame io this) = Resolved frame ->
                 CameraCapture.mock frame = true /\
                 CameraCapture.filename frame
                 = "mock_frame_" ++ replace_colons_and_dots (CameraCapture.toISOString io)
                                 ++ ".jpg").
Proof.
  unfold CameraCapture.captureMockFrame, mock_fails, CameraCapture.fails,
    try_catch, bind, call, ret, throw.
  destruct (CameraCapture.loadFont io) as [e|]; cbn [fst snd].
  { split; [reflexivity|]. split; [discriminate|]. split; [|discriminate].
    split; [intros _; left; discriminate | intros _; eexists; reflexivity]. }
  destruct (CameraCapture.writeAsync io _) as [e|]; cbn [fst snd].
  { split; [reflexivity|]. split; [discriminate|]. split; [|discriminate].
    split; [intros _; right; left; discriminate | intros _; eexists; reflexivity]. }
  destruct (CameraCapture.getBufferAsync_base64 io) as [base64|e]; cbn [fst snd].
  - split; [reflexivity|]. split; [discriminate|]. split.
    + split; [intros (e & He); discriminate|].
      intros [Hx|[Hx|(e & Hx)]]; [contradiction Hx; reflexivity
                                 | contradiction Hx; reflexivity | discriminate].
    + intros frame Hframe. injection Hframe as <-. split; reflexivity.
  - split; [reflexivity|]. split; [discriminate|]. split; [|discriminate].
    split; [intros _; right; right; eexists; reflexivity | intros _; eexists; reflexivity].
Qed.

(** What [captureFrame] does in each state of the camera. *)
Lemma captureFrame_cases :
  forall (io io' : CameraCapture.CaptureIO) (this : CameraCapture.t),
    let r := CameraCapture.captureFrame io io' this in
    let shot := CameraCapture.path_join CameraCapture.captureDir
                  ("frame_" ++ replace_colons_and_dots (CameraCapture.toISOString io)
                            ++ ".jpg") in
    fst r = this /\
    (CameraCapture.initialized this = false ->
     snd r = Rejected "Error: Camera not initialized") /\
    (CameraCapture.initialized this = true -> CameraCapture.mockMode this = false ->
     (forall e, CameraCapture.webcam_capture io shot = inr e -> snd r = Rejected e) /\
     (forall data e, CameraCapture.webcam_capture io shot = inl data ->
                     CameraCapture.readFile_base64 io data = inr e -> snd r = Rejected e) /\
     (forall frame, snd r = Resolved frame ->
                    CameraCapture.mock frame = false /\
                    CameraCapture.webcam_capture io shot
                    = inl (CameraCapture.filepath frame) /\
                    CameraCapture.filename frame
                    = "frame_" ++ replace_colons_and_dots (CameraCapture.toISOString io)
                               ++ ".jpg")) /\
    (CameraCapture.initialized this = true -> CameraCapture.mockMode this = true ->
     (forall frame, snd r = Resolved frame -> CameraCapture.mock frame = true) /\
     ((exists e, snd r = Rejected e) <-> mock_fails io /\ mock_fails io')).
Proof.
  intros io io' this r shot; subst r shot. unfold CameraCapture.captureFrame.
  destruct (CameraCapture.initialized this); cbn [negb].
  2:{ split; [reflexivity|]. split; [reflexivity|]. split; discriminate. }
  destruct (CameraCapture.mockMode this).
  - unfold bind, try_catch, ret, await.
    destruct (captureMockFrame_outcome io this) as (Hs & Hu & Hrej & Hres).
    destruct (captureMockFrame_outcome io' this) as (Hs' & Hu' & Hrej' & Hres').
    destruct (CameraCapture.captureMockFrame io this) as [s1 [frame|e|e]];
      cbn [fst snd] in *; subst s1.
    + split; [reflexivity|]. split; [discriminate|]. split; [discriminate|].
      intros _ _. split.
      * intros frame' Hx. injection Hx as <-. apply (Hres frame eq_refl).
      * split; [intros (e & He); discriminate|].
        intros (Hfail & _). apply Hrej in Hfail. destruct Hfail as (e & He). discriminate.
    + destruct (CameraCapture.captureMockFrame io' this) as [s2 [frame|e'|e']];
        cbn [fst snd] in *; subst s2.
      * split; [reflexivity|]. split; [discriminate|]. split; [discriminate|].
        intros _ _. split.
        -- intros frame' Hx. injection Hx as <-. apply (Hres' frame eq_refl).
        -- split; [intros (e0 & He0); discriminate|].
           intros (_ & Hfail). apply Hrej' in Hfail. destruct Hfail as (e0 & He0).
           discriminate.
      * split; [reflexivity|]. split; [discriminate|]. split; [discriminate|].
        intros _ _. split; [discriminate|].
        split; [|intros _; eexists; reflexivity].
        intros _. split; [apply Hrej | apply Hrej']; eexists; reflexivity.
      * contradiction (Hu' e' eq_refl).
    + contradiction (Hu e eq_refl).
  - unfold bind, try_catch, ret, await, CameraCapture.webcam_promise. cbn [fst snd].
    cbv zeta.
    split; [reflexivity|]. split; [discriminate|]. split; [|discriminate].
    intros _ _.
    destruct (CameraCapture.webcam_capture io _) as [data|e] eqn:Hshot.
    + destruct (CameraCapture.readFile_base64 io data) as [base64|e] eqn:Hread.
      * split; [discriminate|]. split; [intros d e Hd He; congruence|].
        intros frame Hframe. injection Hframe as <-. repeat split.
      * split; [discriminate|].
        split; [intros d e' Hd He; congruence | discriminate].
    + split; [intros e' He; congruence|]. split; discriminate.
Qed.

(** X21. [captureFrame] falls back to the mock frame only in mock mode.
    On a camera that is not initialized it rejects. On an initialized
    camera outside mock mode, an error of the webcam or of reading the
    shot back rejects the call with that error: the promise is returned
    from the [try] block without being awaited, so the [catch] block with
    its mock frame is never entered, and a frame that resolves is never a
    mock frame. In mock mode a failing mock capture is attempted a second
    time by the [catch] block, and the call rejects exactly when both
    attempts fail. The camera's state is never changed. *)
Theorem captureFrame_fallback :
  forall (io io' : CameraCapture.CaptureIO) (this : CameraCapture.t),
    let r := CameraCapture.captureFrame io io' this in
    let shot := CameraCapture.path_join CameraCapture.captureDir
                  ("frame_" ++ replace_colons_and_dots (CameraCapture.toISOString io)
                            ++ ".jpg") in
    fst r = this /\
    (CameraCapture.initialized this = false ->
     snd r = Rejected "Error: Camera not initialized") /\
    (CameraCapture.initialized this = true -> CameraCapture.mockMode this = false ->
     (forall e, CameraCapture.webcam_capture io shot = inr e -> snd r = Rejected e) /\
     (forall data e, CameraCapture.webcam_capture io shot = inl data ->
                     CameraCapture.readFile_base64 io data = inr e -> snd r = Rejected e) /\
     (forall frame, snd r = Resolved frame ->
                    CameraCapture.mock frame = false /\
                    CameraCapture.webcam_capture io shot
                    = inl (CameraCapture.filepath frame) /\
                    CameraCapture.filename frame
                    = "frame_" ++ replace_colons_and_dots (CameraCapture.toISOString io)
                               ++ ".jpg")) /\
    (CameraCapture.initialized this = true -> CameraCapture.mockMode this = true ->
     (forall frame, snd r = Resolved frame -> CameraCapture.mock frame = true) /\
     ((exists e, snd r = Rejected e) <-> mock_fails io /\ mock_fails io')).
Proof.
  intros io io' this. exact (captureFrame_cases io io' this).
Qed.

Lemma captureFrame_fallback_witness :
  snd (CameraCapture.captureFrame webcam_unplugged webcam_unplugged hardware_camera)
  = Rejected "Error: no webcam found".
Proof.
  destruct (captureFrame_fallback webcam_unplugged webcam_unplugged hardware_camera)
    as (_ & _ & Hhardware & _).
  destruct (Hhardware eq_refl eq_refl) as (Hwebcam & _).
  apply Hwebcam. reflexivity.
Defined.

(** ** File names *)

Lemma no_dot_app (a b : string) : no_dot (a ++ b) = (no_dot a && no_dot b)%bool.
Proof.
  induction a as [|c a IH]; [reflexivity|].
  cbn [append no_dot]. rewrite IH. apply andb_assoc.
Qed.

Lemma no_dot_replace_colons_and_dots (s : string) :
  no_dot (replace_colons_and_dots s) = true /\
  String.length (replace_colons_and_dots s) = String.length s.
Proof.
  induction s as [|c s (IHdot & IHlen)]; [split; reflexivity|].
  cbn [replace_colons_and_dots no_dot String.length]. rewrite IHdot, IHlen.
  split; [|reflexivity].
  destruct (Ascii.eqb c ":") eqn:Hcolon; cbn [orb]; [reflexivity|].
  destruct (Ascii.eqb c ".") eqn:Hdot; [reflexivity|]. rewrite Hdot. reflexivity.
Qed.

Lemma append_empty (s : string) : s ++ "" = s.
Proof. induction s as [|c s IH]; [reflexivity|]. cbn [append]. rewrite IH. reflexivity. Qed.

Lemma replace_first_extension (replacement stem : string) :
  no_dot stem = true ->
  replace_first ".jpg" replacement (stem ++ ".jpg") = stem ++ replacement.
Proof.
  induction stem as [|c stem IH]; intros Hdot.
  - cbn. apply append_empty.
  - cbn [no_dot] in Hdot. apply andb_prop in Hdot. destruct Hdot as (Hc & Hstem).
    cbn [append replace_first String.prefix].
    destruct (Ascii.ascii_dec "." c) as [<-|_]; [discriminate Hc|].
    rewrite (IH Hstem). reflexivity.
Qed.

Lemma captureFrame_filename (io io' : CameraCapture.CaptureIO) (this : CameraCapture.t)
    (frame : CameraCapture.FrameData) :
  snd (CameraCapture.captureFrame io io' this) = Resolved frame ->
  exists prefix time,
    (prefix = "frame_" \/ prefix = "mock_frame_") /\
    (time = CameraCapture.toISOString io \/ time = CameraCapture.toISOString io') /\
    CameraCapture.filename frame = prefix ++ replace_colons_and_dots time ++ ".jpg".
Proof.
  unfold CameraCapture.captureFrame.
  destruct (CameraCapture.initialized this); cbn [negb snd]; [|discriminate].
  destruct (CameraCapture.mockMode this).
  - unfold bind, try_catch, ret, await.
    destruct (captureMockFrame_outcome io this) as (_ & _ & _ & Hres).
    destruct (CameraCapture.captureMockFrame io this) as [s1 [frame1|e|e]]; cbn [fst snd] in *.
    + intros Hx. injection Hx as <-. destruct (Hres frame1 eq_refl) as (_ & Hname).
      exists "mock_frame_", (CameraCapture.toISOString io).
      split; [right; reflexivity|]. split; [left; reflexivity | exact Hname].
    + destruct (captureMockFrame_outcome io' s1) as (_ & _ & _ & Hres').
      destruct (CameraCapture.captureMockFrame io' s1) as [s2 [frame2|e'|e']];
        cbn [fst snd] in *; try discriminate.
      intros Hx. injection Hx as <-. destruct (Hres' frame2 eq_refl) as (_ & Hname).
      exists "mock_frame_", (CameraCapture.toISOString io').
      split; [right; reflexivity|]. split; [right; reflexivity | exact Hname].
    + discriminate.
  - unfold bind, try_catch, ret, await, CameraCapture.webcam_promise. cbn [fst snd].
    cbv zeta.
    destruct (CameraCapture.webcam_capture io _) as [data|e]; [|discriminate].
    destruct (CameraCapture.readFile_base64 io data) as [base64|e]; [|discriminate].
    intros Hx. injection Hx as <-. cbn [CameraCapture.filename].
    exists "frame_", (CameraCapture.toISOString io).
    split; [left; reflexivity|]. split; [left; reflexivity | reflexivity].
Qed.

(** X22. The name of every frame that [captureFrame] resolves with is
    'frame_' or 'mock_frame_', the ISO timestamp with each colon and dot
    replaced by a dash, and '.jpg'; its only dot is the one of the
    extension. So the record that [captureSecureImage] writes beside it is
    named 'secure_', the same stem, and '.json': the replacement of the
    first '.jpg' hits the extension. *)
Theorem recordFilename_of_capture :
  forall (io io' : CameraCapture.CaptureIO) (this : CameraCapture.t)
         (frame : CameraCapture.FrameData),
    snd (CameraCapture.captureFrame io io' this) = Resolved frame ->
    exists stem,
      CameraCapture.filename frame = stem ++ ".jpg" /\
      no_dot stem = true /\
      recordFilename frame = "secure_" ++ stem ++ ".json".
Proof.
  intros io io' this frame Hframe.
  destruct (captureFrame_filename io io' this frame Hframe)
    as (prefix & time & Hprefix & _ & Hname).
  exists (prefix ++ replace_colons_and_dots time).
  assert (Hdot : no_dot (prefix ++ replace_colons_and_dots time) = true).
  { rewrite no_dot_app. destruct (no_dot_replace_colons_and_dots time) as (-> & _).
    destruct Hprefix as [->| ->]; reflexivity. }
  assert (Hfull : CameraCapture.filename frame
                  = (prefix ++ replace_colons_and_dots time) ++ ".jpg").
  { rewrite Hname. clear. induction prefix as [|c p IH]; [reflexivity|].
    cbn [append]. rewrite IH. reflexivity. }
  split; [exact Hfull|]. split; [exact Hdot|].
  unfold recordFilename. rewrite Hfull, (replace_first_extension _ _ Hdot). reflexivity.
Qed.

Lemma recordFilename_of_capture_witness :
  exists frame stem,
    snd (CameraCapture.captureFrame webcam_works webcam_works hardware_camera)
    = Resolved frame /\
    CameraCapture.filename frame = "frame_2024-05-01T10-00-00-000Z.jpg" /\
    CameraCapture.filename frame = stem ++ ".jpg" /\
    recordFilename frame = "secure_" ++ stem ++ ".json".
Proof.
  let r := eval vm_compute in
             (snd (CameraCapture.captureFrame webcam_works webcam_works hardware_camera)) in
  match r with
  | Resolved ?f =>
      destruct (recordFilename_of_capture webcam_works webcam_works hardware_camera f
                  ltac:(vm_compute; reflexivity)) as (stem & Hname & _ & Hrecord);
      exists f, stem
  end.
  split; [vm_compute; reflexivity|]. split; [reflexivity|].
  split; [exact Hname | exact Hrecord].
Defined.

(* ================================================================== *)
(** * The server *)
(* ================================================================== *)

Section Server.

Context {rt : Runtime}.

Lemma captureAndSave_run (io io' : CameraCapture.CaptureIO) (device : CameraCapture.t) :
  CameraCapture.captureAndSave io io' device
  = (device, snd (CameraCapture.captureFrame io io' device)) /\
  forall e, snd (CameraCapture.captureFrame io io' device) <> Uncaught e.
Proof.
  destruct (captureFrame_cases io io' device) as (Hstate & Hoff & Hhard & Hmock).
  unfold CameraCapture.captureAndSave, bind, ret.
  destruct (CameraCapture.captureFrame io io' device) as [s [frame|e|e]] eqn:Hshot;
    cbn [fst snd] in *; subst s; (split; [reflexivity|]); try discriminate.
  exfalso. revert Hshot. unfold CameraCapture.captureFrame.
  destruct (CameraCapture.initialized device); cbn [negb]; [|discriminate].
  unfold bind, try_catch, ret, await.
  destruct (CameraCapture.mockMode device).
  - destruct (captureMockFrame_outcome io device) as (_ & Hu & _).
    destruct (CameraCapture.captureMockFrame io device) as [s1 [f|e1|e1]]; cbn [fst snd] in *.
    + discriminate.
    + destruct (captureMockFrame_outcome io' s1) as (_ & Hu' & _).
      destruct (CameraCapture.captureMockFrame io' s1) as [s2 [f|e2|e2]]; cbn [fst snd] in *;
        try discriminate.
      contradiction (Hu' e2 eq_refl).
    + contradiction (Hu e1 eq_refl).
  - unfold CameraCapture.webcam_promise. cbv zeta.
    destruct (CameraCapture.webcam_capture io _); [|discriminate].
    destruct (CameraCapture.readFile_base64 io _); discriminate.
Qed.

Lemma handleMotionDetection_cases (io io' : CameraCapture.CaptureIO) (env env' : Env)
    (motionData : JSON) (this : SecureCameraSystem.t) :
  let r := SecureCameraSystem.handleMotionDetection io io' env env' motionData this in
  let shot := snd (CameraCapture.captureFrame io io' (SecureCameraSystem.camera this)) in
  (forall e, snd r <> Rejected e) /\
  SecureCameraSystem.camera (fst r) = SecureCameraSystem.camera this /\
  (forall e, shot = Rejected e -> r = (this, Resolved None)) /\
  (forall frameData,
      shot = Resolved frameData ->
      let imageData := SecureCameraSystem.imageData_of frameData in
      let created := createProvenanceRecord env env' "motion_detection" motionData imageData
                       (SecureCameraSystem.provenance this) in
      SecureCameraSystem.provenance (fst r) = fst created /\
      (forall record,
          snd r = Resolved (Some record) <-> snd created = Resolved record) /\
      (forall record,
          snd r = Resolved (Some record) ->
          SecureCameraSystem.clients (fst r)
          = map (SecureCameraSystem.send_if_open
                   (SecureCameraSystem.new_event_message record imageData))
                (SecureCameraSystem.clients this)) /\
      (snd r = Resolved None <-> exists e, snd created = Rejected e)) /\
  ((forall record, snd r <> Resolved (Some record)) ->
   SecureCameraSystem.clients (fst r) = SecureCameraSystem.clients this).
Proof.
  intros r shot; subst r shot.
  destruct this as [device tracker sockets].
  unfold SecureCameraSystem.handleMotionDetection, SecureCameraSystem.this_provenance,
    SecureCameraSystem.this_camera, SecureCameraSystem.broadcast,
    try_catch, bind, call, modify, ret.
  cbn [SecureCameraSystem.camera SecureCameraSystem.provenance SecureCameraSystem.clients].
  destruct (captureAndSave_run io io' device) as (-> & Hu).
  destruct (snd (CameraCapture.captureFrame io io' device)) as [frameData|e|e];
    cbn [fst snd SecureCameraSystem.camera SecureCameraSystem.provenance
         SecureCameraSystem.clients].
  3:{ contradiction (Hu e eq_refl). }
  2:{ split; [discriminate|]. split; [reflexivity|]. split; [intros e' _; reflexivity|].
      split; [discriminate|]. intros _. reflexivity. }
  destruct (createProvenanceRecord env env' "motion_detection" motionData
              (SecureCameraSystem.imageData_of frameData) tracker)
    as [tracker' [record|e|e]] eqn:Hcreate;
    cbn [fst snd SecureCameraSystem.camera SecureCameraSystem.provenance
         SecureCameraSystem.clients].
  - split; [discriminate|]. split; [reflexivity|]. split; [discriminate|]. split.
    + intros f Hf. injection Hf as <-. rewrite Hcreate. cbn [fst snd].
      split; [reflexivity|]. split.
      * intros record'. split; intros Hx; congruence.
      * split; [intros record' Hx; injection Hx as <-; reflexivity|].
        split; [discriminate | intros (e & He); discriminate].
    + intros Hx. contradiction (Hx record eq_refl).
  - split; [discriminate|]. split; [reflexivity|]. split; [discriminate|]. split.
    + intros f Hf. injection Hf as <-. rewrite Hcreate. cbn [fst snd].
      split; [reflexivity|]. split.
      * intros record'. split; discriminate.
      * split; [discriminate|]. split; [intros _; eexists; reflexivity | reflexivity].
    + intros _. reflexivity.
  - split; [discriminate|]. split; [reflexivity|]. split; [discriminate|]. split.
    + intros f Hf. injection Hf as <-. rewrite Hcreate. cbn [fst snd].
      split; [reflexivity|]. split.
      * intros record'. split; discriminate.
      * split; [discriminate|]. split; [discriminate | intros (e' & He); discriminate].
    + intros _. reflexivity.
Qed.

(** X23. [handleMotionDetection] never rejects and leaves the camera as it
    was. When the capture rejects it returns null and has written and sent
    nothing. When it returns a record, that record is the one
    [createProvenanceRecord] resolved with for the captured frame, the
    tracker is as that call left it, and every client whose socket is open
    has been sent exactly one message, the same for all, while the other
    clients have been sent none. When it returns null no client has been
    sent anything, but the tracker is still as [createProvenanceRecord]
    left it, which may have stored events. *)
Theorem handleMotionDetection_outcomes :
  forall (io io' : CameraCapture.CaptureIO) (env env' : Env) (motionData : JSON)
         (this : SecureCameraSystem.t),
    let r := SecureCameraSystem.handleMotionDetection io io' env env' motionData this in
    let shot := snd (CameraCapture.captureFrame io io' (SecureCameraSystem.camera this)) in
    (forall e, snd r <> Rejected e) /\
    SecureCameraSystem.camera (fst r) = SecureCameraSystem.camera this /\
    (forall e, shot = Rejected e -> r = (this, Resolved None)) /\
    (forall frameData,
        shot = Resolved frameData ->
        let imageData := SecureCameraSystem.imageData_of frameData in
        let created := createProvenanceRecord env env' "motion_detection" motionData imageData
                         (SecureCameraSystem.provenance this) in
        SecureCameraSystem.provenance (fst r) = fst created /\
        (forall record,
            snd r = Resolved (Some record) <-> snd created = Resolved record) /\
        (forall record,
            snd r = Resolved (Some record) ->
            SecureCameraSystem.clients (fst r)
            = map (SecureCameraSystem.send_if_open
                     (SecureCameraSystem.new_event_message record imageData))
                  (SecureCameraSystem.clients this)) /\
        (snd r = Resolved None <-> exists e, snd created = Rejected e)) /\
    ((forall record, snd r <> Resolved (Some record)) ->
     SecureCameraSystem.clients (fst r) = SecureCameraSystem.clients this).
Proof.
  intros io io' env env' motionData this.
  exact (handleMotionDetection_cases io io' env env' motionData this).
Qed.

(** X24. A trigger during which the webcam fails is lost. On a camera
    that is initialized and not in mock mode, when the webcam reports an
    error for the shot, [handleMotionDetection] returns null and the
    server is exactly as before: no event row, no link, no cursor move
    and no message to any client. The mock frame is not substituted. *)
Theorem trigger_lost_when_webcam_fails :
  forall (io io' : CameraCapture.CaptureIO) (env env' : Env) (motionData : JSON)
         (this : SecureCameraSystem.t) (e : Error),
    CameraCapture.initialized (SecureCameraSystem.camera this) = true ->
    CameraCapture.mockMode (SecureCameraSystem.camera this) = false ->
    CameraCapture.webcam_capture io
      (CameraCapture.path_join CameraCapture.captureDir
         ("frame_" ++ replace_colons_and_dots (CameraCapture.toISOString io) ++ ".jpg"))
    = inr e ->
    SecureCameraSystem.handleMotionDetection io io' env env' motionData this
    = (this, Resolved None).
Proof.
  intros io io' env env' motionData this e Hini Hmode Hwebcam.
  destruct (handleMotionDetection_cases io io' env env' motionData this)
    as (_ & _ & Hlost & _).
  destruct (captureFrame_cases io io' (SecureCameraSystem.camera this))
    as (_ & _ & Hhard & _).
  destruct (Hhard Hini Hmode) as (Herror & _).
  apply (Hlost e). apply Herror. exact Hwebcam.
Qed.

End Server.

Lemma handleMotionDetection_outcomes_witness :
  snd (@SecureCameraSystem.handleMotionDetection example_runtime webcam_works webcam_works
         (chain_insert_fails "id-b" 200) (chain_insert_fails "id-b2" 201)
         manual_trigger example_server) = Resolved None /\
  SecureCameraSystem.clients
    (fst (@SecureCameraSystem.handleMotionDetection example_runtime webcam_works webcam_works
            (chain_insert_fails "id-b" 200) (chain_insert_fails "id-b2" 201)
            manual_trigger example_server))
  = SecureCameraSystem.clients example_server /\
  length (events (db (SecureCameraSystem.provenance example_server))) = 1%nat /\
  length (events (db (SecureCameraSystem.provenance
    (fst (@SecureCameraSystem.handleMotionDetection example_runtime webcam_works webcam_works
            (chain_insert_fails "id-b" 200) (chain_insert_fails "id-b2" 201)
            manual_trigger example_server))))) = 3%nat.
Proof.
  destruct (@handleMotionDetection_outcomes example_runtime webcam_works webcam_works
              (chain_insert_fails "id-b" 200) (chain_insert_fails "id-b2" 201)
              manual_trigger example_server) as (_ & _ & _ & Hcaptured & Hquiet).
  destruct (Hcaptured _ eq_refl) as (Htracker & _ & _ & Hnull).
  assert (Hnone : snd (@SecureCameraSystem.handleMotionDetection example_runtime
                         webcam_works webcam_works
                         (chain_insert_fails "id-b" 200) (chain_insert_fails "id-b2" 201)
                         manual_trigger example_server) = Resolved None).
  { apply Hnull. eexists. vm_compute. reflexivity. }
  split; [exact Hnone|]. split.
  - apply Hquiet. intros record Hx. rewrite Hnone in Hx. discriminate.
  - split; [reflexivity|]. rewrite Htracker. vm_compute. reflexivity.
Defined.

Lemma trigger_lost_when_webcam_fails_witness :
  @SecureCameraSystem.handleMotionDetection example_runtime webcam_unplugged webcam_unplugged
    (quiet "id-b" 200) (quiet "id-b2" 200) manual_trigger example_server
  = (example_server, Resolved None).
Proof.
  apply (@trigger_lost_when_webcam_fails example_runtime webcam_unplugged webcam_unplugged
           (quiet "id-b" 200) (quiet "id-b2" 200) manual_trigger example_server
           "Error: no webcam found"); reflexivity.
Defined.

(* ================================================================== *)
(** * The checksum *)
(* ================================================================== *)

Lemma is_word16_range (v : Z) : is_word16 v = true <-> (0 <= v <= 65535)%Z.
Proof.
  unfold is_word16. rewrite andb_true_iff, !Z.leb_le. reflexivity.
Qed.

Lemma lxor_word16 (a b : Z) :
  (0 <= a <= 65535)%Z -> (0 <= b <= 65535)%Z -> (0 <= Z.lxor a b <= 65535)%Z.
Proof.
  intros Ha Hb.
  assert (Hnonneg : (0 <= Z.lxor a b)%Z) by (apply Z.lxor_nonneg; lia).
  split; [exact Hnonneg|].
  destruct (Z.eq_dec (Z.lxor a b) 0) as [->|Hne]; [lia|].
  assert (Hlog : (Z.log2 (Z.lxor a b) < 16)%Z).
  { apply Z.le_lt_trans with (Z.max (Z.log2 a) (Z.log2 b)); [apply Z.log2_lxor; lia|].
    apply Z.max_lub_lt.
    - destruct (Z.eq_dec a 0) as [->|Ha0]; [cbn; lia|].
      apply Z.log2_lt_pow2; [lia|]. change (2 ^ 16)%Z with 65536%Z. lia.
    - destruct (Z.eq_dec b 0) as [->|Hb0]; [cbn; lia|].
      apply Z.log2_lt_pow2; [lia|]. change (2 ^ 16)%Z with 65536%Z. lia. }
  apply Z.log2_lt_pow2 in Hlog; [|lia]. change (2 ^ 16)%Z with 65536%Z in Hlog. lia.
Qed.

Lemma bit_xor_word16 (a b : Z) :
  (0 <= a <= 65535)%Z -> (0 <= b <= 65535)%Z ->
  bit_xor a b = Z.lxor a b /\ (0 <= bit_xor a b <= 65535)%Z.
Proof.
  intros Ha Hb. unfold bit_xor. rewrite !ToInt32_small by lia.
  split; [reflexivity | apply lxor_word16; assumption].
Qed.

Lemma crc_round_word16 (crc : Z) :
  (0 <= crc <= 65535)%Z ->
  (if nonzero (bit_and crc 1) then bit_xor (shift_right crc 1) 32773 else shift_right crc 1)
  = crc_round16 crc.
Proof.
  intros Hcrc. unfold crc_round16, nonzero, bit_and, shift_right.
  change (1 mod 32)%Z with 1%Z. rewrite !ToInt32_small by lia.
  assert (Hhalf : (0 <= Z.shiftr crc 1 <= 65535)%Z).
  { rewrite Z.shiftr_div_pow2 by lia. change (2 ^ 1)%Z with 2%Z.
    split; [apply Z.div_pos; lia|].
    apply Z.le_trans with crc; [|lia]. apply Z.div_le_upper_bound; lia. }
  change 1%Z with (Z.ones 1) at 1. rewrite Z.land_ones by lia. change (2 ^ 1)%Z with 2%Z.
  rewrite Zmod_odd.
  destruct (Z.odd crc); cbn [Z.eqb negb]; [|reflexivity].
  apply bit_xor_word16; lia.
Qed.

Lemma Z_range_forallb_Z (P : Z -> bool) (lo count : Z) :
  forallb P (Z_range lo (Z.to_nat count)) = true ->
  forall v, (lo <= v < lo + count)%Z -> P v = true.
Proof.
  intros Hall v Hv. apply (Z_range_forallb P lo (Z.to_nat count) Hall).
  rewrite Z2Nat.id by lia. exact Hv.
Qed.

Lemma crc_round16_checked (crc : Z) :
  (0 <= crc <= 65535)%Z ->
  (0 <= crc_round16 crc <= 65535)%Z /\ crc_unround16 (crc_round16 crc) = crc.
Proof.
  intros Hcrc.
  pose proof (Z_range_forallb_Z
                (fun c => is_word16 (crc_round16 c) && (crc_unround16 (crc_round16 c) =? c)%Z)
                0 65536 ltac:(vm_compute; reflexivity) crc ltac:(lia)) as Hcheck.
  cbv beta in Hcheck. apply andb_prop in Hcheck. destruct Hcheck as (Hword & Hback).
  apply is_word16_range in Hword. apply Z.eqb_eq in Hback. split; assumption.
Qed.

Lemma crc_rounds_word16 (j : nat) :
  forall crc, (0 <= crc <= 65535)%Z ->
              (0 <= crc_rounds j crc <= 65535)%Z /\
              (forall crc', (0 <= crc' <= 65535)%Z ->
                            crc_rounds j crc = crc_rounds j crc' -> crc = crc').
Proof.
  induction j as [|j IH]; intros crc Hcrc; cbn [crc_rounds].
  - split; [exact Hcrc | intros crc' _ Heq; exact Heq].
  - rewrite (crc_round_word16 crc Hcrc).
    destruct (crc_round16_checked crc Hcrc) as (Hword & Hback).
    destruct (IH _ Hword) as (Hrange & Hinj). split; [exact Hrange|].
    intros crc' Hcrc' Heq. rewrite (crc_round_word16 crc' Hcrc') in Heq.
    destruct (crc_round16_checked crc' Hcrc') as (Hword' & Hback').
    apply (Hinj _ Hword') in Heq. rewrite <- Hback, <- Hback', Heq. reflexivity.
Qed.

Lemma crc_byte_word16 (crc byte : Z) :
  (0 <= crc <= 65535)%Z -> (0 <= byte <= 255)%Z ->
  (0 <= crc_byte crc byte <= 65535)%Z /\
  (forall crc', (0 <= crc' <= 65535)%Z -> crc_byte crc byte = crc_byte crc' byte -> crc = crc') /\
  (forall byte', (0 <= byte' <= 255)%Z -> crc_byte crc byte = crc_byte crc byte' ->
                 byte = byte').
Proof.
  intros Hcrc Hbyte. unfold crc_byte.
  destruct (bit_xor_word16 crc byte Hcrc ltac:(lia)) as (Hxor & Hword).
  destruct (crc_rounds_word16 8 _ Hword) as (Hrange & Hinj).
  split; [exact Hrange|]. split.
  - intros crc' Hcrc' Heq.
    destruct (bit_xor_word16 crc' byte Hcrc' ltac:(lia)) as (Hxor' & Hword').
    apply (Hinj _ Hword') in Heq. rewrite Hxor, Hxor' in Heq.
    apply (f_equal (fun v => Z.lxor v byte)) in Heq.
    rewrite !Z.lxor_assoc, !Z.lxor_nilpotent, !Z.lxor_0_r in Heq. exact Heq.
  - intros byte' Hbyte' Heq.
    destruct (bit_xor_word16 crc byte' Hcrc ltac:(lia)) as (Hxor' & Hword').
    apply (Hinj _ Hword') in Heq. rewrite Hxor, Hxor' in Heq.
    apply (f_equal (Z.lxor crc)) in Heq.
    rewrite <- !Z.lxor_assoc, !Z.lxor_nilpotent, !Z.lxor_0_l in Heq. exact Heq.
Qed.

Lemma fold_left_cons {A B : Type} (f : A -> B -> A) (b : B) (l : list B) (a : A) :
  fold_left f (b :: l) a = fold_left f l (f a b).
Proof. reflexivity. Qed.

Lemma fold_crc_cons (byte : Z) (data : list Z) (crc : Z) :
  fold_left crc_byte (byte :: data) crc = fold_left crc_byte data (crc_byte crc byte).
Proof. apply fold_left_cons. Qed.

Lemma crc_byte_zero : crc_byte 0 0 = 0%Z.
Proof. vm_compute. reflexivity. Qed.

Lemma crc_fold_word16 (data : list Z) :
  Forall (fun byte => is_byte byte = true) data ->
  forall crc, (0 <= crc <= 65535)%Z ->
              (0 <= fold_left crc_byte data crc <= 65535)%Z /\
              (forall crc', (0 <= crc' <= 65535)%Z ->
                            fold_left crc_byte data crc = fold_left crc_byte data crc' ->
                            crc = crc').
Proof.
  induction 1 as [|byte data Hbyte _ IH]; intros crc Hcrc.
  - split; [exact Hcrc | intros crc' _ Heq; exact Heq].
  - apply is_byte_range in Hbyte. rewrite fold_crc_cons.
    destruct (crc_byte_word16 crc byte Hcrc Hbyte) as (Hrange & Hinj & _).
    destruct (IH _ Hrange) as (Hfold & Hfold_inj). split; [exact Hfold|].
    intros crc' Hcrc' Heq. rewrite fold_crc_cons in Heq.
    destruct (crc_byte_word16 crc' byte Hcrc' Hbyte) as (Hrange' & _).
    apply (Hfold_inj _ Hrange') in Heq. apply (Hinj _ Hcrc') in Heq. exact Heq.
Qed.

(** X25. For data made of bytes, [calculateCRC] returns a 16-bit value;
    zero bytes in front of the data do not change it; and it detects
    every change of a single byte: two byte sequences that differ in
    exactly one position have different checksums. *)
Theorem calculateCRC_detects_one_byte :
  forall (data : list Z),
    Forall (fun byte => is_byte byte = true) data ->
    (0 <= calculateCRC data <= 65535)%Z /\
    (forall n, calculateCRC (repeat 0%Z n ++ data)%list = calculateCRC data) /\
    (forall pre post byte byte',
        data = (pre ++ byte :: post)%list ->
        is_byte byte' = true -> byte' <> byte ->
        calculateCRC (pre ++ byte' :: post)%list <> calculateCRC data).
Proof.
  intros data Hdata. unfold calculateCRC. split; [|split].
  - apply (crc_fold_word16 data Hdata 0%Z). lia.
  - induction n as [|n IH]; [reflexivity|].
    change (repeat 0%Z (S n) ++ data)%list with (0%Z :: (repeat 0%Z n ++ data))%list.
    rewrite fold_crc_cons, crc_byte_zero. exact IH.
  - intros pre post byte byte' -> Hbyte' Hne.
    apply Forall_app in Hdata. destruct Hdata as (Hpre & Hrest).
    apply Forall_cons_iff in Hrest. destruct Hrest as (Hbyte & Hpost).
    rewrite !fold_left_app, !fold_crc_cons.
    destruct (crc_fold_word16 pre Hpre 0%Z ltac:(lia)) as (Hstart & _).
    apply is_byte_range in Hbyte, Hbyte'.
    destruct (crc_byte_word16 _ byte Hstart Hbyte) as (Hrange & _ & _).
    destruct (crc_byte_word16 _ byte' Hstart Hbyte') as (Hrange' & _ & Hinj').
    destruct (crc_fold_word16 post Hpost _ Hrange') as (_ & Hfold_inj).
    intros Heq. apply (Hfold_inj _ Hrange) in Heq. apply (Hinj' _ Hbyte) in Heq.
    contradiction.
Qed.

Lemma calculateCRC_detects_one_byte_witness :
  calculateCRC [48; 0; 0; 0]%Z <> calculateCRC [48; 0; 1; 0]%Z /\
  calculateCRC [0; 0; 48; 0; 0; 0]%Z = calculateCRC [48; 0; 0; 0]%Z.
Proof.
  destruct (calculateCRC_detects_one_byte [48; 0; 0; 0]%Z) as (_ & Hzeros & Hchange).
  - repeat constructor.
  - split.
    + intros Heq. apply (Hchange [48; 0]%Z [0]%Z 0%Z 1%Z eq_refl eq_refl); [discriminate|].
      symmetry. exact Heq.
    + exact (Hzeros 2%nat).
Defined.

